(** * Smart-Expense: recurring-transaction materializer, summary and budget
      evaluator, currency converter and the model-service wrappers.

    A shallow embedding of the logic of
      - [App] (processRecurringTransactions, addDays, addMonths, addYears and
        the merge effect),
      - [SummaryDashboard] (calculateSummary, getPeriodTransactions,
        getBudgetAlerts),
      - [CurrencyConverter] (handleConvert),
      - [geminiService] (categorizeTransaction, getSpendingInsights).

    Conventions of the embedding.
      - A JavaScript [Date] is its time value: milliseconds since the epoch,
        an integer.  The built-ins the code calls are written after the
        abstract operations of ECMA-262 (Day, TimeWithinDay, MakeDay,
        MakeDate, LocalTime, UTC).  The host time zone is a fixed offset
        [tz] in milliseconds (local = UTC + tz); daylight saving is not
        modelled.
      - A date-only string "YYYY-MM-DD" (the [date], [startDate] and
        [nextOccurrenceDate] fields) is represented by the day number it
        denotes; [toISODate] renders it where the code builds an id from it.
      - A JavaScript number is a binary64 float ([PrimFloat.float]): sums,
        differences, quotients and products round as the engine rounds,
        and NaN, the infinities and the two zeros are values like the
        others.
      - A string is a sequence of bytes; what the code asks of the host
        about a text ([toLowerCase], [trim], [localeCompare], [length]) is
        a function of the host. *)

From Stdlib Require Import ZArith QArith List String Ascii Bool Lia.
From Stdlib Require Import Sorted Permutation.
From Stdlib Require Import Floats.
Import ListNotations.
Open Scope string_scope.
Open Scope list_scope.
Open Scope Z_scope.

(** ** The Date built-in *)

Module JSDate.

Definition msPerDay : Z := 86400000.

Definition Day (t : Z) : Z := t / msPerDay.
Definition TimeWithinDay (t : Z) : Z := t mod msPerDay.

(** Day number of a civil date of the proleptic Gregorian calendar
  ([m] is 1-based here) and its inverse. *)
Definition days_from_civil (y m d : Z) : Z :=
  let y' := if m <=? 2 then y - 1 else y in
  let era := y' / 400 in
  let yoe := y' - era * 400 in
  let mp := if 2 <? m then m - 3 else m + 9 in
  let doy := (153 * mp + 2) / 5 + d - 1 in
  let doe := yoe * 365 + yoe / 4 - yoe / 100 + doy in
  era * 146097 + doe - 719468.

Definition civil_from_days (z : Z) : Z * Z * Z :=
  let z' := z + 719468 in
  let era := z' / 146097 in
  let doe := z' - era * 146097 in
  let yoe := (doe - doe / 1460 + doe / 36524 - doe / 146096) / 365 in
  let doy := doe - (365 * yoe + yoe / 4 - yoe / 100) in
  let mp := (5 * doy + 2) / 153 in
  let d := doy - (153 * mp + 2) / 5 + 1 in
  let m := if mp <? 10 then mp + 3 else mp - 9 in
  ((if m <=? 2 then era * 400 + yoe + 1 else era * 400 + yoe), m, d).

Definition isLeapYear (y : Z) : bool :=
  ((y mod 4 =? 0) && negb (y mod 100 =? 0)) || (y mod 400 =? 0).

Definition daysInMonth (y m : Z) : Z :=
  if m =? 2 then (if isLeapYear y then 29 else 28)
  else if (m =? 4) || (m =? 6) || (m =? 9) || (m =? 11) then 30 else 31.

(** The dates the calendar has. *)
Definition validDate (y m d : Z) : Prop :=
  1 <= m <= 12 /\ 1 <= d <= daysInMonth y m.

Definition YearFromTime (t : Z) : Z := fst (fst (civil_from_days (Day t))).
(** Months are 0-based in the Date API. *)
Definition MonthFromTime (t : Z) : Z := snd (fst (civil_from_days (Day t))) - 1.
Definition DateFromTime (t : Z) : Z := snd (civil_from_days (Day t)).
(** 0 is Sunday; day 0 (1970-01-01) was a Thursday. *)
Definition WeekDay (t : Z) : Z := (Day t + 4) mod 7.

(** [MakeDay year month date]: [month] is 0-based and may lie outside 0..11,
  [date] may lie outside the month; both overflow into the neighbours. *)
Definition MakeDay (year month date : Z) : Z :=
  let ym := year + month / 12 in
  let mn := month mod 12 in
  days_from_civil ym (mn + 1) 1 + date - 1.

Definition MakeDate (day time : Z) : Z := day * msPerDay + time.

Section Zone.
(** Offset of local time from UTC, in milliseconds. *)
Variable tz : Z.

Definition LocalTime (t : Z) : Z := t + tz.
Definition UTC (t : Z) : Z := t - tz.

(** [new Date(s)] for a date-only string: midnight UTC of that day. *)
Definition parse (isoDay : Z) : Z := isoDay * msPerDay.

Definition getTime (t : Z) : Z := t.
Definition getFullYear (t : Z) : Z := YearFromTime (LocalTime t).
Definition getMonth (t : Z) : Z := MonthFromTime (LocalTime t).
Definition getDate (t : Z) : Z := DateFromTime (LocalTime t).
Definition getDay (t : Z) : Z := WeekDay (LocalTime t).

(** [d.setHours(0, 0, 0, 0)]. *)
Definition setHours0 (t : Z) : Z :=
  UTC (MakeDate (Day (LocalTime t)) 0).

Definition setDate (t date : Z) : Z :=
  let lt := LocalTime t in
  UTC (MakeDate (MakeDay (YearFromTime lt) (MonthFromTime lt) date)
                (TimeWithinDay lt)).

Definition setMonth (t month : Z) : Z :=
  let lt := LocalTime t in
  UTC (MakeDate (MakeDay (YearFromTime lt) month (DateFromTime lt))
                (TimeWithinDay lt)).

Definition setFullYear (t year : Z) : Z :=
  let lt := LocalTime t in
  UTC (MakeDate (MakeDay year (MonthFromTime lt) (DateFromTime lt))
                (TimeWithinDay lt)).

(** [new Date(year, month, 1)]: local midnight of that day. *)
Definition ofLocalYMD (year month date : Z) : Z :=
  UTC (MakeDate (MakeDay year month date) 0).
End Zone.

(** Decimal rendering, most significant digit first, [width] digits. *)
Definition digitChar (n : Z) : ascii := ascii_of_nat (48 + Z.to_nat n).

Fixpoint digits (width : nat) (n : Z) (acc : string) : string :=
  match width with
  | O => acc
  | S w => digits w (n / 10) (String (digitChar (n mod 10)) acc)
  end.

(** Years 0..9999 print with four digits, the others in the expanded form
  with a sign and six digits. *)
Definition yearString (y : Z) : string :=
  if (0 <=? y) && (y <=? 9999) then digits 4 y ""
  else String.append (if y <? 0 then "-" else "+") (digits 6 (Z.abs y) "").

(** The day number of [d.toISOString().split('T')[0]]: the UTC day. *)
Definition toISODay (t : Z) : Z := Day t.

(** The text "YYYY-MM-DD" of a day number. *)
Definition isoString (day : Z) : string :=
  let '(y, m, d) := civil_from_days day in
  (yearString y ++ "-" ++ digits 2 m "" ++ "-" ++ digits 2 d "")%string.

(** [d.toISOString().split('T')[0]] as text. *)
Definition toISODate (t : Z) : string := isoString (toISODay t).

End JSDate.

(** ** Data model (types.ts) *)

(** A number of the code. *)
Abbreviation num := float.

(** A date-only string, as the day number it denotes. *)
Definition isoDate : Type := Z.

Inductive TransactionType : Type := income | expense.

Record Transaction : Type := mkTransaction {
  id : string;
  description : string;
  amount : num;
  type : TransactionType;
  date : isoDate;
  category : string;
  notes : option string;
  currencyCode : string
}.

Module Rule.
(** [RecurringTransaction].  The frequency is kept as the string the
    [switch] inspects, so that the [default] branch is reachable. *)
Record RecurringTransaction : Type := mk {
  id : string;
  description : string;
  amount : num;
  type : TransactionType;
  category : string;
  frequency : string;
  startDate : isoDate;
  nextOccurrenceDate : isoDate;
  notes : option string;
  currencyCode : string
}.
End Rule.
Abbreviation RecurringTransaction := Rule.RecurringTransaction.

Module Bud.
Record Budget : Type := mk {
  category : string;
  amount : num
}.
End Bud.
Abbreviation Budget := Bud.Budget.

Module Cat.
Record CategoryBreakdown : Type := mk {
  category : string;
  amount : num
}.
End Cat.
Abbreviation CategoryBreakdown := Cat.CategoryBreakdown.

Record SummaryData : Type := mkSummaryData {
  totalIncome : num;
  totalExpense : num;
  netSavings : num;
  categoryBreakdown : list CategoryBreakdown
}.

(** [x < y], [x <= y] and [isNaN(x)]; a comparison with NaN is false. *)
Definition numLtb (x y : num) : bool := PrimFloat.ltb x y.
Definition numLeb (x y : num) : bool := PrimFloat.leb x y.
Definition numIsNaN (x : num) : bool := PrimFloat.is_nan x.

(** The numbers that count as false: the two zeros and NaN. *)
Definition numFalsy (x : num) : bool :=
  PrimFloat.eqb x 0 || PrimFloat.is_nan x.

(** A result of rounding that is not zero and has the sign [sx]: a finite
    number, or the infinity an overflow gives. *)
Definition keepsSign (sx : bool) (x : spec_float) : Prop :=
  (exists m e, x = S754_finite sx m e) \/ x = S754_infinity sx.

(** The numbers above 0: the positive finite ones and infinity. *)
Definition isPositive (n : num) : Prop := keepsSign false (Prim2SF n).

(** ** Recurrence materializer (App) *)

Section Materializer.
Variable tz : Z.

Definition addDays (d days : Z) : Z :=
  JSDate.setDate tz d (JSDate.getDate tz d + days).

Definition addMonths (d months : Z) : Z :=
  JSDate.setMonth tz d (JSDate.getMonth tz d + months).

Definition addYears (d years : Z) : Z :=
  JSDate.setFullYear tz d (JSDate.getFullYear tz d + years).

(** The [switch (rt.frequency)] of the loop body. *)
Definition nextDate (frequency : string) (cur : Z) : Z :=
  if String.eqb frequency "daily" then addDays cur 1
  else if String.eqb frequency "weekly" then addDays cur 7
  else if String.eqb frequency "monthly" then addMonths cur 1
  else if String.eqb frequency "yearly" then addYears cur 1
  else addDays cur 1.

Definition newTxId (rt : RecurringTransaction) (cur : Z) : string :=
  (Rule.id rt ++ "-" ++ JSDate.toISODate cur)%string.

Definition occurrenceTx (rt : RecurringTransaction) (cur : Z) : Transaction :=
  {| id := newTxId rt cur;
     description := Rule.description rt;
     amount := Rule.amount rt;
     type := Rule.type rt;
     date := JSDate.toISODay cur;
     category := Rule.category rt;
     notes := Rule.notes rt;
     currencyCode := Rule.currencyCode rt |}.

Definition hasId (txs : list Transaction) (i : string) : bool :=
  existsb (fun tx => String.eqb (id tx) i) txs.

(** The [while (currentNextOccurrence.getTime() <= today.getTime())] loop.
    [newTransactions] is the array shared by all rules; [None] stands for a
    loop that has not finished within [fuel] iterations. *)
Fixpoint whileDue (fuel : nat) (today : Z) (rt : RecurringTransaction)
         (currentTransactions : list Transaction)
         (cur : Z) (newTransactions : list Transaction)
  : option (Z * list Transaction) :=
  if cur <=? today then
    match fuel with
    | O => None
    | S fuel' =>
        let newTransactions' :=
          if hasId currentTransactions (newTxId rt cur) then newTransactions
          else newTransactions ++ [occurrenceTx rt cur] in
        whileDue fuel' today rt currentTransactions
                 (nextDate (Rule.frequency rt) cur) newTransactions'
    end
  else Some (cur, newTransactions).

Definition withNextOccurrence (rt : RecurringTransaction) (d : isoDate)
  : RecurringTransaction :=
  {| Rule.id := Rule.id rt;
     Rule.description := Rule.description rt;
     Rule.amount := Rule.amount rt;
     Rule.type := Rule.type rt;
     Rule.category := Rule.category rt;
     Rule.frequency := Rule.frequency rt;
     Rule.startDate := Rule.startDate rt;
     Rule.nextOccurrenceDate := d;
     Rule.notes := Rule.notes rt;
     Rule.currencyCode := Rule.currencyCode rt |}.

Record Materialized : Type := mkMaterialized {
  newTransactions : list Transaction;
  updatedRecurringTxs : list RecurringTransaction;
  anyRecurringNextOccurrenceChanged : bool
}.

(** Iterations granted to the loop of one rule: one per day from the
    occurrence date to today, and one to spare. *)
Definition loopFuel (today cur : Z) : nat :=
  S (Z.to_nat ((today - cur) / JSDate.msPerDay + 1)).

(** The callback of [currentRecurringTransactions.map], with the two
    variables it closes over threaded through. *)
Definition processRule (today : Z) (currentTransactions : list Transaction)
           (st : option Materialized) (rt : RecurringTransaction)
  : option Materialized :=
  match st with
  | None => None
  | Some acc =>
      let currentNextOccurrence :=
        JSDate.setHours0 tz (JSDate.parse (Rule.nextOccurrenceDate rt)) in
      match whileDue (loopFuel today currentNextOccurrence) today rt
                     currentTransactions currentNextOccurrence
                     (newTransactions acc) with
      | None => None
      | Some (final, txs) =>
          Some {| newTransactions := txs;
                  updatedRecurringTxs :=
                    updatedRecurringTxs acc
                      ++ [withNextOccurrence rt (JSDate.toISODay final)];
                  anyRecurringNextOccurrenceChanged :=
                    (currentNextOccurrence <=? today)
                    || anyRecurringNextOccurrenceChanged acc |}
      end
  end.

(** [now] is the value of [new Date()] at the call. *)
Definition processRecurringTransactions (now : Z)
           (currentRecurringTransactions : list RecurringTransaction)
           (currentTransactions : list Transaction) : option Materialized :=
  let today := JSDate.setHours0 tz now in
  fold_left (processRule today currentTransactions)
            currentRecurringTransactions
            (Some {| newTransactions := [];
                     updatedRecurringTxs := [];
                     anyRecurringNextOccurrenceChanged := false |}).
End Materializer.

(** The zone in which local time is UTC. *)
Definition utc : Z := 0.

(** *** The effect that merges the generated transactions (App) *)

Section Merge.
(** [String.prototype.localeCompare] of the host: negative, zero or
    positive. *)
Variable localeCompare : string -> string -> Z.

(** The comparator handed to [sort]. *)
Definition compareTransactions (a b : Transaction) : Z :=
  let dateComparison :=
    JSDate.getTime (JSDate.parse (date a))
    - JSDate.getTime (JSDate.parse (date b)) in
  if negb (dateComparison =? 0) then dateComparison
  else localeCompare (id a) (id b).

(** [Array.prototype.sort] with a comparator: a stable sort, written as the
    insertion sort that keeps equal elements in their order. *)
Fixpoint insertBy {A : Type} (cmp : A -> A -> Z) (x : A) (l : list A)
  : list A :=
  match l with
  | [] => [x]
  | y :: l' => if cmp x y <=? 0 then x :: y :: l' else y :: insertBy cmp x l'
  end.

Definition sortBy {A : Type} (cmp : A -> A -> Z) (l : list A) : list A :=
  fold_right (insertBy cmp) [] l.

(** The updater passed to [setTransactions]. *)
Definition mergeNewTransactions (newTransactions prevTxs : list Transaction)
  : list Transaction :=
  let uniqueNewTransactions :=
    filter (fun newTx =>
              negb (existsb (fun prevTx => String.eqb (id prevTx) (id newTx))
                            prevTxs))
           newTransactions in
  sortBy compareTransactions (prevTxs ++ uniqueNewTransactions).

Record AppState : Type := mkAppState {
  transactions : list Transaction;
  recurringTransactions : list RecurringTransaction
}.

(** One run of the effect on [recurringTransactions] and [transactions];
    [None] only if the materializer does not return. *)
Definition materializeEffect (tz now : Z) (st : AppState) : option AppState :=
  if (0 <? Z.of_nat (List.length (recurringTransactions st))) then
    match processRecurringTransactions tz now (recurringTransactions st)
                                       (transactions st) with
    | None => None
    | Some r =>
        Some {| transactions :=
                  if (0 <? Z.of_nat (List.length (newTransactions r)))
                  then mergeNewTransactions (newTransactions r)
                                            (transactions st)
                  else transactions st;
                recurringTransactions :=
                  if anyRecurringNextOccurrenceChanged r
                  then updatedRecurringTxs r
                  else recurringTransactions st |}
    end
  else Some st.
End Merge.

(** ** Summary and budget evaluator (SummaryDashboard) *)

(** A [Map<string, number>]: entries in insertion order, keys unique. *)
Definition JSMap : Type := list (string * num).

Fixpoint mapGet (m : JSMap) (k : string) : option num :=
  match m with
  | [] => None
  | (k', v) :: m' => if String.eqb k' k then Some v else mapGet m' k
  end.

Fixpoint mapSet (m : JSMap) (k : string) (v : num) : JSMap :=
  match m with
  | [] => [(k, v)]
  | (k', v') :: m' =>
      if String.eqb k' k then (k', v) :: m' else (k', v') :: mapSet m' k v
  end.

(** [x || 0] for [x : number | undefined]. *)
Definition orZero (x : option num) : num :=
  match x with
  | Some v => if numFalsy v then 0%float else v
  | None => 0%float
  end.

Record SummaryAcc : Type := mkSummaryAcc {
  accIncome : num;
  accExpense : num;
  categoryMap : JSMap
}.

(** The body of [relevantTxs.forEach]. *)
Definition summaryStep (acc : SummaryAcc) (tx : Transaction) : SummaryAcc :=
  let currentAmount := orZero (mapGet (categoryMap acc) (category tx)) in
  {| accIncome :=
       match type tx with
       | income => (accIncome acc + amount tx)%float
       | expense => accIncome acc
       end;
     accExpense :=
       match type tx with
       | income => accExpense acc
       | expense => (accExpense acc + amount tx)%float
       end;
     categoryMap :=
       mapSet (categoryMap acc) (category tx)
              (currentAmount + amount tx)%float |}.

Definition calculateSummary (txs : list Transaction) (code : string)
  : SummaryData :=
  let relevantTxs := filter (fun tx => String.eqb (currencyCode tx) code) txs in
  let acc := fold_left summaryStep relevantTxs
                       {| accIncome := 0%float; accExpense := 0%float;
                          categoryMap := [] |} in
  {| totalIncome := accIncome acc;
     totalExpense := accExpense acc;
     netSavings := (accIncome acc - accExpense acc)%float;
     categoryBreakdown :=
       map (fun '(c, a) => Cat.mk c a) (categoryMap acc) |}.

(** [now] is the value of [new Date()] at the call. *)
Definition getPeriodTransactions (tz now : Z) (txs : list Transaction)
           (period : string) : list Transaction :=
  let today := JSDate.toISODay now in
  let startOfWeek :=
    JSDate.setHours0 tz
      (JSDate.setDate tz now (JSDate.getDate tz now - JSDate.getDay tz now)) in
  let startOfMonth :=
    JSDate.setHours0 tz
      (JSDate.ofLocalYMD tz (JSDate.getFullYear tz now)
                         (JSDate.getMonth tz now) 1) in
  filter (fun tx =>
            let txDate := JSDate.setHours0 tz (JSDate.parse (date tx)) in
            if String.eqb period "daily" then date tx =? today
            else if String.eqb period "weekly" then startOfWeek <=? txDate
            else if String.eqb period "monthly" then startOfMonth <=? txDate
            else false)
         txs.

Record Alert : Type := mkAlert {
  alertCategory : string;
  spent : num;
  budget : num;
  percentage : num
}.

Definition spentOn (currentSummary : SummaryData) (c : string) : num :=
  fold_left (fun sum cb => (sum + Cat.amount cb)%float)
            (filter (fun cb => String.eqb (Cat.category cb) c)
                    (categoryBreakdown currentSummary))
            0%float.

(** [budgetAlertPercentage] is the component's prop the function closes
    over; [code] is the unused third argument. *)
Definition getBudgetAlerts (budgetAlertPercentage : num)
           (currentSummary : SummaryData) (currentBudgets : list Budget)
           (code : string) : list Alert :=
  fold_left
    (fun alerts b =>
       let spent := spentOn currentSummary (Bud.category b) in
       let percentage := (spent / Bud.amount b * 100)%float in
       if numLtb 0 (Bud.amount b) && numLeb budgetAlertPercentage percentage
       then alerts ++ [ {| alertCategory := Bud.category b; spent := spent;
                           budget := Bud.amount b;
                           percentage := percentage |} ]
       else alerts)
    currentBudgets [].

(** ** Currency converter (CurrencyConverter) *)

(** The [fromAmount] state: a number or the empty string. *)
Inductive AmountInput : Type :=
| Blank
| Entered (n : num).

Record Conversion : Type := mkConversion {
  error : option string;
  convertedAmount : option num
}.

(** [hardcodedExchangeRates] comes from the constants module; a lookup that
    finds no entry is [undefined].  The record returned is the state once the
    simulated delay has elapsed. *)
Definition handleConvert (hardcodedExchangeRates : string -> option num)
           (fromAmount : AmountInput) (fromCurrency toCurrency : string)
  : Conversion :=
  match fromAmount with
  | Blank =>
      {| error := Some "Please enter a positive amount to convert.";
         convertedAmount := None |}
  | Entered n =>
      if numIsNaN n || numLeb n 0 then
        {| error := Some "Please enter a positive amount to convert.";
           convertedAmount := None |}
      else if String.eqb fromCurrency toCurrency then
        {| error := None; convertedAmount := Some n |}
      else
        let amountValue := n in
        match hardcodedExchangeRates fromCurrency,
              hardcodedExchangeRates toCurrency with
        | Some fromRate, Some toRate =>
            {| error := None;
               convertedAmount :=
                 Some (amountValue / fromRate * toRate)%float |}
        | _, _ =>
            {| error :=
                 Some ("Conversion rate not available for " ++ fromCurrency
                       ++ " or " ++ toCurrency
                       ++ ". Using hardcoded rates.")%string;
               convertedAmount := None |}
        end
  end.

(** ** Model-service wrappers (geminiService) *)

(** Completion of a computation that may throw; for an [async] function the
    settled state of its promise. *)
Inductive Outcome (A : Type) : Type :=
| Returns (a : A)
| Throws (e : string).
Arguments Returns {A} a.
Arguments Throws {A} e.

Definition bind {A B : Type} (m : Outcome A) (k : A -> Outcome B)
  : Outcome B :=
  match m with
  | Returns a => k a
  | Throws e => Throws e
  end.

Notation "x <- m ;; k" := (bind m (fun x => k))
  (at level 61, m at next level, right associativity).

(** [try { body } catch (error) { handler }]. *)
Definition tryCatch {A : Type} (body : Outcome A) (handler : string -> Outcome A)
  : Outcome A :=
  match body with
  | Returns a => Returns a
  | Throws e => handler e
  end.

(** Values that [JSON.parse] produces, and [undefined]. *)
#[local] Set Warnings "-register-all".
Inductive JSValue : Type :=
| JUndefined
| JNull
| JBool (b : bool)
| JNumber (n : num)
| JString (s : string)
| JArray (items : list JSValue)
| JObject (fields : list (string * JSValue)).

Fixpoint lookupField (fields : list (string * JSValue)) (k : string)
  : JSValue :=
  match fields with
  | [] => JUndefined
  | (k', v) :: rest => if String.eqb k' k then v else lookupField rest k
  end.

(** [v.category]: a [TypeError] on [null] and [undefined], [undefined] where
    the value has no such property. *)
Definition getCategory (v : JSValue) : Outcome JSValue :=
  match v with
  | JUndefined | JNull =>
      Throws "TypeError: Cannot read properties of null"
  | JObject fields => Returns (lookupField fields "category")
  | _ => Returns JUndefined
  end.

Definition truthy (v : JSValue) : bool :=
  match v with
  | JUndefined | JNull => false
  | JBool b => b
  | JNumber n => negb (numFalsy n)
  | JString s => negb (String.eqb s "")
  | JArray _ | JObject _ => true
  end.

Record GenerateContentResponse : Type := mkResponse {
  text : option string
}.

(** What the module takes from its surroundings: the environment variable,
    the client library, the constants module and the built-ins that format
    and parse. *)
Record Host : Type := mkHost {
  API_KEY : option string;
  generateContent : string -> string -> Outcome GenerateContentResponse;
  JSON_parse : string -> Outcome JSValue;
  trim : string -> string;
  numberToString : num -> string;
  toFixed2 : num -> string;
  DEFAULT_CATEGORIES : list string;
  GEMINI_MODEL_TEXT : string
}.

Section Service.
Variable host : Host.

(** The client is the key it was built with. *)
Definition getGeminiClient : Outcome string :=
  match API_KEY host with
  | Some k =>
      if String.eqb k "" then
        Throws "API_KEY is not defined in environment variables."
      else Returns k
  | None => Throws "API_KEY is not defined in environment variables."
  end.

Definition join (sep : string) (l : list string) : string :=
  String.concat sep l.

(** The prompt of [categorizeTransaction]. *)
Definition categorizePrompt (description : string) : string :=
  ("Categorize the following transaction description into one of these categories: "
   ++ join ", " (DEFAULT_CATEGORIES host)
   ++ ". If none fit well, use 'Others'. Respond with only the category name. Description: "
   ++ String (ascii_of_nat 34) description
   ++ String (ascii_of_nat 34) "")%string.

Definition categorizeTransaction (description : string) : Outcome JSValue :=
  tryCatch
    (ai <- getGeminiClient ;;
     let prompt := categorizePrompt description in
     response <- generateContent host (GEMINI_MODEL_TEXT host) prompt ;;
     jsonStr <- match text response with
                | Some t => Returns (trim host t)
                | None => Throws "TypeError: Cannot read properties of undefined"
                end ;;
     result <- JSON_parse host jsonStr ;;
     c <- getCategory result ;;
     Returns (if truthy c then c else JString "Others"))
    (fun _ => Returns (JString "Others")).

Definition insightsFallback : string :=
  "Could not retrieve spending insights at this time. Please try again later.".

(** The prompt of [getSpendingInsights]. *)
Definition insightsPrompt (summary : SummaryData) (budgets : list Budget)
           (code : string) : string :=
  let budgetInfo :=
    let s := join ", "
               (map (fun b => (Bud.category b ++ ": " ++ code ++ " "
                               ++ numberToString host (Bud.amount b))%string)
                    budgets) in
    if String.eqb s "" then "No budgets set." else s in
  let categoryBreakdown :=
    join ", "
      (map (fun cb => (Cat.category cb ++ ": " ++ code ++ " "
                       ++ numberToString host (Cat.amount cb))%string)
           (categoryBreakdown summary)) in
  let nl := String (ascii_of_nat 10) "    " in
  let blank := String (ascii_of_nat 10) "" in
  ("You are Smart Expense, an intelligent personal finance assistant."
   ++ nl ++ "Analyze the following financial summary and provide helpful insights and suggestions to save money."
   ++ nl ++ "Respond in a friendly, helpful tone."
   ++ blank
   ++ nl ++ "Summary:"
   ++ nl ++ "Total Income: " ++ code ++ " "
   ++ toFixed2 host (totalIncome summary)
   ++ nl ++ "Total Expenses: " ++ code ++ " "
   ++ toFixed2 host (totalExpense summary)
   ++ nl ++ "Net Savings: " ++ code ++ " "
   ++ toFixed2 host (netSavings summary)
   ++ blank
   ++ nl ++ "Spending Breakdown by Category:"
   ++ nl ++ categoryBreakdown
   ++ blank
   ++ nl ++ "Budgets:"
   ++ nl ++ budgetInfo
   ++ blank
   ++ nl ++ "Based on this, what are the key spending patterns? Suggest actionable ways to save money, particularly highlighting areas where spending is high or near budget limits.")%string.

(** The promise resolves with [response.text], which may be [undefined]. *)
Definition getSpendingInsights (summary : SummaryData) (budgets : list Budget)
           (code : string) : Outcome (option string) :=
  tryCatch
    (ai <- getGeminiClient ;;
     let prompt := insightsPrompt summary budgets code in
     response <- generateContent host (GEMINI_MODEL_TEXT host) prompt ;;
     Returns (text response))
    (fun _ => Returns (Some insightsFallback)).
End Service.

(** ** The loop seen day by day

    What the materializer computes is stated on local day numbers: the
    instants the loop handles are local midnights. *)

(** The instant at which local day [L] begins. *)
Definition localMidnight (tz L : Z) : Z := L * JSDate.msPerDay - tz.

(** The local day an instant falls on. *)
Definition localDay (tz t : Z) : Z := JSDate.Day (JSDate.LocalTime tz t).

Definition monthStep (L : Z) : Z :=
  let '(y, m, d) := JSDate.civil_from_days L in JSDate.MakeDay y (m - 1 + 1) d.

Definition yearStep (L : Z) : Z :=
  let '(y, m, d) := JSDate.civil_from_days L in JSDate.MakeDay (y + 1) (m - 1) d.

(** One frequency step, on day numbers. *)
Definition stepDay (frequency : string) (L : Z) : Z :=
  if String.eqb frequency "daily" then L + 1
  else if String.eqb frequency "weekly" then L + 7
  else if String.eqb frequency "monthly" then monthStep L
  else if String.eqb frequency "yearly" then yearStep L
  else L + 1.

(** The days [L], [stepDay L], ... that are not after [T], at most [fuel] of
    them, and the first one after [T]. *)
Fixpoint dueDays (fuel : nat) (frequency : string) (T L : Z) : list Z :=
  if L <=? T then
    match fuel with
    | O => []
    | S n => L :: dueDays n frequency T (stepDay frequency L)
    end
  else [].

Fixpoint finalDay (fuel : nat) (frequency : string) (T L : Z) : Z :=
  if L <=? T then
    match fuel with
    | O => L
    | S n => finalDay n frequency T (stepDay frequency L)
    end
  else L.

Definition occurrenceDays (frequency : string) (T L : Z) : list Z :=
  dueDays (Z.to_nat (T - L + 1)) frequency T L.

Definition nextAfter (frequency : string) (T L : Z) : Z :=
  finalDay (Z.to_nat (T - L + 1)) frequency T L.

(** The transactions one rule contributes and the rule it becomes, when the
    local day is [T] in zone [tz]. *)
Definition ruleDay (tz : Z) (rt : RecurringTransaction) : Z :=
  localDay tz (JSDate.parse (Rule.nextOccurrenceDate rt)).

Definition emittedFor (tz T : Z) (currentTransactions : list Transaction)
           (rt : RecurringTransaction) : list Transaction :=
  map (fun L => occurrenceTx rt (localMidnight tz L))
      (filter (fun L => negb (hasId currentTransactions
                                    (newTxId rt (localMidnight tz L))))
              (occurrenceDays (Rule.frequency rt) T (ruleDay tz rt))).

Definition advanced (tz T : Z) (rt : RecurringTransaction)
  : RecurringTransaction :=
  withNextOccurrence rt
    (JSDate.toISODay
       (localMidnight tz (nextAfter (Rule.frequency rt) T (ruleDay tz rt)))).

Definition isDue (tz T : Z) (rt : RecurringTransaction) : bool :=
  ruleDay tz rt <=? T.

(** Day numbers of the years 0000 to 9999, whose ISO text has ten
    characters: 0000-01-01 is day -719528 and 9999-12-31 day 2932896. *)
Definition inFourDigitYears (z : Z) : Prop := -719528 <= z <= 2932896.

(** ** Inputs of the examples *)

(** The day number of a calendar date. *)
Definition isoDay (y m d : Z) : isoDate := JSDate.days_from_civil y m d.

(** The instant at which a clock of zone [tz] shows noon of a date. *)
Definition localNoon (tz y m d : Z) : Z :=
  isoDay y m d * JSDate.msPerDay + 43200000 - tz.

(** Fixed-offset zones: UTC+01:00 and UTC-07:00. *)
Definition utcPlus1 : Z := 3600000.
Definition utcMinus7 : Z := -25200000.

Definition gymRule (frequency : string) (next : isoDate)
  : RecurringTransaction :=
  {| Rule.id := "r1"; Rule.description := "Gym"; Rule.amount := 50%float;
     Rule.type := expense; Rule.category := "Health";
     Rule.frequency := frequency;
     Rule.startDate := isoDay 2024 1 1;
     Rule.nextOccurrenceDate := next;
     Rule.notes := None; Rule.currencyCode := "USD" |}.

Definition monthlyRule : RecurringTransaction :=
  gymRule "monthly" (isoDay 2024 1 1).

(** The transaction [gymRule] yields for a day. *)
Definition gymTx (i : string) (d : isoDate) : Transaction :=
  {| id := i; description := "Gym"; amount := 50%float; type := expense;
     date := d; category := "Health"; notes := None; currencyCode := "USD" |}.

Definition dailyRule : RecurringTransaction :=
  gymRule "daily" (isoDay 2024 1 1).

(** A transaction that already carries the id of the first occurrence of
    [dailyRule]. *)
Definition firstOccurrence : Transaction :=
  gymTx "r1-2024-01-01" (isoDay 2024 1 1).

Definition weeklyRule : RecurringTransaction :=
  gymRule "weekly" (isoDay 2024 1 2).

Definition dailyRuleJan2 : RecurringTransaction :=
  gymRule "daily" (isoDay 2024 1 2).

(** A host comparator for the examples: the order of the code units. *)
Definition codeUnitCompare (a b : string) : Z :=
  match String.compare a b with
  | Lt => -1
  | Eq => 0
  | Gt => 1
  end.

(** A host comparator that, as the collation of a locale does, puts the
    letters in alphabetical order whatever their case: "a" before "B",
    which the order of the code units puts the other way round. *)
Definition lowerAscii (c : ascii) : ascii :=
  let n := nat_of_ascii c in
  if (Nat.leb 65 n && Nat.leb n 90)%bool then ascii_of_nat (n + 32) else c.

Fixpoint lowerText (s : string) : string :=
  match s with
  | EmptyString => EmptyString
  | String c s' => String (lowerAscii c) (lowerText s')
  end.

Definition alphabeticCompare (a b : string) : Z :=
  codeUnitCompare (lowerText a) (lowerText b).

(** The order the merged list is claimed to be in: by date, and by the
    host's comparison of the ids where the dates are equal. *)
Definition dateThenId (localeCompare : string -> string -> Z)
           (a b : Transaction) : Prop :=
  date a < date b \/ (date a = date b /\ localeCompare (id a) (id b) <= 0).

(** ** The sums the specification names

    Written after the specification's words, to be compared with what
    [calculateSummary] accumulates in one pass.  A sum is taken in
    binary64, in the order of the list, from 0. *)

Definition sumAmounts (txs : list Transaction) : num :=
  fold_left (fun s tx => (s + amount tx)%float) txs 0%float.

(** The sum in which a running total that is 0 or NaN counts as 0 before
    the next amount is added: what [x || 0] makes of it. *)
Definition sumAmountsOrZero (txs : list Transaction) : num :=
  fold_left (fun s tx => ((if numFalsy s then 0 else s) + amount tx)%float)
            txs 0%float.

Definition matching (code : string) (txs : list Transaction)
  : list Transaction :=
  filter (fun tx => String.eqb (currencyCode tx) code) txs.

Definition isIncome (tx : Transaction) : bool :=
  match type tx with income => true | expense => false end.



(** Income and expense alike. *)
Definition categoryTotal (code : string) (txs : list Transaction)
           (c : string) : num :=
  sumAmountsOrZero (filter (fun tx => String.eqb (category tx) c)
                           (matching code txs)).

Definition hasCategory (code : string) (txs : list Transaction)
           (c : string) : bool :=
  existsb (fun tx => String.eqb (category tx) c) (matching code txs).

(** A summary in which the category "Food" totals [n]. *)
Definition foodSummary (n : num) : SummaryData :=
  {| totalIncome := 0%float; totalExpense := n;
     netSavings := (0 - n)%float;
     categoryBreakdown := [ Cat.mk "Food" n ] |}.

Definition foodBudget (n : num) : Budget := Bud.mk "Food" n.

(** The alert claimed for a budget, when one is raised. *)
Definition alertFor (currentSummary : SummaryData) (b : Budget) : Alert :=
  {| alertCategory := Bud.category b;
     spent := spentOn currentSummary (Bud.category b);
     budget := Bud.amount b;
     percentage :=
       (spentOn currentSummary (Bud.category b) / Bud.amount b
        * 100)%float |}.

(** The most recent Sunday, a day itself when it is one, and the first day
    of the month a day lies in. *)
Definition sundayOnOrBefore (L : Z) : Z := L - (L + 4) mod 7.

Definition firstOfMonth (L : Z) : Z :=
  let '(y, m, _) := JSDate.civil_from_days L in JSDate.days_from_civil y m 1.








(** A host whose model call always fails, and one whose model answers with
    an object that has no category. *)
Definition failingHost : Host :=
  {| API_KEY := Some "key";
     generateContent := fun _ _ => Throws "503 Service Unavailable";
     JSON_parse := fun _ => Throws "SyntaxError";
     trim := fun s => s;
     numberToString := fun _ => "0";
     toFixed2 := fun _ => "0.00";
     DEFAULT_CATEGORIES := ["Food"; "Others"];
     GEMINI_MODEL_TEXT := "model" |}.

Definition emptyAnswerHost : Host :=
  {| API_KEY := Some "key";
     generateContent := fun _ _ => Returns {| text := Some "{}" |};
     JSON_parse := fun _ => Returns (JObject []);
     trim := fun s => s;
     numberToString := fun _ => "0";
     toFixed2 := fun _ => "0.00";
     DEFAULT_CATEGORIES := ["Food"; "Others"];
     GEMINI_MODEL_TEXT := "model" |}.

(** * Further code of the application *)

(** ** Sets of ids

    A [Set<string>]: its elements in insertion order, each once. *)

Definition JSSet : Type := list string.

Definition setHas (s : JSSet) (x : string) : bool :=
  existsb (String.eqb x) s.

Definition setAdd (s : JSSet) (x : string) : JSSet :=
  if setHas s x then s else s ++ [x].

Definition setDelete (s : JSSet) (x : string) : JSSet :=
  filter (fun y => negb (String.eqb x y)) s.

(** [new Set(array)]. *)
Definition setOfList (l : list string) : JSSet := fold_left setAdd l [].

(** ** The handlers of App *)

Module Ovr.
Record CategoryOverride : Type := mk {
  description : string;
  category : string
}.
End Ovr.
Abbreviation CategoryOverride := Ovr.CategoryOverride.

(** The argument of [handleDeleteTransaction]: [string | string[]]. *)
Inductive IdOrIds : Type :=
| OneId (i : string)
| ManyIds (ids : list string).

(** The updater of [handleDeleteTransaction]. *)
Definition handleDeleteTransaction (idOrIds : IdOrIds)
           (prevTxs : list Transaction) : list Transaction :=
  let idsToDelete :=
    match idOrIds with
    | ManyIds ids => setOfList ids
    | OneId i => setOfList [i]
    end in
  filter (fun tx => negb (setHas idsToDelete (id tx))) prevTxs.

(** The updater of [handleSaveTransaction] on the transactions;
    [editingTransaction] is the state the callback closes over. *)
Definition saveTransactionList (editingTransaction : option Transaction)
           (transaction : Transaction) (prevTxs : list Transaction)
  : list Transaction :=
  match editingTransaction with
  | Some _ =>
      map (fun tx => if String.eqb (id tx) (id transaction) then transaction
                     else tx) prevTxs
  | None => prevTxs ++ [transaction]
  end.

(** [prevOverrides.findIndex(o => ...)]: the index, if any. *)
Fixpoint findIndex {A : Type} (p : A -> bool) (l : list A) : option nat :=
  match l with
  | [] => None
  | x :: l' => if p x then Some O else option_map S (findIndex p l')
  end.

(** [newOverrides[existingIndex] = v] on a copy, for an index in range. *)
Fixpoint setAt {A : Type} (l : list A) (n : nat) (v : A) : list A :=
  match l, n with
  | [], _ => []
  | _ :: l', O => v :: l'
  | x :: l', S n' => x :: setAt l' n' v
  end.

Section Overrides.
(** [String.prototype.toLowerCase] of the host. *)
Variable toLowerCase : string -> string.

(** The updater of [setUserCategoryOverrides] in the two save handlers. *)
Definition upsertOverride (d c : string)
           (prevOverrides : list CategoryOverride) : list CategoryOverride :=
  match findIndex (fun o => String.eqb (toLowerCase (Ovr.description o))
                                       (toLowerCase d))
                  prevOverrides with
  | Some existingIndex => setAt prevOverrides existingIndex (Ovr.mk d c)
  | None => prevOverrides ++ [Ovr.mk d c]
  end.

(** A string is truthy when it is not empty. *)
Definition nonEmpty (s : option string) : bool :=
  match s with
  | Some t => negb (String.eqb t "")
  | None => false
  end.

(** The condition under which the save handlers record an override:
    [overrideConfirmed && aiSuggestedCategory
     && category !== aiSuggestedCategory]. *)
Definition recordsOverride (c : string) (aiSuggestedCategory : option string)
           (overrideConfirmed : option bool) : bool :=
  match overrideConfirmed with
  | Some true =>
      nonEmpty aiSuggestedCategory
      && negb (match aiSuggestedCategory with
               | Some a => String.eqb c a
               | None => false
               end)
  | _ => false
  end.

Record Store : Type := mkStore {
  storedTransactions : list Transaction;
  storedOverrides : list CategoryOverride
}.

(** [handleSaveTransaction]: the two state updates. *)
Definition handleSaveTransaction (editingTransaction : option Transaction)
           (transaction : Transaction) (aiSuggestedCategory : option string)
           (overrideConfirmed : option bool) (st : Store) : Store :=
  {| storedTransactions :=
       saveTransactionList editingTransaction transaction
                           (storedTransactions st);
     storedOverrides :=
       if recordsOverride (category transaction) aiSuggestedCategory
                          overrideConfirmed
       then upsertOverride (description transaction) (category transaction)
                           (storedOverrides st)
       else storedOverrides st |}.

(** The lookup of the two forms:
    [userCategoryOverrides.find(o => o.description.toLowerCase()
                                     === newDescription.toLowerCase())]. *)
Definition findOverride (userCategoryOverrides : list CategoryOverride)
           (newDescription : string) : option CategoryOverride :=
  find (fun o => String.eqb (toLowerCase (Ovr.description o))
                            (toLowerCase newDescription))
       userCategoryOverrides.
End Overrides.

(** The updaters of [handleSaveBudget] and [handleDeleteBudget]. *)
Definition handleSaveBudget (b : Budget) (prevBudgets : list Budget)
  : list Budget :=
  match find (fun b' => String.eqb (Bud.category b') (Bud.category b))
             prevBudgets with
  | Some _ =>
      map (fun b' => if String.eqb (Bud.category b') (Bud.category b) then b
                     else b') prevBudgets
  | None => prevBudgets ++ [b]
  end.

Definition handleDeleteBudget (c : string) (prevBudgets : list Budget)
  : list Budget :=
  filter (fun b => negb (String.eqb (Bud.category b) c)) prevBudgets.

(** The budget of a category, as the handlers look it up. *)
Definition budgetOf (budgets : list Budget) (c : string) : option Budget :=
  find (fun b => String.eqb (Bud.category b) c) budgets.

(** ** The two forms (TransactionForm, RecurringTransactionForm) *)

(** The state of a form that [handleSubmit] reads.  [date] is the text of
    the date input: [None] for the empty string. *)
Module Form.
Record State : Type := mk {
  description : string;
  amount : AmountInput;
  type : TransactionType;
  date : option isoDate;
  category : string;
  notes : string;
  currencyCode : string;
  frequency : string;
  aiSuggestedCategory : option string;
  isCategoryOverrideConfirmed : bool
}.
End Form.

(** What [handleSubmit] does: it sets an error and returns, or it calls
    [onSave] with three arguments. *)
Inductive Submitted (A : Type) : Type :=
| Rejected (message : string)
| Saved (item : A) (aiSuggestedCategory : option string)
        (overrideConfirmed : option bool).
Arguments Rejected {A} message.
Arguments Saved {A} item aiSuggestedCategory overrideConfirmed.

(** What [handleDescriptionChange] does to the category and to the remembered
    suggestion. *)
Inductive CategoryUpdate : Type :=
| Untouched
| SetBoth (category aiSuggestedCategory : JSValue).

Section Forms.
Variable host : Host.
Variable toLowerCase : string -> string.
(** [Date.now().toString()] at the submission. *)
Variable nowString : string.
(** [String.prototype.length]: the number of UTF-16 code units of a
    text. *)
Variable codeUnits : string -> nat.

(** [s || d] on strings. *)
Definition orString (s d : string) : string :=
  if String.eqb s "" then d else s.

(** [aiSuggestedCategory && category !== aiSuggestedCategory
     ? isCategoryOverrideConfirmed : undefined]. *)
Definition shouldRecordOverride (f : Form.State) : option bool :=
  if nonEmpty (Form.aiSuggestedCategory f)
     && negb (match Form.aiSuggestedCategory f with
              | Some a => String.eqb (Form.category f) a
              | None => false
              end)
  then Some (Form.isCategoryOverrideConfirmed f)
  else None.

(** [notes.trim() === '' ? undefined : notes.trim()]. *)
Definition trimmedNotes (f : Form.State) : option string :=
  if String.eqb (trim host (Form.notes f)) "" then None
  else Some (trim host (Form.notes f)).

(** [handleSubmit] of the transaction form. *)
Definition handleSubmit (initialData : option Transaction) (f : Form.State)
  : Submitted Transaction :=
  if String.eqb (trim host (Form.description f)) "" then
    Rejected "Description is required."
  else
    match Form.amount f with
    | Blank => Rejected "Amount must be a positive number."
    | Entered n =>
        if numIsNaN n || numLeb n 0
        then Rejected "Amount must be a positive number."
        else
          match Form.date f with
          | None => Rejected "Date is required."
          | Some d =>
              Saved {| id := match initialData with
                             | Some t => orString (id t) nowString
                             | None => nowString
                             end;
                       description := trim host (Form.description f);
                       amount := n;
                       type := Form.type f;
                       date := d;
                       category := Form.category f;
                       notes := trimmedNotes f;
                       currencyCode := Form.currencyCode f |}
                    (Form.aiSuggestedCategory f)
                    (shouldRecordOverride f)
          end
    end.

(** [handleSubmit] of the recurring form; [Form.date] is its start date. *)
Definition handleSubmitRecurring (initialData : option RecurringTransaction)
           (f : Form.State) : Submitted RecurringTransaction :=
  if String.eqb (trim host (Form.description f)) "" then
    Rejected "Description is required."
  else
    match Form.amount f with
    | Blank => Rejected "Amount must be a positive number."
    | Entered n =>
        if numIsNaN n || numLeb n 0
        then Rejected "Amount must be a positive number."
        else
          match Form.date f with
          | None => Rejected "Start Date is required."
          | Some startDate =>
              Saved {| Rule.id := match initialData with
                                  | Some r => orString (Rule.id r) nowString
                                  | None => nowString
                                  end;
                       Rule.description := trim host (Form.description f);
                       Rule.amount := n;
                       Rule.type := Form.type f;
                       Rule.category := Form.category f;
                       Rule.frequency := Form.frequency f;
                       Rule.startDate := startDate;
                       Rule.nextOccurrenceDate :=
                         match initialData with
                         | Some r => Rule.nextOccurrenceDate r
                         | None => startDate
                         end;
                       Rule.notes := trimmedNotes f;
                       Rule.currencyCode := Form.currencyCode f |}
                    (Form.aiSuggestedCategory f)
                    (shouldRecordOverride f)
          end
    end.

(** [handleDescriptionChange]: the category and the suggestion it sets once
    the call to the model has settled.  [initialData] is what the form
    edits, if anything. *)
Definition handleDescriptionChange {A : Type} (initialData : option A)
           (userCategoryOverrides : list CategoryOverride)
           (newDescription : string) : Outcome CategoryUpdate :=
  match initialData with
  | Some _ => Returns Untouched
  | None =>
      if Nat.ltb 3 (codeUnits (trim host newDescription)) then
        match findOverride toLowerCase userCategoryOverrides newDescription
        with
        | Some override =>
            Returns (SetBoth (JString (Ovr.category override))
                             (JString (Ovr.category override)))
        | None =>
            tryCatch
              (aiCat <- categorizeTransaction host newDescription ;;
               Returns (SetBoth aiCat aiCat))
              (fun _ => Returns (SetBoth (JString "Others")
                                         (JString "Others")))
        end
      else Returns (SetBoth (JString "Others") JUndefined)
  end.
End Forms.

(** ** The budget form (BudgetManager) *)

Module BM.
Record FormState : Type := mk {
  selectedCategory : string;
  amount : AmountInput;
  editingBudget : option string;
  error : option string
}.
End BM.

Section BudgetManager.
(** [DEFAULT_CATEGORIES] of the constants module, a non-empty array. *)
Variable firstCategory : string.
Variable otherCategories : list string.

Definition defaultCategories : list string := firstCategory :: otherCategories.

(** [handleSave]: the form and, through [onSaveBudget], the budgets. *)
Definition handleSave (s : BM.FormState) (budgets : list Budget)
  : BM.FormState * list Budget :=
  match BM.amount s with
  | Blank =>
      ({| BM.selectedCategory := BM.selectedCategory s;
          BM.amount := BM.amount s;
          BM.editingBudget := BM.editingBudget s;
          BM.error := Some "Please enter a valid amount greater than zero." |},
       budgets)
  | Entered n =>
      if numLeb n 0 then
        ({| BM.selectedCategory := BM.selectedCategory s;
            BM.amount := BM.amount s;
            BM.editingBudget := BM.editingBudget s;
            BM.error :=
              Some "Please enter a valid amount greater than zero." |},
         budgets)
      else
        let newBudget := Bud.mk (BM.selectedCategory s) n in
        ({| BM.selectedCategory := firstCategory; BM.amount := Blank;
            BM.editingBudget := None; BM.error := None |},
         handleSaveBudget newBudget budgets)
  end.

(** The change handler of the amount input. *)
Definition enterAmount (a : AmountInput) (s : BM.FormState) : BM.FormState :=
  {| BM.selectedCategory := BM.selectedCategory s;
     BM.amount := a;
     BM.editingBudget := BM.editingBudget s;
     BM.error := None |}.

(** The options of the category select. *)
Definition availableCategories (s : BM.FormState) (budgets : list Budget)
  : list string :=
  filter (fun cat =>
            negb (existsb (fun b => String.eqb (Bud.category b) cat) budgets)
            || match BM.editingBudget s with
               | Some e => String.eqb cat e
               | None => false
               end)
         defaultCategories.
End BudgetManager.

(** ** The transaction list (TransactionList) *)

Definition typeEqb (a b : TransactionType) : bool :=
  match a, b with
  | income, income | expense, expense => true
  | _, _ => false
  end.

(** [MakeTime] and [d.setHours(h, m, s, ms)], after ECMA-262. *)
Definition MakeTime (h m s ms : Z) : Z :=
  h * 3600000 + m * 60000 + s * 1000 + ms.

Definition setHours (tz t h m s ms : Z) : Z :=
  JSDate.UTC tz (JSDate.MakeDate (JSDate.Day (JSDate.LocalTime tz t))
                                 (MakeTime h m s ms)).

Inductive SortOrder : Type := asc | desc.

Module TL.
(** The filter state; [filterType] is [None] for 'all', the two dates are
    [None] for the empty string. *)
Record Filters : Type := mk {
  filterType : option TransactionType;
  filterCurrency : string;
  startDate : option isoDate;
  endDate : option isoDate
}.
End TL.

Section TransactionList.
Variable tz : Z.
Variable localeCompare : string -> string -> Z.

(** The callback of [transactions.filter]. *)
Definition matchesFilters (f : TL.Filters) (t : Transaction) : bool :=
  let matchesType :=
    match TL.filterType f with
    | None => true
    | Some ty => typeEqb (type t) ty
    end in
  let matchesCurrency :=
    if String.eqb (TL.filterCurrency f) "ALL" then true
    else String.eqb (currencyCode t) (TL.filterCurrency f) in
  let transactionDate := JSDate.getTime (JSDate.parse (date t)) in
  let matchesDate := true in
  let matchesDate :=
    match TL.startDate f with
    | Some startDate =>
        let start := setHours tz (JSDate.parse startDate) 0 0 0 0 in
        if transactionDate <? start then false else matchesDate
    | None => matchesDate
    end in
  let matchesDate :=
    match TL.endDate f with
    | Some endDate =>
        let end_ := setHours tz (JSDate.parse endDate) 23 59 59 999 in
        if end_ <? transactionDate then false else matchesDate
    | None => matchesDate
    end in
  matchesType && matchesDate && matchesCurrency.

Definition filteredTransactions (f : TL.Filters) (txs : list Transaction)
  : list Transaction :=
  filter (matchesFilters f) txs.

(** The comparator of [sortedTransactions]. *)
Definition compareListed (sortOrder : SortOrder) (a b : Transaction) : Z :=
  let dateA := JSDate.getTime (JSDate.parse (date a)) in
  let dateB := JSDate.getTime (JSDate.parse (date b)) in
  if dateA =? dateB then localeCompare (id a) (id b)
  else match sortOrder with
       | asc => dateA - dateB
       | desc => dateB - dateA
       end.

Definition sortedTransactions (sortOrder : SortOrder)
           (filtered : list Transaction) : list Transaction :=
  sortBy (compareListed sortOrder) filtered.

(** The effect that drops the selected ids that are no longer listed. *)
Definition pruneSelection (sorted : list Transaction) (prev : JSSet) : JSSet :=
  setOfList
    (filter (fun i => existsb (fun t => String.eqb (id t) i) sorted) prev).

Definition handleSelectTransaction (i : string) (isChecked : bool)
           (prev : JSSet) : JSSet :=
  let newSet := setOfList prev in
  if isChecked then setAdd newSet i else setDelete newSet i.

Definition handleSelectAllTransactions (sorted : list Transaction)
           (isChecked : bool) : JSSet :=
  if isChecked then setOfList (map id sorted) else setOfList [].

Definition isAllSelected (sorted : list Transaction) (selected : JSSet)
  : bool :=
  Nat.ltb 0 (List.length sorted)
  && Nat.eqb (List.length selected) (List.length sorted).

Definition isIndeterminate (sorted : list Transaction) (selected : JSSet)
  : bool :=
  Nat.ltb 0 (List.length selected)
  && Nat.ltb (List.length selected) (List.length sorted).

(** [handleBulkDelete]: the argument of [onDelete], when it is called, and
    the selection afterwards.  [confirmed] is the answer to
    [window.confirm]. *)
Definition handleBulkDelete (confirmed : bool) (selected : JSSet)
  : option IdOrIds * JSSet :=
  if Nat.eqb (List.length selected) 0 then (None, selected)
  else if confirmed then (Some (ManyIds selected), setOfList [])
  else (None, selected).
End TransactionList.

(** *** The CSV export *)

Definition quoteChar : ascii := ascii_of_nat 34.

(** [replace] with the global pattern of one quote character and two quote
    characters as the replacement. *)
Fixpoint replaceQuotes (s : string) : string :=
  match s with
  | EmptyString => EmptyString
  | String c s' =>
      if Ascii.eqb c quoteChar
      then String quoteChar (String quoteChar (replaceQuotes s'))
      else String c (replaceQuotes s')
  end.

(** The template that wraps the escaped text in quotes. *)
Definition quoted (s : string) : string :=
  String quoteChar (replaceQuotes s ++ String quoteChar "")%string.

Definition typeName (t : TransactionType) : string :=
  match t with income => "income" | expense => "expense" end.

Definition csvHeaders : list string :=
  ["ID"; "Date"; "Description"; "Category"; "Type"; "Amount"; "Currency";
   "Notes"].

Section Csv.
Variable host : Host.

Definition csvRow (t : Transaction) : list string :=
  [ id t;
    JSDate.isoString (date t);
    quoted (description t);
    quoted (category t);
    typeName (type t);
    match type t with
    | expense => ("-" ++ toFixed2 host (amount t))%string
    | income => toFixed2 host (amount t)
    end;
    currencyCode t;
    quoted (match notes t with
            | Some n => n
            | None => ""
            end) ].

Definition newline : string := String (ascii_of_nat 10) "".

Definition csvContent (transactionsToExport : list Transaction) : string :=
  join newline
       (join "," csvHeaders
        :: map (fun row => join "," row) (map csvRow transactionsToExport)).

(** [exportToCsv]: the text of the file, or [None] when there is nothing to
    export and the function only alerts. *)
Definition exportToCsv (sorted : list Transaction) (selected : JSSet)
  : option string :=
  let transactionsToExport :=
    if Nat.ltb 0 (List.length selected)
    then filter (fun t => setHas selected (id t)) sorted
    else sorted in
  if Nat.eqb (List.length transactionsToExport) 0 then None
  else Some (csvContent transactionsToExport).
End Csv.

(** ** The expense chart (SummaryDashboard) *)

(** [transactionsForPeriod.filter(...).reduce((sum, tx) => sum + tx.amount, 0)]. *)
Definition totalSpentInCategory (transactionsForPeriod : list Transaction)
           (selectedCurrency c : string) : num :=
  fold_left (fun sum tx => (sum + amount tx)%float)
            (filter (fun tx =>
                       String.eqb (category tx) c
                       && typeEqb (type tx) expense
                       && String.eqb (currencyCode tx) selectedCurrency)
                    transactionsForPeriod)
            0%float.

Definition expensesBreakdown (summary : SummaryData)
           (transactionsForPeriod : list Transaction)
           (selectedCurrency : string) : list CategoryBreakdown :=
  filter (fun cb => numLtb 0 (Cat.amount cb))
    (map (fun cb =>
            Cat.mk (Cat.category cb)
                   (totalSpentInCategory transactionsForPeriod
                                         selectedCurrency (Cat.category cb)))
         (filter (fun cb =>
                    numLtb 0
                      (totalSpentInCategory transactionsForPeriod
                                            selectedCurrency
                                            (Cat.category cb)))
                 (categoryBreakdown summary))).

(** ** Currencies (App, CurrencyConverter) *)

Module Cur.
Record CurrencyOption : Type := mk {
  code : string;
  name : string;
  symbol : string
}.
End Cur.
Abbreviation CurrencyOption := Cur.CurrencyOption.

(** [s.includes(t)]. *)
Definition includes (s t : string) : bool :=
  match String.index 0 t s with
  | Some _ => true
  | None => false
  end.

Record CurrencyChoice : Type := mkCurrencyChoice {
  selectedCurrency : string;
  currencySearchTerm : string
}.

Section Currencies.
(** [CURRENCY_OPTIONS] and [DEFAULT_CURRENCY_CODE] of the constants module. *)
Variable CURRENCY_OPTIONS : list CurrencyOption.
Variable DEFAULT_CURRENCY_CODE : string.
Variable toLowerCase : string -> string.

Definition hasCode (options : list CurrencyOption) (c : string) : bool :=
  existsb (fun o => String.eqb (Cur.code o) c) options.

(** The currency with which the app starts: the stored one if it is an
    option, else the default. *)
Definition loadSelectedCurrency (storedCurrency : option string) : string :=
  match storedCurrency with
  | Some c =>
      if negb (String.eqb c "") && hasCode CURRENCY_OPTIONS c then c
      else DEFAULT_CURRENCY_CODE
  | None => DEFAULT_CURRENCY_CODE
  end.

Definition filteredCurrencyOptions (currencySearchTerm : string)
  : list CurrencyOption :=
  let lowerCaseSearchTerm := toLowerCase currencySearchTerm in
  if String.eqb lowerCaseSearchTerm "" then CURRENCY_OPTIONS
  else filter (fun currency =>
                 includes (toLowerCase (Cur.name currency))
                          lowerCaseSearchTerm
                 || includes (toLowerCase (Cur.code currency))
                             lowerCaseSearchTerm)
              CURRENCY_OPTIONS.

(** The effect on the selected currency and the search term. *)
Definition currencySearchEffect (s : CurrencyChoice) : CurrencyChoice :=
  let filtered := filteredCurrencyOptions (currencySearchTerm s) in
  if negb (String.eqb (currencySearchTerm s) "")
     && negb (String.eqb (selectedCurrency s) "")
     && negb (hasCode filtered (selectedCurrency s))
  then
    match filtered with
    | first :: _ =>
        {| selectedCurrency := Cur.code first;
           currencySearchTerm := currencySearchTerm s |}
    | [] =>
        {| selectedCurrency := DEFAULT_CURRENCY_CODE;
           currencySearchTerm := "" |}
    end
  else if String.eqb (currencySearchTerm s) ""
          && String.eqb (selectedCurrency s) ""
  then {| selectedCurrency := DEFAULT_CURRENCY_CODE;
          currencySearchTerm := currencySearchTerm s |}
  else s.

(** The effect of the converter on its two currencies. *)
Definition converterDefaults (selected toCurrency : string)
  : string * string :=
  (selected,
   if String.eqb toCurrency selected then
     match find (fun c => negb (String.eqb (Cur.code c) selected))
                CURRENCY_OPTIONS with
     | Some otherCurrency => Cur.code otherCurrency
     | None => DEFAULT_CURRENCY_CODE
     end
   else toCurrency).
End Currencies.

(** ** Auxiliary definitions of the further properties *)

(** The test of the two lookups of a remembered description. *)
Definition sameDescription (toLowerCase : string -> string) (d : string)
           (o : CategoryOverride) : bool :=
  String.eqb (toLowerCase (Ovr.description o)) (toLowerCase d).

(** The ids an argument of [handleDeleteTransaction] names. *)
Definition idsOf (x : IdOrIds) : list string :=
  match x with
  | OneId i => [i]
  | ManyIds ids => ids
  end.

(** A rule with another start date. *)
Definition withStartDate (s : isoDate) (rt : RecurringTransaction)
  : RecurringTransaction :=
  {| Rule.id := Rule.id rt;
     Rule.description := Rule.description rt;
     Rule.amount := Rule.amount rt;
     Rule.type := Rule.type rt;
     Rule.category := Rule.category rt;
     Rule.frequency := Rule.frequency rt;
     Rule.startDate := s;
     Rule.nextOccurrenceDate := Rule.nextOccurrenceDate rt;
     Rule.notes := Rule.notes rt;
     Rule.currencyCode := Rule.currencyCode rt |}.

(** What is valid for [handleSubmit]: a description that is not blank, a
    positive amount and a date. *)
Definition validForm (host : Host) (f : Form.State) : Prop :=
  trim host (Form.description f) <> ""
  /\ (exists n, Form.amount f = Entered n /\ numLtb 0 n = true)
  /\ Form.date f <> None.

(** A form as the user leaves it, for the examples: an edit of the gym
    transaction, the category changed from the suggestion and the change
    confirmed. *)
Definition gymForm : Form.State :=
  {| Form.description := "Gym";
     Form.amount := Entered (60%float);
     Form.type := expense;
     Form.date := Some (isoDay 2024 1 5);
     Form.category := "Health";
     Form.notes := "";
     Form.currencyCode := "USD";
     Form.frequency := "monthly";
     Form.aiSuggestedCategory := Some "Others";
     Form.isCategoryOverrideConfirmed := true |}.

(** The transaction [gymForm] saves when it edits a transaction of id [i]. *)
Definition gymFormTx (i : string) : Transaction :=
  {| id := i; description := "Gym"; amount := 60%float; type := expense;
     date := isoDay 2024 1 5; category := "Health"; notes := None;
     currencyCode := "USD" |}.

(** The order of the listed transactions: by date in the direction chosen,
    and by the host's comparison of the ids, ascending in both directions,
    where the dates are equal. *)
Definition listedOrder (localeCompare : string -> string -> Z)
           (sortOrder : SortOrder) (a b : Transaction) : Prop :=
  match sortOrder with
  | asc => date a < date b
  | desc => date b < date a
  end
  \/ (date a = date b /\ localeCompare (id a) (id b) <= 0).

(** What the filters of the list ask of a transaction, on day numbers. *)
Definition withinFilters (f : TL.Filters) (t : Transaction) : Prop :=
  (forall ty, TL.filterType f = Some ty -> type t = ty)
  /\ (TL.filterCurrency f <> "ALL" -> currencyCode t = TL.filterCurrency f)
  /\ (forall s, TL.startDate f = Some s -> s <= date t)
  /\ (forall e, TL.endDate f = Some e -> date t <= e).

(** *** Reading the export back

    A reader of one line of comma-separated values, after RFC 4180: a
    field that starts with a quote runs to the next quote that is not
    doubled, two quotes standing for one; any other field runs to the next
    comma.  It is the yardstick for what [exportToCsv] writes. *)

Definition commaChar : ascii := ","%char.

Fixpoint readQuotedBody (s : string) : option (string * string) :=
  match s with
  | EmptyString => None
  | String c s' =>
      if Ascii.eqb c quoteChar then
        match s' with
        | String c' s'' =>
            if Ascii.eqb c' quoteChar then
              match readQuotedBody s'' with
              | Some (field, rest) => Some (String quoteChar field, rest)
              | None => None
              end
            else Some (EmptyString, s')
        | EmptyString => Some (EmptyString, EmptyString)
        end
      else
        match readQuotedBody s' with
        | Some (field, rest) => Some (String c field, rest)
        | None => None
        end
  end.

Fixpoint readPlain (s : string) : string * string :=
  match s with
  | EmptyString => (EmptyString, EmptyString)
  | String c s' =>
      if Ascii.eqb c commaChar then (EmptyString, s)
      else let '(field, rest) := readPlain s' in (String c field, rest)
  end.

Definition readField (s : string) : option (string * string) :=
  match s with
  | String c s' =>
      if Ascii.eqb c quoteChar then readQuotedBody s' else Some (readPlain s)
  | EmptyString => Some (EmptyString, EmptyString)
  end.

(** A line of [n] fields. *)
Fixpoint readRecord (n : nat) (s : string) : option (list string) :=
  match n with
  | O => None
  | S n' =>
      match readField s with
      | Some (field, rest) =>
          match n', rest with
          | O, EmptyString => Some [field]
          | S _, String c rest' =>
              if Ascii.eqb c commaChar then
                match readRecord n' rest' with
                | Some fields => Some (field :: fields)
                | None => None
                end
              else None
          | _, _ => None
          end
      | None => None
      end
  end.

(** Text that can stand in a line without quotes: no comma in it and no
    quote at its start. *)
Fixpoint noComma (s : string) : bool :=
  match s with
  | EmptyString => true
  | String c s' => negb (Ascii.eqb c commaChar) && noComma s'
  end.

Definition plainField (s : string) : bool :=
  noComma s
  && match s with
     | String c _ => negb (Ascii.eqb c quoteChar)
     | EmptyString => true
     end.

(** The eight values of a transaction that a line of the export holds. *)
Definition csvValues (host : Host) (t : Transaction) : list string :=
  [ id t;
    JSDate.isoString (date t);
    description t;
    category t;
    typeName (type t);
    match type t with
    | expense => ("-" ++ toFixed2 host (amount t))%string
    | income => toFixed2 host (amount t)
    end;
    currencyCode t;
    match notes t with
    | Some n => n
    | None => ""
    end ].

(** Text without comma and without quote. *)
Fixpoint safeText (s : string) : bool :=
  match s with
  | EmptyString => true
  | String c s' =>
      negb (Ascii.eqb c commaChar) && negb (Ascii.eqb c quoteChar)
      && safeText s'
  end.

(** The expenses of a category in a currency, added up in binary64 in the
    order of the list. *)
Definition expenseTotal (code : string) (txs : list Transaction)
           (c : string) : num :=
  sumAmounts (filter (fun tx => String.eqb (category tx) c)
                     (filter (fun tx => negb (isIncome tx))
                             (matching code txs))).

(** The rule [gymForm] saves when the recurring form edits [monthlyRule]:
    the start date entered, the next occurrence of the rule edited. *)
Definition gymFormRule : RecurringTransaction :=
  {| Rule.id := "r1"; Rule.description := "Gym"; Rule.amount := 60%float;
     Rule.type := expense; Rule.category := "Health";
     Rule.frequency := "monthly";
     Rule.startDate := isoDay 2024 1 5;
     Rule.nextOccurrenceDate := isoDay 2024 1 1;
     Rule.notes := None; Rule.currencyCode := "USD" |}.

(** Two stored transactions and a store that holds them. *)
Definition decemberTx : Transaction := gymTx "t0" (isoDay 2023 12 1).
Definition januaryTx : Transaction := gymTx "t1" (isoDay 2024 1 1).

Definition gymStore : Store :=
  {| storedTransactions := [decemberTx; januaryTx]; storedOverrides := [] |}.

(** Filters for the expenses of January 2024. *)
Definition januaryExpenses : TL.Filters :=
  {| TL.filterType := Some expense; TL.filterCurrency := "ALL";
     TL.startDate := Some (isoDay 2024 1 1);
     TL.endDate := Some (isoDay 2024 1 31) |}.

(** A description with a quote and a comma in it. *)
Definition quotedGym : string := String quoteChar "Gym, monthly".

(** * Properties *)

(** ** The calendar *)

Module JSDateFacts.
Import JSDate.

Ltac zbool :=
  repeat match goal with
  | |- context [?a <=? ?b] => destruct (Z.leb_spec a b)
  | |- context [?a <? ?b] => destruct (Z.ltb_spec a b)
  end.

Ltac zdiv := Z.div_mod_to_equations; lia.

Lemma yoe_bounds doe :
  0 <= doe <= 146096 ->
  let yoe := (doe - doe / 1460 + doe / 36524 - doe / 146096) / 365 in
  0 <= yoe <= 399 /\ 0 <= doe - (365 * yoe + yoe / 4 - yoe / 100) <= 365.
Proof. intros H yoe. subst yoe. zdiv. Qed.

(** The month and the day of the month of a day number are in range. *)
Lemma civil_ranges z :
  let '(y, m, d) := civil_from_days z in 1 <= m <= 12 /\ 1 <= d <= 31.
Proof.
  unfold civil_from_days.
  set (z' := z + 719468). set (era := z' / 146097).
  set (doe := z' - era * 146097).
  assert (Hdoe : 0 <= doe <= 146096) by (subst doe era; zdiv).
  destruct (yoe_bounds doe Hdoe) as [Hy Hd].
  set (yoe := (doe - doe / 1460 + doe / 36524 - doe / 146096) / 365) in *.
  set (doy := doe - (365 * yoe + yoe / 4 - yoe / 100)) in *.
  set (mp := (5 * doy + 2) / 153).
  assert (Hmp : 0 <= mp <= 11) by (subst mp; zdiv).
  split.
  - destruct (Z.ltb_spec mp 10); lia.
  - subst mp. zdiv.
Qed.

(** [days_from_civil] undoes [civil_from_days], on every day number. *)
Lemma civil_roundtrip z :
  let '(y, m, d) := civil_from_days z in days_from_civil y m d = z.
Proof.
  unfold civil_from_days.
  set (z' := z + 719468). set (era := z' / 146097).
  set (doe := z' - era * 146097).
  assert (Hdoe : 0 <= doe <= 146096) by (subst doe era; zdiv).
  destruct (yoe_bounds doe Hdoe) as [Hy Hd].
  set (yoe := (doe - doe / 1460 + doe / 36524 - doe / 146096) / 365) in *.
  set (doy := doe - (365 * yoe + yoe / 4 - yoe / 100)) in *.
  set (mp := (5 * doy + 2) / 153).
  assert (Hmp : 0 <= mp <= 11) by (subst mp; zdiv).
  unfold days_from_civil.
  destruct (Z.ltb_spec mp 10) as [E | E].
  - replace (mp + 3 <=? 2) with false by (symmetry; apply Z.leb_gt; lia).
    replace (2 <? mp + 3) with true by (symmetry; apply Z.ltb_lt; lia).
    replace ((era * 400 + yoe) / 400) with era by zdiv.
    replace (mp + 3 - 3) with mp by lia.
    replace (era * 400 + yoe - era * 400) with yoe by lia.
    subst doy doe z'. lia.
  - replace (mp - 9 <=? 2) with true by (symmetry; apply Z.leb_le; lia).
    replace (2 <? mp - 9) with false by (symmetry; apply Z.ltb_ge; lia).
    replace ((era * 400 + yoe + 1 - 1) / 400) with era by zdiv.
    replace (mp - 9 + 9) with mp by lia.
    replace (era * 400 + yoe + 1 - 1 - era * 400) with yoe by lia.
    subst doy doe z'. lia.
Qed.

Lemma civil_from_days_inj a b :
  civil_from_days a = civil_from_days b -> a = b.
Proof.
  intros H. pose proof (civil_roundtrip a) as Ha.
  pose proof (civil_roundtrip b) as Hb. rewrite H in Ha.
  destruct (civil_from_days b) as [[y m] d]. congruence.
Qed.

Lemma month_start_lt y m :
  1 <= m <= 11 -> days_from_civil y m 1 < days_from_civil y (m + 1) 1.
Proof. intros H. unfold days_from_civil. zbool; try lia. all: zdiv. Qed.

Lemma year_end_lt y : days_from_civil y 12 1 < days_from_civil (y + 1) 1 1.
Proof.
  unfold days_from_civil. zbool; try lia.
  replace (y + 1 - 1) with y by lia. zdiv.
Qed.

Lemma next_year_lt y m :
  1 <= m <= 12 -> days_from_civil y m 1 < days_from_civil (y + 1) m 1.
Proof. intros H. unfold days_from_civil. zbool; try lia. all: zdiv. Qed.

Lemma days_from_civil_day y m d :
  days_from_civil y m d = days_from_civil y m 1 + d - 1.
Proof. unfold days_from_civil. lia. Qed.

(** [MakeDay] of the components of a day, with the day of the month
    shifted, is that day shifted. *)
Lemma MakeDay_civil z k :
  let '(y, m, d) := civil_from_days z in MakeDay y (m - 1) (d + k) = z + k.
Proof.
  pose proof (civil_roundtrip z) as R. pose proof (civil_ranges z) as B.
  destruct (civil_from_days z) as [[y m] d]. unfold MakeDay.
  replace ((m - 1) / 12) with 0 by zdiv.
  replace ((m - 1) mod 12 + 1) with m by zdiv.
  rewrite days_from_civil_day in R. replace (y + 0) with y by lia. lia.
Qed.

(** One month later is a later day. *)
Lemma MakeDay_next_month z :
  let '(y, m, d) := civil_from_days z in z < MakeDay y (m - 1 + 1) d.
Proof.
  pose proof (civil_roundtrip z) as R. pose proof (civil_ranges z) as B.
  destruct (civil_from_days z) as [[y m] d]. unfold MakeDay.
  rewrite days_from_civil_day in R.
  assert (m <= 11 \/ m = 12) as [Hm | Hm] by lia.
  - replace ((m - 1 + 1) / 12) with 0 by zdiv.
    replace ((m - 1 + 1) mod 12 + 1) with (m + 1) by zdiv.
    replace (y + 0) with y by lia.
    pose proof (month_start_lt y m). lia.
  - subst m. change ((12 - 1 + 1) / 12) with 1.
    change ((12 - 1 + 1) mod 12 + 1) with 1.
    pose proof (year_end_lt y). lia.
Qed.

(** One year later is a later day. *)
Lemma MakeDay_next_year z :
  let '(y, m, d) := civil_from_days z in z < MakeDay (y + 1) (m - 1) d.
Proof.
  pose proof (civil_roundtrip z) as R. pose proof (civil_ranges z) as B.
  destruct (civil_from_days z) as [[y m] d]. unfold MakeDay.
  rewrite days_from_civil_day in R.
  replace ((m - 1) / 12) with 0 by zdiv.
  replace ((m - 1) mod 12 + 1) with m by zdiv.
  replace (y + 1 + 0) with (y + 1) by lia.
  pose proof (next_year_lt y m). lia.
Qed.

(** The other direction: the day number of a date of the calendar has
    that date as its components. *)
Lemma yoe_inverse yoe doy :
  0 <= yoe <= 399 -> 0 <= doy ->
  (doy <= 364
   \/ doy = 365 /\ (yoe mod 4 = 3 /\ yoe mod 100 <> 99 \/ yoe = 399)) ->
  let doe := yoe * 365 + yoe / 4 - yoe / 100 + doy in
  0 <= doe <= 146096
  /\ (doe - doe / 1460 + doe / 36524 - doe / 146096) / 365 = yoe.
Proof. intros Hy Hd Hd2 doe. subst doe. split; zdiv. Qed.

Lemma isLeapYear_spec y :
  isLeapYear y = true <-> (y mod 4 = 0 /\ y mod 100 <> 0) \/ y mod 400 = 0.
Proof.
  unfold isLeapYear. rewrite orb_true_iff, andb_true_iff, negb_true_iff,
    !Z.eqb_eq, Z.eqb_neq. tauto.
Qed.

Lemma month_offset y m d :
  validDate y m d ->
  let mp := if 2 <? m then m - 3 else m + 9 in
  let doy := (153 * mp + 2) / 5 + d - 1 in
  0 <= mp <= 11 /\ 0 <= doy /\ (5 * doy + 2) / 153 = mp
  /\ (doy <= 364 \/ doy = 365 /\ m = 2 /\ isLeapYear y = true).
Proof.
  intros [Hm Hd]. unfold daysInMonth in Hd.
  assert (m = 1 \/ m = 2 \/ m = 3 \/ m = 4 \/ m = 5 \/ m = 6 \/ m = 7
          \/ m = 8 \/ m = 9 \/ m = 10 \/ m = 11 \/ m = 12) as C by lia.
  destruct (isLeapYear y);
  repeat (destruct C as [C | C]); subst m;
    cbn [Z.eqb Pos.eqb orb Z.ltb Z.compare Pos.compare Pos.compare_cont] in *;
    cbn zeta; (split; [lia |]); (split; [zdiv |]); (split; [zdiv |]);
    try (left; zdiv).
  assert (d = 29 \/ d <= 28) as [-> | ?] by lia;
    [right; repeat split; reflexivity | left; zdiv].
Qed.

Lemma civil_of_days_from_civil y m d :
  validDate y m d -> civil_from_days (days_from_civil y m d) = (y, m, d).
Proof.
  intros Hv. pose proof (month_offset y m d Hv) as Hoff. cbn zeta in Hoff.
  destruct Hv as [Hm Hd]. unfold days_from_civil.
  set (y' := if m <=? 2 then y - 1 else y).
  set (era := y' / 400). set (yoe := y' - era * 400).
  set (mp := if 2 <? m then m - 3 else m + 9) in *.
  set (doy := (153 * mp + 2) / 5 + d - 1) in *.
  destruct Hoff as [Hmp [Hdoy0 [Hmp' Hdoy]]].
  assert (Hyoe : 0 <= yoe <= 399) by (subst yoe era; zdiv).
  assert (Hm' : m = if mp <? 10 then mp + 3 else mp - 9)
    by (subst mp; destruct (Z.ltb_spec 2 m); zbool; lia).
  assert (Hy' : y = if m <=? 2 then era * 400 + yoe + 1 else era * 400 + yoe)
    by (subst yoe y'; destruct (Z.leb_spec m 2); lia).
  assert (Hleap : doy <= 364
                  \/ doy = 365 /\ (yoe mod 4 = 3 /\ yoe mod 100 <> 99
                                    \/ yoe = 399)).
  { destruct Hdoy as [H | [H1 [H2 H3]]]; [now left | right].
    split; [exact H1 |]. apply isLeapYear_spec in H3.
    subst m. cbn in Hy'. clearbody yoe era. zdiv. }
  destruct (yoe_inverse yoe doy Hyoe Hdoy0 Hleap) as [Hdoe Hinv].
  cbn zeta in *. set (doe := yoe * 365 + yoe / 4 - yoe / 100 + doy) in *.
  unfold civil_from_days.
  replace (era * 146097 + doe - 719468 + 719468) with (era * 146097 + doe)
    by lia.
  replace ((era * 146097 + doe) / 146097) with era by zdiv.
  replace (era * 146097 + doe - era * 146097) with doe by lia.
  rewrite Hinv.
  replace (doe - (365 * yoe + yoe / 4 - yoe / 100)) with doy
    by (subst doe; lia).
  rewrite Hmp'. rewrite <- Hm', <- Hy'.
  f_equal. subst doy. lia.
Qed.

Lemma daysInMonth_ge y m : 28 <= daysInMonth y m.
Proof.
  unfold daysInMonth.
  destruct (m =? 2); [destruct (isLeapYear y); lia |].
  destruct ((m =? 4) || (m =? 6) || (m =? 9) || (m =? 11)); lia.
Qed.

Lemma quarter_bound yoe : 0 <= yoe <= 399 -> 0 <= yoe / 4 - yoe / 100 <= 96.
Proof. intros. zdiv. Qed.

Lemma year_in_range z :
  inFourDigitYears z -> 0 <= fst (fst (civil_from_days z)) <= 9999.
Proof.
  unfold inFourDigitYears. intros H. unfold civil_from_days.
  set (z' := z + 719468). set (era := z' / 146097).
  set (doe := z' - era * 146097).
  assert (Hdoe : 0 <= doe <= 146096) by (subst doe era; zdiv).
  destruct (yoe_bounds doe Hdoe) as [Hy Hd].
  set (yoe := (doe - doe / 1460 + doe / 36524 - doe / 146096) / 365) in *.
  set (doy := doe - (365 * yoe + yoe / 4 - yoe / 100)) in *.
  set (mp := (5 * doy + 2) / 153).
  cbn [fst].
  assert (He : -1 <= era <= 24) by (subst era z'; zdiv).
  assert (Hz : z' = era * 146097 + doe) by (subst doe; lia).
  pose proof (quarter_bound yoe Hy) as Hq.
  assert (Hdoy : doe = 365 * yoe + (yoe / 4 - yoe / 100) + doy)
    by (subst doy; lia).
  assert (Hmp : 0 <= mp <= 11 /\ (mp < 10 -> doy <= 305)
                /\ (10 <= mp -> 306 <= doy)) by (subst mp; zdiv).
  assert (H399 : yoe = 399 -> yoe / 4 - yoe / 100 = 96)
    by (intros E; rewrite E; reflexivity).
  assert (Hz' : z' = z + 719468) by reflexivity.
  clearbody mp doy yoe doe era z'.
  destruct (Z.ltb_spec mp 10).
  - replace (mp + 3 <=? 2) with false by (symmetry; apply Z.leb_gt; lia).
    lia.
  - destruct (Z.leb_spec (mp - 9) 2); lia.
Qed.

(** *** The ISO text of a day *)

Lemma digitChar_inj a b :
  0 <= a < 10 -> 0 <= b < 10 -> digitChar a = digitChar b -> a = b.
Proof.
  intros Ha Hb E. unfold digitChar in E.
  apply (f_equal nat_of_ascii) in E.
  rewrite !nat_ascii_embedding in E by lia. lia.
Qed.

Lemma digits2_inj a b :
  0 <= a < 100 -> 0 <= b < 100 -> digits 2 a "" = digits 2 b "" -> a = b.
Proof.
  intros Ha Hb E. cbn [digits] in E. injection E as E1 E2.
  apply digitChar_inj in E1, E2; try (apply Z.mod_pos_bound; lia).
  zdiv.
Qed.

Lemma digits4_inj a b :
  0 <= a < 10000 -> 0 <= b < 10000 -> digits 4 a "" = digits 4 b "" -> a = b.
Proof.
  intros Ha Hb E. cbn [digits] in E. injection E as E1 E2 E3 E4.
  apply digitChar_inj in E1, E2, E3, E4; try (apply Z.mod_pos_bound; lia).
  zdiv.
Qed.

Lemma isoString_four z :
  inFourDigitYears z ->
  let '(y, m, d) := civil_from_days z in
  isoString z
  = (digits 4 y "" ++ "-" ++ digits 2 m "" ++ "-" ++ digits 2 d "")%string
    /\ 0 <= y < 10000 /\ 0 <= m < 100 /\ 0 <= d < 100.
Proof.
  intros H. unfold isoString.
  pose proof (civil_ranges z) as R.
  pose proof (year_in_range z H) as Y.
  destruct (civil_from_days z) as [[y m] d]. cbn [fst] in Y.
  unfold yearString.
  replace ((0 <=? y) && (y <=? 9999)) with true; [repeat split; lia |].
  symmetry. apply andb_true_iff. split; apply Z.leb_le; lia.
Qed.

Lemma isoString_length z :
  inFourDigitYears z -> String.length (isoString z) = 10%nat.
Proof.
  intros H. pose proof (isoString_four z H) as F.
  destruct (civil_from_days z) as [[y m] d]. destruct F as [-> _].
  reflexivity.
Qed.

(** Distinct days of the years 0000 to 9999 have distinct ISO texts. *)
Lemma isoString_inj a b :
  inFourDigitYears a -> inFourDigitYears b ->
  isoString a = isoString b -> a = b.
Proof.
  intros Ha Hb E.
  pose proof (isoString_four a Ha) as Fa. pose proof (isoString_four b Hb) as Fb.
  apply civil_from_days_inj.
  destruct (civil_from_days a) as [[y m] d].
  destruct (civil_from_days b) as [[y' m'] d'].
  destruct Fa as [Ea [? [? ?]]]. destruct Fb as [Eb [? [? ?]]].
  rewrite Ea, Eb in E. cbn [digits String.append] in E.
  injection E as E1 E2 E3 E4 E5 E6 E7 E8.
  assert (y = y') by (apply digits4_inj; cbn [digits]; congruence).
  assert (m = m') by (apply digits2_inj; cbn [digits]; congruence).
  assert (d = d') by (apply digits2_inj; cbn [digits]; congruence).
  congruence.
Qed.

Lemma string_length_append a b :
  String.length (a ++ b)%string = (String.length a + String.length b)%nat.
Proof. induction a as [| c a IH]; cbn; [reflexivity | now rewrite IH]. Qed.

Lemma append_inj_suffix s t :
  String.length s = String.length t ->
  forall a b, (a ++ s)%string = (b ++ t)%string -> a = b /\ s = t.
Proof.
  intros Hl. induction a as [| c a IH]; intros [| c' b] E; cbn in E.
  - auto.
  - apply (f_equal String.length) in E. cbn in E.
    rewrite string_length_append in E. lia.
  - apply (f_equal String.length) in E. cbn in E.
    rewrite string_length_append in E. lia.
  - injection E as -> E. destruct (IH _ E) as [-> ->]. auto.
Qed.

(** *** Anchors of the calendar *)

Example epoch_is_a_thursday :
  civil_from_days 0 = (1970, 1, 1) /\ WeekDay 0 = 4.
Proof. split; reflexivity. Qed.

Example leap_day_2024 :
  civil_from_days (days_from_civil 2024 2 29) = (2024, 2, 29)
  /\ isoString (days_from_civil 2024 2 29) = "2024-02-29"
  /\ days_from_civil 2024 3 1 = days_from_civil 2024 2 29 + 1.
Proof. repeat split; reflexivity. Qed.

Example march_10_2024_is_a_sunday :
  WeekDay (days_from_civil 2024 3 10 * msPerDay) = 0.
Proof. reflexivity. Qed.

Example expanded_years :
  isoString (days_from_civil (-1) 12 31) = "-000001-12-31"
  /\ isoString (days_from_civil 10000 1 1) = "+010000-01-01".
Proof. split; reflexivity. Qed.

(** A month added to the 31st of January 2024 overflows February. *)
Example month_overflow :
  civil_from_days (MakeDay 2024 (0 + 1) 31) = (2024, 3, 2).
Proof. reflexivity. Qed.

End JSDateFacts.

(** ** The materializer, day by day *)

Section LoopFacts.
Variable tz : Z.
Import JSDate.

Lemma msPerDay_pos : 0 < msPerDay.
Proof. reflexivity. Qed.

Lemma localDay_localMidnight L : localDay tz (localMidnight tz L) = L.
Proof.
  unfold localDay, localMidnight, LocalTime, Day.
  replace (L * msPerDay - tz + tz) with (L * msPerDay) by lia.
  apply Z.div_mul. discriminate.
Qed.

Lemma TimeWithinDay_localMidnight L :
  TimeWithinDay (LocalTime tz (localMidnight tz L)) = 0.
Proof.
  unfold localMidnight, LocalTime, TimeWithinDay.
  replace (L * msPerDay - tz + tz) with (L * msPerDay) by lia.
  apply Z.mod_mul. discriminate.
Qed.

Lemma setHours0_localMidnight t :
  setHours0 tz t = localMidnight tz (localDay tz t).
Proof. unfold setHours0, localMidnight, localDay, UTC, MakeDate. lia. Qed.

Lemma localMidnight_leb a b :
  (localMidnight tz a <=? localMidnight tz b) = (a <=? b).
Proof.
  unfold localMidnight. pose proof msPerDay_pos.
  destruct (Z.leb_spec a b); [apply Z.leb_le | apply Z.leb_gt]; nia.
Qed.

Lemma localMidnight_diff a b :
  (localMidnight tz a - localMidnight tz b) / msPerDay = a - b.
Proof.
  unfold localMidnight.
  replace (a * msPerDay - tz - (b * msPerDay - tz)) with ((a - b) * msPerDay)
    by lia.
  apply Z.div_mul. discriminate.
Qed.

Lemma addDays_localMidnight L k :
  addDays tz (localMidnight tz L) k = localMidnight tz (L + k).
Proof.
  unfold addDays, setDate, getDate, YearFromTime, MonthFromTime, DateFromTime.
  rewrite TimeWithinDay_localMidnight.
  fold (localDay tz (localMidnight tz L)). rewrite localDay_localMidnight.
  pose proof (JSDateFacts.MakeDay_civil L k) as M.
  destruct (civil_from_days L) as [[y m] d]. cbn [fst snd]. rewrite M.
  unfold UTC, MakeDate, localMidnight. lia.
Qed.

Lemma addMonths_localMidnight L :
  addMonths tz (localMidnight tz L) 1 = localMidnight tz (monthStep L).
Proof.
  unfold addMonths, setMonth, getMonth, YearFromTime, MonthFromTime,
    DateFromTime, monthStep.
  rewrite TimeWithinDay_localMidnight.
  fold (localDay tz (localMidnight tz L)). rewrite localDay_localMidnight.
  destruct (civil_from_days L) as [[y m] d]. cbn [fst snd].
  unfold UTC, MakeDate, localMidnight. lia.
Qed.

Lemma addYears_localMidnight L :
  addYears tz (localMidnight tz L) 1 = localMidnight tz (yearStep L).
Proof.
  unfold addYears, setFullYear, getFullYear, YearFromTime, MonthFromTime,
    DateFromTime, yearStep.
  rewrite TimeWithinDay_localMidnight.
  fold (localDay tz (localMidnight tz L)). rewrite localDay_localMidnight.
  destruct (civil_from_days L) as [[y m] d]. cbn [fst snd].
  unfold UTC, MakeDate, localMidnight. lia.
Qed.

(** The [switch] moves a local midnight to the local midnight one frequency
    step later. *)
Lemma nextDate_localMidnight f L :
  nextDate tz f (localMidnight tz L) = localMidnight tz (stepDay f L).
Proof.
  unfold nextDate, stepDay.
  repeat (destruct (String.eqb f _));
    auto using addDays_localMidnight, addMonths_localMidnight,
               addYears_localMidnight.
Qed.

Lemma stepDay_lt f L : L < stepDay f L.
Proof.
  unfold stepDay, monthStep, yearStep.
  pose proof (JSDateFacts.MakeDay_next_month L).
  pose proof (JSDateFacts.MakeDay_next_year L).
  destruct (civil_from_days L) as [[y m] d].
  repeat (destruct (String.eqb f _)); lia.
Qed.

(** With one iteration granted per day up to [T], the loop returns: it has
    visited the due days, emitted a transaction for those whose id is new,
    and stopped at the first day after [T]. *)
Lemma whileDue_run rt txs T :
  forall n L acc,
    T - L + 1 <= Z.of_nat n ->
    whileDue tz n (localMidnight tz T) rt txs (localMidnight tz L) acc
    = Some (localMidnight tz (finalDay n (Rule.frequency rt) T L),
            acc ++ map (fun d => occurrenceTx rt (localMidnight tz d))
                       (filter (fun d => negb (hasId txs
                                  (newTxId rt (localMidnight tz d))))
                               (dueDays n (Rule.frequency rt) T L))).
Proof.
  induction n as [| n IH]; intros L acc Hn.
  - cbn [whileDue dueDays finalDay]. rewrite localMidnight_leb.
    destruct (Z.leb_spec L T); [lia |]. cbn. now rewrite app_nil_r.
  - cbn [whileDue dueDays finalDay]. rewrite localMidnight_leb.
    destruct (Z.leb_spec L T).
    + rewrite nextDate_localMidnight.
      pose proof (stepDay_lt (Rule.frequency rt) L).
      rewrite IH by lia. cbn [filter].
      destruct (hasId txs (newTxId rt (localMidnight tz L))); cbn [negb map].
      * reflexivity.
      * now rewrite <- app_assoc.
    + cbn. now rewrite app_nil_r.
Qed.

(** More fuel than one iteration per day changes nothing. *)
Lemma dueDays_fuel_irrel f T :
  forall n m L,
    T - L + 1 <= Z.of_nat n -> T - L + 1 <= Z.of_nat m ->
    dueDays n f T L = dueDays m f T L /\ finalDay n f T L = finalDay m f T L.
Proof.
  induction n as [| n IH]; intros m L Hn Hm.
  - destruct m; cbn [dueDays finalDay]; destruct (Z.leb_spec L T); auto; lia.
  - destruct m as [| m]; cbn [dueDays finalDay];
      destruct (Z.leb_spec L T); auto; try lia.
    pose proof (stepDay_lt f L).
    destruct (IH m (stepDay f L)) as [E1 E2]; try lia.
    now rewrite E1, E2.
Qed.

Lemma dueDays_fuel f T n L :
  T - L + 1 <= Z.of_nat n ->
  dueDays n f T L = occurrenceDays f T L
  /\ finalDay n f T L = nextAfter f T L.
Proof.
  intros Hn. apply dueDays_fuel_irrel; lia.
Qed.
End LoopFacts.

(** ** What one call of the materializer returns *)

Section MaterializerFacts.
Variable tz : Z.

Lemma processRule_run T txs acc rt :
  processRule tz (localMidnight tz T) txs (Some acc) rt
  = Some {| newTransactions := newTransactions acc ++ emittedFor tz T txs rt;
            updatedRecurringTxs :=
              updatedRecurringTxs acc ++ [advanced tz T rt];
            anyRecurringNextOccurrenceChanged :=
              isDue tz T rt || anyRecurringNextOccurrenceChanged acc |}.
Proof.
  unfold processRule. rewrite setHours0_localMidnight.
  fold (ruleDay tz rt). set (L := ruleDay tz rt).
  unfold loopFuel. rewrite localMidnight_diff, whileDue_run by lia.
  destruct (dueDays_fuel (Rule.frequency rt) T
              (S (Z.to_nat (T - L + 1))) L) as [E1 E2]; [lia |].
  rewrite E1, E2, localMidnight_leb. reflexivity.
Qed.

Lemma processRules_run T txs rules :
  forall acc,
    fold_left (processRule tz (localMidnight tz T) txs) rules (Some acc)
    = Some {| newTransactions :=
                newTransactions acc ++ flat_map (emittedFor tz T txs) rules;
              updatedRecurringTxs :=
                updatedRecurringTxs acc ++ map (advanced tz T) rules;
              anyRecurringNextOccurrenceChanged :=
                existsb (isDue tz T) rules
                || anyRecurringNextOccurrenceChanged acc |}.
Proof.
  induction rules as [| rt rules IH]; intros acc.
  - cbn. rewrite !app_nil_r. now destruct acc.
  - cbn [fold_left]. rewrite processRule_run, IH.
    cbn [newTransactions updatedRecurringTxs anyRecurringNextOccurrenceChanged
         flat_map map existsb].
    rewrite <- !app_assoc. cbn [app].
    f_equal. f_equal.
    destruct (isDue tz T rt), (existsb (isDue tz T) rules),
      (anyRecurringNextOccurrenceChanged acc); reflexivity.
Qed.

(** The materializer always returns, in every zone: the transactions of
    the rules in their order, every rule with its date rewritten, and the
    flag that some rule was due. *)
Lemma processRecurringTransactions_run now rules txs :
  processRecurringTransactions tz now rules txs
  = Some {| newTransactions :=
              flat_map (emittedFor tz (localDay tz now) txs) rules;
            updatedRecurringTxs := map (advanced tz (localDay tz now)) rules;
            anyRecurringNextOccurrenceChanged :=
              existsb (isDue tz (localDay tz now)) rules |}.
Proof.
  unfold processRecurringTransactions.
  rewrite setHours0_localMidnight, processRules_run. cbn.
  now rewrite orb_false_r.
Qed.
End MaterializerFacts.

(** ** The occurrence days of a rule *)

Section OccurrenceFacts.
Variable f : string.
Variable T : Z.

Lemma occurrenceDays_due L :
  L <= T ->
  occurrenceDays f T L = L :: occurrenceDays f T (stepDay f L)
  /\ nextAfter f T L = nextAfter f T (stepDay f L).
Proof.
  intros H. pose proof (stepDay_lt f L) as Hs.
  unfold occurrenceDays at 1, nextAfter at 1.
  replace (Z.to_nat (T - L + 1)) with (S (Z.to_nat (T - L))) by lia.
  cbn [dueDays finalDay]. destruct (Z.leb_spec L T); [| lia].
  destruct (dueDays_fuel f T (Z.to_nat (T - L)) (stepDay f L)) as [E1 E2];
    [lia |].
  now rewrite E1, E2.
Qed.

Lemma occurrenceDays_not_due L :
  T < L -> occurrenceDays f T L = [] /\ nextAfter f T L = L.
Proof.
  intros H. unfold occurrenceDays, nextAfter.
  replace (Z.to_nat (T - L + 1)) with O by lia.
  cbn. destruct (Z.leb_spec L T); [lia | auto].
Qed.

(** Induction along the loop: from a day after [T], or from the next
    occurrence. *)
Lemma due_induction (P : Z -> Prop) :
  (forall L, T < L -> P L) ->
  (forall L, L <= T -> P (stepDay f L) -> P L) ->
  forall L, P L.
Proof.
  intros Hstop Hstep.
  assert (forall n L, T - L + 1 <= Z.of_nat n -> P L) as H.
  { induction n as [| n IH]; intros L Hn.
    - apply Hstop. lia.
    - destruct (Z.le_gt_cases L T) as [Hle | Hgt].
      + apply Hstep; [exact Hle |]. apply IH.
        pose proof (stepDay_lt f L). lia.
      + apply Hstop. lia. }
  intros L. apply (H (Z.to_nat (T - L + 1))). lia.
Qed.

Lemma occurrenceDays_bounds L d :
  In d (occurrenceDays f T L) -> L <= d <= T.
Proof.
  revert d. pattern L. apply due_induction; clear L.
  - intros L H d. destruct (occurrenceDays_not_due L H) as [-> _]. intros [].
  - intros L H IH d. destruct (occurrenceDays_due L H) as [-> _].
    pose proof (stepDay_lt f L).
    intros [<- | Hin]; [lia |]. apply IH in Hin. lia.
Qed.

Lemma occurrenceDays_NoDup L : NoDup (occurrenceDays f T L).
Proof.
  pattern L. apply due_induction; clear L.
  - intros L H. destruct (occurrenceDays_not_due L H) as [-> _]. constructor.
  - intros L H IH. destruct (occurrenceDays_due L H) as [-> _].
    constructor; [| exact IH].
    intros Hin. apply occurrenceDays_bounds in Hin.
    pose proof (stepDay_lt f L). lia.
Qed.

(** The loop leaves the rule on a day after [T], never before the day it
    started from. *)
Lemma nextAfter_gt L : T < nextAfter f T L.
Proof.
  pattern L. apply due_induction; clear L.
  - intros L H. destruct (occurrenceDays_not_due L H) as [_ ->]. exact H.
  - intros L H IH. destruct (occurrenceDays_due L H) as [_ ->]. exact IH.
Qed.

Lemma nextAfter_ge L : L <= nextAfter f T L.
Proof.
  pattern L. apply due_induction; clear L.
  - intros L H. destruct (occurrenceDays_not_due L H) as [_ ->]. lia.
  - intros L H IH. destruct (occurrenceDays_due L H) as [_ ->].
    pose proof (stepDay_lt f L). lia.
Qed.

(** The visited days are the iterates of the frequency step, and the day
    the rule is left on is the next iterate: one step per iteration. *)
Lemma occurrenceDays_iter L :
  occurrenceDays f T L
  = map (fun k => Nat.iter k (stepDay f) L)
        (seq 0 (List.length (occurrenceDays f T L)))
  /\ nextAfter f T L
     = Nat.iter (List.length (occurrenceDays f T L)) (stepDay f) L.
Proof.
  pattern L. apply due_induction; clear L.
  - intros L H. destruct (occurrenceDays_not_due L H) as [-> ->]. auto.
  - intros L H [IH1 IH2]. destruct (occurrenceDays_due L H) as [-> ->].
    cbn [List.length seq map Nat.iter]. split.
    + f_equal. rewrite <- seq_shift, map_map. rewrite IH1 at 1.
      apply map_ext. intros k. symmetry. apply Nat.iter_succ_r.
    + rewrite IH2. symmetry. apply Nat.iter_succ_r.
Qed.

(** Where the step is a fixed number of days, the number of visited days is
    the quotient the specification gives. *)
Lemma occurrenceDays_count p :
  0 < p -> (forall L, stepDay f L = L + p) ->
  forall L, L <= T ->
    Z.of_nat (List.length (occurrenceDays f T L)) = (T - L) / p + 1.
Proof.
  intros Hp Hstep L. pattern L. apply due_induction; clear L.
  - intros L H1 H2. lia.
  - intros L H IH _. destruct (occurrenceDays_due L H) as [-> _].
    cbn [List.length]. rewrite Hstep in *.
    destruct (Z.le_gt_cases (L + p) T) as [Hle | Hgt].
    + rewrite Nat2Z.inj_succ, IH by exact Hle.
      replace (T - L) with (T - (L + p) + 1 * p) by lia.
      rewrite Z.div_add by lia. lia.
    + destruct (occurrenceDays_not_due (L + p) Hgt) as [-> _].
      cbn [List.length]. rewrite Z.div_small by lia. reflexivity.
Qed.
End OccurrenceFacts.

Lemma stepDay_daily L : stepDay "daily" L = L + 1.
Proof. reflexivity. Qed.

Lemma stepDay_weekly L : stepDay "weekly" L = L + 7.
Proof. reflexivity. Qed.

Lemma stepDay_monthly L : stepDay "monthly" L = monthStep L.
Proof. reflexivity. Qed.

Lemma stepDay_yearly L : stepDay "yearly" L = yearStep L.
Proof. reflexivity. Qed.

(** A frequency that is none of the four steps like a daily one. *)
Lemma stepDay_unrecognized f L :
  f <> "daily" -> f <> "weekly" -> f <> "monthly" -> f <> "yearly" ->
  stepDay f L = L + 1.
Proof.
  intros H1 H2 H3 H4. unfold stepDay.
  apply String.eqb_neq in H1, H2, H3, H4. now rewrite H1, H2, H3, H4.
Qed.

(** The monthly step of a day that is not after the 28th is the same day
    of the next month; of a later day it is that many days after the first
    of the next month, which may overflow into the month after. *)
Lemma monthStep_same_day L :
  let '(y, m, d) := JSDate.civil_from_days L in
  d <= 28 ->
  JSDate.civil_from_days (monthStep L)
  = if m =? 12 then (y + 1, 1, d) else (y, m + 1, d).
Proof.
  unfold monthStep. pose proof (JSDateFacts.civil_ranges L) as R.
  destruct (JSDate.civil_from_days L) as [[y m] d]. intros Hd.
  unfold JSDate.MakeDay.
  pose proof (JSDateFacts.daysInMonth_ge) as Hge.
  destruct (Z.eqb_spec m 12) as [-> | Hm].
  - change ((12 - 1 + 1) / 12) with 1. change ((12 - 1 + 1) mod 12 + 1) with 1.
    rewrite <- JSDateFacts.days_from_civil_day.
    apply JSDateFacts.civil_of_days_from_civil.
    split; [lia |]. specialize (Hge (y + 1) 1). lia.
  - replace ((m - 1 + 1) / 12) with 0 by JSDateFacts.zdiv.
    replace ((m - 1 + 1) mod 12 + 1) with (m + 1) by JSDateFacts.zdiv.
    rewrite <- JSDateFacts.days_from_civil_day, Z.add_0_r.
    apply JSDateFacts.civil_of_days_from_civil.
    split; [lia |]. specialize (Hge y (m + 1)). lia.
Qed.

(** The yearly step of a day other than a 29th of February is the same day
    of the next year. *)
Lemma yearStep_same_day L :
  let '(y, m, d) := JSDate.civil_from_days L in
  d <= 28 -> JSDate.civil_from_days (yearStep L) = (y + 1, m, d).
Proof.
  unfold yearStep. pose proof (JSDateFacts.civil_ranges L) as R.
  destruct (JSDate.civil_from_days L) as [[y m] d]. intros Hd.
  unfold JSDate.MakeDay.
  replace ((m - 1) / 12) with 0 by JSDateFacts.zdiv.
  replace ((m - 1) mod 12 + 1) with m by JSDateFacts.zdiv.
  rewrite <- JSDateFacts.days_from_civil_day, Z.add_0_r.
  apply JSDateFacts.civil_of_days_from_civil.
  split; [lia |]. pose proof (JSDateFacts.daysInMonth_ge (y + 1) m). lia.
Qed.

(** ** The host whose local time is UTC *)

Lemma localDay_utc t : localDay utc t = JSDate.Day t.
Proof. unfold localDay, JSDate.LocalTime, utc. f_equal. lia. Qed.

Lemma ruleDay_utc rt : ruleDay utc rt = Rule.nextOccurrenceDate rt.
Proof.
  unfold ruleDay, localDay, JSDate.LocalTime, JSDate.parse, JSDate.Day, utc.
  rewrite Z.add_0_r. apply Z.div_mul. discriminate.
Qed.

Lemma toISODay_utc L : JSDate.toISODay (localMidnight utc L) = L.
Proof.
  unfold JSDate.toISODay, localMidnight, JSDate.Day, utc.
  rewrite Z.sub_0_r. apply Z.div_mul. discriminate.
Qed.

Lemma newTxId_utc rt L :
  newTxId rt (localMidnight utc L)
  = (Rule.id rt ++ "-" ++ JSDate.isoString L)%string.
Proof. unfold newTxId, JSDate.toISODate. now rewrite toISODay_utc. Qed.

(** ** Hosts off UTC *)

(** East of UTC a local midnight lies on the UTC day before: the date of
    an emitted transaction and the date stored on the rule are one day
    before the local day the loop is on. *)
Lemma toISODay_east tz L :
  0 < tz <= JSDate.msPerDay -> JSDate.toISODay (localMidnight tz L) = L - 1.
Proof.
  unfold JSDate.toISODay, localMidnight, JSDate.Day, JSDate.msPerDay.
  intros H. JSDateFacts.zdiv.
Qed.

Lemma ruleDay_east tz rt :
  0 <= tz < JSDate.msPerDay -> ruleDay tz rt = Rule.nextOccurrenceDate rt.
Proof.
  unfold ruleDay, localDay, JSDate.LocalTime, JSDate.parse, JSDate.Day,
    JSDate.msPerDay.
  intros H. JSDateFacts.zdiv.
Qed.

(** West of UTC the UTC midnight of a date lies on the local day before:
    the rule is read one day early. *)
Lemma ruleDay_west tz rt :
  - JSDate.msPerDay <= tz < 0 ->
  ruleDay tz rt = Rule.nextOccurrenceDate rt - 1.
Proof.
  unfold ruleDay, localDay, JSDate.LocalTime, JSDate.parse, JSDate.Day,
    JSDate.msPerDay.
  intros H. JSDateFacts.zdiv.
Qed.

Lemma toISODay_west tz L :
  - JSDate.msPerDay < tz <= 0 -> JSDate.toISODay (localMidnight tz L) = L.
Proof.
  unfold JSDate.toISODay, localMidnight, JSDate.Day, JSDate.msPerDay.
  intros H. JSDateFacts.zdiv.
Qed.

(** Off UTC, in either direction, a rule that is not due comes back from
    the materializer dated one day earlier than it went in. *)
Lemma not_due_rule_drifts tz T rt :
  (0 < tz < JSDate.msPerDay \/ - JSDate.msPerDay < tz < 0) ->
  T < ruleDay tz rt ->
  Rule.nextOccurrenceDate (advanced tz T rt) = Rule.nextOccurrenceDate rt - 1.
Proof.
  intros Htz Hdue. unfold advanced.
  cbn [withNextOccurrence Rule.nextOccurrenceDate].
  destruct (occurrenceDays_not_due (Rule.frequency rt) T _ Hdue) as [_ ->].
  destruct Htz as [Htz | Htz].
  - rewrite toISODay_east, ruleDay_east by lia. reflexivity.
  - rewrite toISODay_west, ruleDay_west by lia. reflexivity.
Qed.

(** ** The transactions a rule contributes *)

Lemma hasId_false txs i :
  hasId txs i = false <-> forall e, In e txs -> id e <> i.
Proof.
  unfold hasId. split.
  - intros H e He E.
    assert (existsb (fun tx => String.eqb (id tx) i) txs = true) as C
      by (apply existsb_exists; exists e; split; [exact He |];
          now apply String.eqb_eq).
    congruence.
  - intros H. destruct (existsb _ txs) eqn:E; [| reflexivity].
    apply existsb_exists in E as [e [He E]]. apply String.eqb_eq in E.
    now destruct (H e He).
Qed.

Lemma emittedFor_In tz T txs rt tx :
  In tx (emittedFor tz T txs rt) <->
  exists L, In L (occurrenceDays (Rule.frequency rt) T (ruleDay tz rt))
            /\ hasId txs (newTxId rt (localMidnight tz L)) = false
            /\ tx = occurrenceTx rt (localMidnight tz L).
Proof.
  unfold emittedFor. rewrite in_map_iff. split.
  - intros [L [E H]]. apply filter_In in H as [H1 H2].
    exists L. rewrite negb_true_iff in H2. auto.
  - intros [L [H1 [H2 E]]]. exists L. split; [auto |].
    apply filter_In. split; [exact H1 |]. now rewrite H2.
Qed.

(** In every zone the emitted transactions carry ids that no existing
    transaction has: the guard of the loop. *)
Lemma emittedFor_new tz T txs rt tx e :
  In tx (emittedFor tz T txs rt) -> In e txs -> id e <> id tx.
Proof.
  intros H He. apply emittedFor_In in H as [L [_ [H ->]]].
  cbn [occurrenceTx id]. exact (proj1 (hasId_false _ _) H e He).
Qed.

Section UtcIds.
Variable T : Z.
Hypothesis T_range : inFourDigitYears T.

Lemma visited_range rt d :
  inFourDigitYears (Rule.nextOccurrenceDate rt) ->
  In d (occurrenceDays (Rule.frequency rt) T (Rule.nextOccurrenceDate rt)) ->
  inFourDigitYears d.
Proof.
  intros HN H. apply occurrenceDays_bounds in H.
  unfold inFourDigitYears in *. lia.
Qed.

Lemma dated_id_inj r1 r2 a b :
  inFourDigitYears a -> inFourDigitYears b ->
  (r1 ++ "-" ++ JSDate.isoString a)%string
  = (r2 ++ "-" ++ JSDate.isoString b)%string ->
  r1 = r2 /\ a = b.
Proof.
  intros Ha Hb E.
  apply JSDateFacts.append_inj_suffix in E as [E1 E2].
  - split; [exact E1 |]. injection E2 as E2.
    now apply JSDateFacts.isoString_inj.
  - cbn [String.append String.length].
    now rewrite !JSDateFacts.isoString_length.
Qed.

(** Two transactions emitted in UTC with the same id come from rules with
    the same id and are the same occurrence. *)
Lemma emitted_same_id txs r1 r2 t1 t2 :
  inFourDigitYears (Rule.nextOccurrenceDate r1) ->
  inFourDigitYears (Rule.nextOccurrenceDate r2) ->
  In t1 (emittedFor utc T txs r1) -> In t2 (emittedFor utc T txs r2) ->
  id t1 = id t2 -> Rule.id r1 = Rule.id r2 /\ date t1 = date t2.
Proof.
  intros H1 H2 I1 I2 E.
  apply emittedFor_In in I1 as [a [Ia [_ ->]]].
  apply emittedFor_In in I2 as [b [Ib [_ ->]]].
  rewrite ruleDay_utc in Ia, Ib.
  cbn [occurrenceTx id date] in *. rewrite !newTxId_utc in E.
  rewrite !toISODay_utc.
  apply dated_id_inj in E; eauto using visited_range.
Qed.

Lemma emittedFor_NoDup txs rt :
  inFourDigitYears (Rule.nextOccurrenceDate rt) ->
  NoDup (map id (emittedFor utc T txs rt)).
Proof.
  intros HN. unfold emittedFor. rewrite map_map. cbn [occurrenceTx id].
  apply NoDup_map_NoDup_ForallPairs.
  - intros a b Ha Hb E. apply filter_In in Ha as [Ha _].
    apply filter_In in Hb as [Hb _]. rewrite ruleDay_utc in Ha, Hb.
    rewrite !newTxId_utc in E.
    apply dated_id_inj in E as [_ E]; eauto using visited_range.
  - apply NoDup_filter, occurrenceDays_NoDup.
Qed.

(** With distinct rule ids, all ids emitted by one call are distinct. *)
Lemma emitted_all_NoDup txs rules :
  NoDup (map Rule.id rules) ->
  (forall r, In r rules -> inFourDigitYears (Rule.nextOccurrenceDate r)) ->
  NoDup (map id (flat_map (emittedFor utc T txs) rules)).
Proof.
  induction rules as [| rt rules IH]; intros Hids Hr; [constructor |].
  cbn [flat_map map]. rewrite map_app. cbn [map] in Hids.
  apply NoDup_cons_iff in Hids as [Hrt Hids].
  apply NoDup_app.
  - apply emittedFor_NoDup, Hr. now left.
  - apply IH; [exact Hids |]. intros r H. apply Hr. now right.
  - intros i Hi Hi'.
    apply in_map_iff in Hi as [t1 [<- I1]].
    apply in_map_iff in Hi' as [t2 [E I2]].
    apply in_flat_map in I2 as [r2 [Hr2 I2]].
    destruct (emitted_same_id txs rt r2 t1 t2) as [Eid _];
      auto using in_eq, in_cons.
    apply Hrt. rewrite Eid. now apply in_map.
Qed.
End UtcIds.

(** Off UTC the dates are shifted.  East of UTC the loop visits the days
    the rule names but dates each transaction the day before the one it
    visits; west of UTC it visits, and dates, one frequency step after
    another from the day before the one the rule names. *)
Lemma emitted_dates_east tz T txs rt tx :
  0 < tz < JSDate.msPerDay ->
  In tx (emittedFor tz T txs rt) ->
  exists L,
    In L (occurrenceDays (Rule.frequency rt) T (Rule.nextOccurrenceDate rt))
    /\ date tx = L - 1.
Proof.
  intros Htz Hin. apply emittedFor_In in Hin as [L [HL [_ ->]]].
  rewrite ruleDay_east in HL by lia. exists L. split; [exact HL |].
  cbn [occurrenceTx date]. apply toISODay_east. lia.
Qed.

Lemma emitted_dates_west tz T txs rt tx :
  - JSDate.msPerDay < tz < 0 ->
  In tx (emittedFor tz T txs rt) ->
  In (date tx)
     (occurrenceDays (Rule.frequency rt) T (Rule.nextOccurrenceDate rt - 1)).
Proof.
  intros Htz Hin. apply emittedFor_In in Hin as [L [HL [_ ->]]].
  rewrite ruleDay_west in HL by lia.
  cbn [occurrenceTx date]. rewrite toISODay_west by lia. exact HL.
Qed.

(** ** Claims on the materializer *)

(** In UTC a rule is left on the day [nextAfter] gives. *)
Lemma advanced_utc T rt :
  advanced utc T rt
  = withNextOccurrence rt
      (nextAfter (Rule.frequency rt) T (Rule.nextOccurrenceDate rt)).
Proof. unfold advanced. now rewrite toISODay_utc, ruleDay_utc. Qed.

Lemma emittedFor_utc T txs rt :
  emittedFor utc T txs rt
  = map (fun d =>
           {| id := (Rule.id rt ++ "-" ++ JSDate.isoString d)%string;
              description := Rule.description rt;
              amount := Rule.amount rt;
              type := Rule.type rt;
              date := d;
              category := Rule.category rt;
              notes := Rule.notes rt;
              currencyCode := Rule.currencyCode rt |})
        (filter (fun d => negb (hasId txs
                   (Rule.id rt ++ "-" ++ JSDate.isoString d)%string))
                (occurrenceDays (Rule.frequency rt) T
                                (Rule.nextOccurrenceDate rt))).
Proof.
  unfold emittedFor. rewrite ruleDay_utc.
  erewrite filter_ext by (intros d; rewrite newTxId_utc; reflexivity).
  apply map_ext. intros d. unfold occurrenceTx.
  now rewrite newTxId_utc, toISODay_utc.
Qed.

(** C1, as amended.  On a host whose local time is UTC, for a rule whose
    next-occurrence date [N] is not after today [T], one call visits the
    dates [N], step [N], step (step [N]), ... that are not after [T]:
    [(T - N) / 1 + 1] of them for a daily (or unrecognized) frequency and
    [(T - N) / 7 + 1] for a weekly one.  It emits one transaction, with
    the id ruleId-dateISO and the rule's fields, for exactly those visited
    dates whose id no existing transaction carries, so as many as visited
    dates when no such id exists yet.  All ids emitted by the call are pairwise distinct
    (rule ids being distinct and dates within the years 0000 to 9999) and
    differ from every existing id, and the rule is returned with a
    next-occurrence date after today. *)
Theorem materialize_due_rule now rules txs rt :
  let T := JSDate.Day now in
  let N := Rule.nextOccurrenceDate rt in
  let visited := occurrenceDays (Rule.frequency rt) T N in
  let newId := fun d => (Rule.id rt ++ "-" ++ JSDate.isoString d)%string in
  In rt rules -> N <= T ->
  NoDup (map Rule.id rules) ->
  inFourDigitYears T ->
  (forall r, In r rules -> inFourDigitYears (Rule.nextOccurrenceDate r)) ->
  exists res,
    processRecurringTransactions utc now rules txs = Some res
    /\ newTransactions res = flat_map (emittedFor utc T txs) rules
    /\ visited = map (fun k => Nat.iter k (stepDay (Rule.frequency rt)) N)
                     (seq 0 (List.length visited))
    /\ (forall d, In d visited -> N <= d <= T)
    /\ nextAfter (Rule.frequency rt) T N
       = Nat.iter (List.length visited) (stepDay (Rule.frequency rt)) N
    /\ (Rule.frequency rt <> "weekly" -> Rule.frequency rt <> "monthly" ->
        Rule.frequency rt <> "yearly" ->
        Z.of_nat (List.length visited) = (T - N) / 1 + 1)
    /\ (Rule.frequency rt = "weekly" ->
        Z.of_nat (List.length visited) = (T - N) / 7 + 1)
    /\ emittedFor utc T txs rt
       = map (fun d =>
                {| id := newId d;
                   description := Rule.description rt;
                   amount := Rule.amount rt;
                   type := Rule.type rt;
                   date := d;
                   category := Rule.category rt;
                   notes := Rule.notes rt;
                   currencyCode := Rule.currencyCode rt |})
             (filter (fun d => negb (hasId txs (newId d))) visited)
    /\ ((forall d, In d visited -> hasId txs (newId d) = false) ->
        List.length (emittedFor utc T txs rt) = List.length visited)
    /\ NoDup (map id (newTransactions res))
    /\ (forall tx e, In tx (newTransactions res) -> In e txs -> id e <> id tx)
    /\ In (withNextOccurrence rt (nextAfter (Rule.frequency rt) T N))
          (updatedRecurringTxs res)
    /\ T < nextAfter (Rule.frequency rt) T N.
Proof.
  intros T N visited newId Hin Hdue Hids HT Hr.
  eexists. split; [apply processRecurringTransactions_run |].
  rewrite localDay_utc. fold T.
  cbn [newTransactions updatedRecurringTxs].
  split; [reflexivity |].
  split; [apply occurrenceDays_iter |].
  split; [intros d; apply occurrenceDays_bounds |].
  split; [apply occurrenceDays_iter |].
  split; [| split; [| split; [| split]]].
  - intros H1 H2 H3. apply occurrenceDays_count; [lia | | exact Hdue].
    intros L. destruct (String.eqb_spec (Rule.frequency rt) "daily") as [E |].
    + rewrite E. reflexivity.
    + now apply stepDay_unrecognized.
  - intros Hw. subst visited. rewrite Hw.
    apply occurrenceDays_count; [lia | | exact Hdue].
    intros L. reflexivity.
  - apply emittedFor_utc.
  - intros Hnew. rewrite emittedFor_utc, length_map. fold N visited.
    f_equal. apply forallb_filter_id. apply forallb_forall.
    intros d Hd. unfold newId in Hnew. now rewrite Hnew.
  - split; [now apply emitted_all_NoDup |]. split; [| split].
    + intros tx e Htx He. apply in_flat_map in Htx as [r [_ Htx]].
      eapply emittedFor_new; eauto.
    + rewrite <- advanced_utc. now apply in_map.
    + apply nextAfter_gt.
Qed.

Lemma materialize_due_rule_witness :
  In dailyRule [dailyRule]
  /\ Rule.nextOccurrenceDate dailyRule <= JSDate.Day (localNoon utc 2024 1 3)
  /\ exists res,
       processRecurringTransactions utc (localNoon utc 2024 1 3)
                                    [dailyRule] [firstOccurrence] = Some res
       /\ NoDup (map id (newTransactions res))
       /\ JSDate.Day (localNoon utc 2024 1 3)
          < nextAfter "daily" (JSDate.Day (localNoon utc 2024 1 3))
                      (Rule.nextOccurrenceDate dailyRule).
Proof.
  split; [now left |]. split; [vm_compute; discriminate |].
  destruct (materialize_due_rule (localNoon utc 2024 1 3) [dailyRule]
              [firstOccurrence] dailyRule)
    as [res [H1 [_ [_ [_ [_ [_ [_ [_ [_ [H2 [_ [_ H3]]]]]]]]]]]]].
  - now left.
  - vm_compute. discriminate.
  - repeat constructor. intros [].
  - unfold inFourDigitYears. vm_compute. split; discriminate.
  - intros r [<- | []]. unfold inFourDigitYears. vm_compute.
    split; discriminate.
  - exists res. auto.
Defined.

(** C1, as stated, fails: a daily rule due since two days, one of whose
    ids an existing transaction carries, yields one transaction where the
    quotient gives two. *)
Lemma existing_id_is_not_emitted_again :
  Rule.nextOccurrenceDate dailyRule <= JSDate.Day (localNoon utc 2024 1 2)
  /\ (JSDate.Day (localNoon utc 2024 1 2)
      - Rule.nextOccurrenceDate dailyRule) / 1 + 1 = 2
  /\ option_map (fun res => List.length (newTransactions res))
       (processRecurringTransactions utc (localNoon utc 2024 1 2)
                                     [dailyRule] [firstOccurrence])
     = Some 1%nat.
Proof.
  split; [vm_compute; discriminate |]. split; vm_compute; reflexivity.
Qed.

(** The monthly example on a host whose local time is UTC: three
    transactions, dated on the first of January, February and March, and
    the rule left on the first of April. *)
Lemma monthly_scenario_utc :
  processRecurringTransactions utc (localNoon utc 2024 3 15) [monthlyRule] []
  = Some {| newTransactions :=
              [ gymTx "r1-2024-01-01" (isoDay 2024 1 1);
                gymTx "r1-2024-02-01" (isoDay 2024 2 1);
                gymTx "r1-2024-03-01" (isoDay 2024 3 1) ];
            updatedRecurringTxs := [ gymRule "monthly" (isoDay 2024 4 1) ];
            anyRecurringNextOccurrenceChanged := true |}.
Proof. vm_compute. reflexivity. Qed.

(** C3 on a host at UTC+01:00, the clock showing noon of 2024-03-15: the
    three transactions are dated on the last day of the month before, and
    the rule is left on 2024-03-31. *)
Theorem monthly_scenario_east_of_utc :
  processRecurringTransactions utcPlus1 (localNoon utcPlus1 2024 3 15)
                               [monthlyRule] []
  = Some {| newTransactions :=
              [ gymTx "r1-2023-12-31" (isoDay 2023 12 31);
                gymTx "r1-2024-01-31" (isoDay 2024 1 31);
                gymTx "r1-2024-02-29" (isoDay 2024 2 29) ];
            updatedRecurringTxs := [ gymRule "monthly" (isoDay 2024 3 31) ];
            anyRecurringNextOccurrenceChanged := true |}.
Proof. vm_compute. reflexivity. Qed.

(** West of UTC the same scenario drifts further: at UTC-07:00 the rule
    is read as the 31st and the month step overflows February. *)
Lemma monthly_scenario_west_of_utc :
  processRecurringTransactions utcMinus7 (localNoon utcMinus7 2024 3 15)
                               [monthlyRule] []
  = Some {| newTransactions :=
              [ gymTx "r1-2023-12-31" (isoDay 2023 12 31);
                gymTx "r1-2024-01-31" (isoDay 2024 1 31);
                gymTx "r1-2024-03-02" (isoDay 2024 3 2) ];
            updatedRecurringTxs := [ gymRule "monthly" (isoDay 2024 4 2) ];
            anyRecurringNextOccurrenceChanged := true |}.
Proof. vm_compute. reflexivity. Qed.

(** *** A second run with the clock unchanged *)

Lemma withNextOccurrence_same rt :
  withNextOccurrence rt (Rule.nextOccurrenceDate rt) = rt.
Proof. now destruct rt. Qed.

Lemma not_due_untouched T txs rt :
  T < Rule.nextOccurrenceDate rt ->
  emittedFor utc T txs rt = [] /\ advanced utc T rt = rt
  /\ isDue utc T rt = false.
Proof.
  intros H. rewrite advanced_utc. unfold emittedFor, isDue.
  rewrite ruleDay_utc.
  destruct (occurrenceDays_not_due (Rule.frequency rt) T _ H) as [-> ->].
  repeat split; [apply withNextOccurrence_same | now apply Z.leb_gt].
Qed.

Lemma not_due_rules_untouched T txs rules :
  (forall rt, In rt rules -> T < Rule.nextOccurrenceDate rt) ->
  flat_map (emittedFor utc T txs) rules = []
  /\ map (advanced utc T) rules = rules
  /\ existsb (isDue utc T) rules = false.
Proof.
  induction rules as [| rt rules IH]; intros H; [auto |].
  destruct (not_due_untouched T txs rt) as [E1 [E2 E3]];
    [apply H; now left |].
  destruct IH as [I1 [I2 I3]]; [intros r Hr; apply H; now right |].
  cbn [flat_map map existsb]. now rewrite E1, E2, E3, I1, I2, I3.
Qed.

(** On a host whose local time is UTC the materializer is idempotent: run
    again at the same instant on the rules it returned, against any
    transaction list, it emits nothing and returns the rules as they
    are. *)
Lemma materialize_idempotent_utc now rules txs txs' res :
  processRecurringTransactions utc now rules txs = Some res ->
  processRecurringTransactions utc now (updatedRecurringTxs res) txs'
  = Some {| newTransactions := [];
            updatedRecurringTxs := updatedRecurringTxs res;
            anyRecurringNextOccurrenceChanged := false |}.
Proof.
  rewrite !processRecurringTransactions_run. intros [= <-].
  cbn [updatedRecurringTxs].
  destruct (not_due_rules_untouched (localDay utc now) txs'
              (map (advanced utc (localDay utc now)) rules)) as [E1 [E2 E3]].
  - intros rt Hrt. apply in_map_iff in Hrt as [r [<- _]].
    rewrite advanced_utc. cbn [withNextOccurrence Rule.nextOccurrenceDate].
    apply nextAfter_gt.
  - now rewrite E1, E2, E3.
Qed.

(** The same at the level of the effect: on a host whose local time is
    UTC, the state one run of the effect produces is left as it is by the
    next run at the same instant. *)
Lemma materializeEffect_settles_utc localeCompare now st st1 :
  materializeEffect localeCompare utc now st = Some st1 ->
  materializeEffect localeCompare utc now st1 = Some st1.
Proof.
  unfold materializeEffect.
  destruct (0 <? Z.of_nat (List.length (recurringTransactions st))) eqn:E;
    [| intros [= <-]; now rewrite E].
  rewrite processRecurringTransactions_run.
  cbn [newTransactions updatedRecurringTxs anyRecurringNextOccurrenceChanged].
  set (T := localDay utc now). intros [= <-].
  cbn [transactions recurringTransactions].
  set (rules1 := if existsb (isDue utc T) (recurringTransactions st)
                 then map (advanced utc T) (recurringTransactions st)
                 else recurringTransactions st).
  set (txs1 := if 0 <? Z.of_nat (List.length _) then _ else transactions st).
  assert (forall rt, In rt rules1 -> T < Rule.nextOccurrenceDate rt) as Hnd.
  { subst rules1. intros rt Hrt.
    destruct (existsb (isDue utc T) (recurringTransactions st)) eqn:Ea.
    - apply in_map_iff in Hrt as [r [<- _]]. rewrite advanced_utc.
      cbn [withNextOccurrence Rule.nextOccurrenceDate]. apply nextAfter_gt.
    - destruct (Z.le_gt_cases (Rule.nextOccurrenceDate rt) T) as [Hle | Hgt];
        [| lia].
      assert (existsb (isDue utc T) (recurringTransactions st) = true) as C.
      { apply existsb_exists. exists rt. split; [exact Hrt |].
        unfold isDue. rewrite ruleDay_utc. now apply Z.leb_le. }
      congruence. }
  destruct (0 <? Z.of_nat (List.length rules1)); [| reflexivity].
  rewrite processRecurringTransactions_run. fold T.
  destruct (not_due_rules_untouched T txs1 rules1 Hnd) as [E1 [E2 E3]].
  rewrite E1, E2, E3. reflexivity.
Qed.

(** C2 on a host at UTC+01:00: a weekly rule due since 2024-01-02, the
    clock at noon of 2024-01-08 for both runs.  The first run emits the
    occurrence under the date 2024-01-01 and leaves the rule on
    2024-01-08; the second run, on the returned rule and the merged
    transactions, emits a further transaction and moves the rule again. *)
Theorem second_run_east_of_utc (localeCompare : string -> string -> Z) :
  processRecurringTransactions utcPlus1 (localNoon utcPlus1 2024 1 8)
                               [weeklyRule] []
  = Some {| newTransactions := [ gymTx "r1-2024-01-01" (isoDay 2024 1 1) ];
            updatedRecurringTxs := [ gymRule "weekly" (isoDay 2024 1 8) ];
            anyRecurringNextOccurrenceChanged := true |}
  /\ mergeNewTransactions localeCompare
       [ gymTx "r1-2024-01-01" (isoDay 2024 1 1) ] []
     = [ gymTx "r1-2024-01-01" (isoDay 2024 1 1) ]
  /\ processRecurringTransactions utcPlus1 (localNoon utcPlus1 2024 1 8)
       [ gymRule "weekly" (isoDay 2024 1 8) ]
       [ gymTx "r1-2024-01-01" (isoDay 2024 1 1) ]
     = Some {| newTransactions := [ gymTx "r1-2024-01-07" (isoDay 2024 1 7) ];
               updatedRecurringTxs := [ gymRule "weekly" (isoDay 2024 1 14) ];
               anyRecurringNextOccurrenceChanged := true |}.
Proof. repeat split; vm_compute; reflexivity. Qed.

(** *** The next-occurrence date over the cycles *)

(** On a host whose local time is UTC: a call moves the date of a rule by
    one frequency step for each date it visits (at least one when the rule
    is due, none otherwise), never backwards, and past the dates of the
    transactions it emits for the rule; so dates that were before the
    next-occurrence date stay before it. *)
Lemma next_occurrence_invariant_utc now rules txs rt history :
  let T := JSDate.Day now in
  let N := Rule.nextOccurrenceDate rt in
  let k := List.length (occurrenceDays (Rule.frequency rt) T N) in
  let N' := nextAfter (Rule.frequency rt) T N in
  In rt rules ->
  (forall d, In d history -> d < N) ->
  exists res,
    processRecurringTransactions utc now rules txs = Some res
    /\ In (withNextOccurrence rt N') (updatedRecurringTxs res)
    /\ N' = Nat.iter k (stepDay (Rule.frequency rt)) N
    /\ (N <= T -> (1 <= k)%nat) /\ (T < N -> k = 0%nat)
    /\ N <= N'
    /\ (forall tx, In tx (emittedFor utc T txs rt) -> date tx < N')
    /\ (forall d, In d history -> d < N').
Proof.
  intros T N k N' Hin Hhist.
  eexists. split; [apply processRecurringTransactions_run |].
  rewrite localDay_utc. fold T. cbn [updatedRecurringTxs].
  pose proof (nextAfter_ge (Rule.frequency rt) T N) as Hge. fold N' in Hge.
  split; [| split; [| split; [| split; [| split; [| split]]]]].
  - unfold N', N. rewrite <- advanced_utc. now apply in_map.
  - apply occurrenceDays_iter.
  - intros H. subst k.
    destruct (occurrenceDays_due (Rule.frequency rt) T N H) as [-> _].
    cbn. lia.
  - intros H. subst k.
    now destruct (occurrenceDays_not_due (Rule.frequency rt) T N H) as [-> _].
  - exact Hge.
  - intros tx Htx. apply emittedFor_In in Htx as [d [Hd [_ ->]]].
    cbn [occurrenceTx date]. rewrite toISODay_utc. rewrite ruleDay_utc in Hd.
    apply occurrenceDays_bounds in Hd.
    pose proof (nextAfter_gt (Rule.frequency rt) T N). fold N' in H. lia.
  - intros d Hd. apply Hhist in Hd. lia.
Qed.

(** C8 on a host at UTC+01:00: a daily rule due on 2024-01-02, the clock
    at noon of that day.  One iteration runs, the transaction is dated
    2024-01-01, and the rule comes back with the date it had: no step
    forward. *)
Theorem daily_rule_does_not_advance_east_of_utc :
  processRecurringTransactions utcPlus1 (localNoon utcPlus1 2024 1 2)
                               [dailyRuleJan2] []
  = Some {| newTransactions := [ gymTx "r1-2024-01-01" (isoDay 2024 1 1) ];
            updatedRecurringTxs := [ dailyRuleJan2 ];
            anyRecurringNextOccurrenceChanged := true |}.
Proof. vm_compute. reflexivity. Qed.

(** ** The merge of the generated transactions *)

Section SortFacts.
Context {A : Type}.
Variable cmp : A -> A -> Z.

Lemma insertBy_perm x l : Permutation (insertBy cmp x l) (x :: l).
Proof.
  induction l as [| y l IH]; cbn [insertBy]; [reflexivity |].
  destruct (cmp x y <=? 0); [reflexivity |].
  rewrite IH. apply perm_swap.
Qed.

Lemma sortBy_perm l : Permutation (sortBy cmp l) l.
Proof.
  induction l as [| x l IH]; cbn; [constructor |].
  fold (sortBy cmp l). rewrite insertBy_perm. now constructor.
Qed.

(** The comparator never puts two elements each strictly after the
    other. *)
Hypothesis cmp_total : forall a b, 0 < cmp a b -> cmp b a <= 0.

Lemma insertBy_HdRel x y l :
  cmp y x <= 0 -> HdRel (fun a b => cmp a b <= 0) y l ->
  HdRel (fun a b => cmp a b <= 0) y (insertBy cmp x l).
Proof.
  intros Hyx H. destruct l as [| z l]; cbn [insertBy].
  - now constructor.
  - destruct (cmp x z <=? 0); constructor; [exact Hyx |].
    now inversion H.
Qed.

Lemma insertBy_sorted x l :
  Sorted (fun a b => cmp a b <= 0) l ->
  Sorted (fun a b => cmp a b <= 0) (insertBy cmp x l).
Proof.
  induction 1 as [| y l Hs IH Hd]; cbn [insertBy].
  - repeat constructor.
  - destruct (Z.leb_spec (cmp x y) 0) as [Hle | Hgt].
    + constructor; [now constructor | now constructor].
    + constructor; [exact IH |].
      apply insertBy_HdRel; [now apply cmp_total | exact Hd].
Qed.

Lemma sortBy_sorted l : Sorted (fun a b => cmp a b <= 0) (sortBy cmp l).
Proof.
  induction l as [| x l IH]; cbn; [constructor |].
  now apply insertBy_sorted.
Qed.
End SortFacts.

Lemma NoDup_map_filter {A B : Type} (f : A -> B) (p : A -> bool) l :
  NoDup (map f l) -> NoDup (map f (filter p l)).
Proof.
  induction l as [| x l IH]; cbn [map filter]; intros H; [constructor |].
  apply NoDup_cons_iff in H as [Hx H].
  destruct (p x); cbn [map]; [| now apply IH].
  constructor; [| now apply IH].
  intros Hin. apply Hx. apply in_map_iff in Hin as [y [E Hy]].
  apply filter_In in Hy as [Hy _]. apply in_map_iff. now exists y.
Qed.

Section MergeFacts.
Variable localeCompare : string -> string -> Z.
Hypothesis localeCompare_total :
  forall a b, 0 < localeCompare a b -> localeCompare b a <= 0.

Lemma compareTransactions_total a b :
  0 < compareTransactions localeCompare a b ->
  compareTransactions localeCompare b a <= 0.
Proof.
  unfold compareTransactions, JSDate.getTime, JSDate.parse, JSDate.msPerDay.
  destruct (Z.eqb_spec (date a * 86400000 - date b * 86400000) 0) as [E | E];
    destruct (Z.eqb_spec (date b * 86400000 - date a * 86400000) 0) as [F | F];
    cbn [negb]; try lia.
  apply localeCompare_total.
Qed.

Lemma compareTransactions_order a b :
  compareTransactions localeCompare a b <= 0 <-> dateThenId localeCompare a b.
Proof.
  unfold compareTransactions, dateThenId, JSDate.getTime, JSDate.parse,
    JSDate.msPerDay.
  destruct (Z.eqb_spec (date a * 86400000 - date b * 86400000) 0) as [E | E];
    cbn [negb]; split; intros H.
  - right. split; [lia | exact H].
  - destruct H as [H | [_ H]]; [lia | exact H].
  - left. lia.
  - destruct H as [H | [H _]]; lia.
Qed.

Lemma Sorted_impl {A : Type} (R S : A -> A -> Prop) l :
  (forall a b, R a b -> S a b) -> Sorted R l -> Sorted S l.
Proof.
  intros HRS. induction 1 as [| x l Hs IH Hd]; constructor; [exact IH |].
  destruct Hd; constructor. now apply HRS.
Qed.

(** C10.  The list the effect stores is the previous list and the
    generated transactions whose id the previous list does not have, in
    the order of the comparator: by date ascending, ties by the host's
    comparison [localeCompare] of the ids, for every host whose comparison
    never puts two texts each strictly after the other.  It has no
    duplicate id exactly when the previous list has none and the generated
    transactions that are kept have none; so it has none when neither the
    previous list nor the generated transactions have one. *)
Theorem merge_sorted_unique newTxs prevTxs :
  let kept := filter (fun tx => negb (hasId prevTxs (id tx))) newTxs in
  let merged := mergeNewTransactions localeCompare newTxs prevTxs in
  Permutation merged (prevTxs ++ kept)
  /\ (NoDup (map id merged)
      <-> NoDup (map id prevTxs) /\ NoDup (map id kept))
  /\ (NoDup (map id prevTxs) -> NoDup (map id newTxs) ->
      NoDup (map id merged))
  /\ Sorted (dateThenId localeCompare) merged
  /\ StronglySorted (fun a b => date a <= date b) merged.
Proof.
  intros kept merged.
  assert (Permutation merged (prevTxs ++ kept)) as Hperm
    by apply sortBy_perm.
  assert (Sorted (dateThenId localeCompare) merged) as Hsorted.
  { apply Sorted_impl with (R := fun a b =>
                                   compareTransactions localeCompare a b <= 0).
    - intros a b. apply compareTransactions_order.
    - apply sortBy_sorted. exact compareTransactions_total. }
  assert (NoDup (map id merged)
          <-> NoDup (map id prevTxs) /\ NoDup (map id kept)) as Hiff.
  { split.
    - intros H.
      apply Permutation_NoDup
        with (l' := map id (prevTxs ++ kept)) in H;
        [| now apply Permutation_map].
      rewrite map_app in H. split.
      + now apply NoDup_app_remove_r in H.
      + now apply NoDup_app_remove_l in H.
    - intros [Hprev Hkept].
      apply Permutation_NoDup with (l := map id (prevTxs ++ kept)).
      + apply Permutation_map. now symmetry.
      + rewrite map_app. apply NoDup_app.
        * exact Hprev.
        * exact Hkept.
        * intros i Hi Hi'. apply in_map_iff in Hi as [e [<- He]].
          apply in_map_iff in Hi' as [tx [E Htx]].
          apply filter_In in Htx as [_ Htx]. apply negb_true_iff in Htx.
          exact (proj1 (hasId_false _ _) Htx e He (eq_sym E)). }
  split; [exact Hperm |]. split; [exact Hiff |].
  split; [| split; [exact Hsorted |]].
  - intros Hprev Hnew. apply Hiff. split; [exact Hprev |].
    now apply NoDup_map_filter.
  - apply Sorted_StronglySorted.
    + intros a b c. lia.
    + apply Sorted_impl with (R := dateThenId localeCompare);
        [| exact Hsorted].
      unfold dateThenId. intros a b. lia.
Qed.
End MergeFacts.

Lemma codeUnitCompare_total a b :
  0 < codeUnitCompare a b -> codeUnitCompare b a <= 0.
Proof.
  unfold codeUnitCompare. rewrite (String.compare_antisym a b).
  destruct (String.compare b a); cbn; lia.
Qed.

Lemma merge_sorted_unique_witness :
  (forall a b, 0 < codeUnitCompare a b -> codeUnitCompare b a <= 0)
  /\ NoDup (map id (mergeNewTransactions codeUnitCompare
                      [gymTx "r1-2024-01-02" (isoDay 2024 1 2);
                       firstOccurrence]
                      [firstOccurrence]))
  /\ Sorted (dateThenId codeUnitCompare)
       (mergeNewTransactions codeUnitCompare
          [gymTx "r1-2024-01-02" (isoDay 2024 1 2); firstOccurrence]
          [firstOccurrence]).
Proof.
  assert (NoDup (map id [firstOccurrence])) as H1
    by (repeat constructor; intros []).
  assert (NoDup (map id [gymTx "r1-2024-01-02" (isoDay 2024 1 2);
                         firstOccurrence])) as H2.
  { repeat constructor; cbn; [| tauto].
    intros [E | []]. discriminate E. }
  destruct (merge_sorted_unique codeUnitCompare codeUnitCompare_total
              [gymTx "r1-2024-01-02" (isoDay 2024 1 2); firstOccurrence]
              [firstOccurrence]) as [_ [_ [R1 [R2 _]]]].
  split; [exact codeUnitCompare_total |].
  split; [exact (R1 H1 H2) | exact R2].
Defined.

Lemma alphabeticCompare_total a b :
  0 < alphabeticCompare a b -> alphabeticCompare b a <= 0.
Proof. apply codeUnitCompare_total. Qed.

(** C10, as stated, fails.  A previous list in which two transactions
    carry one id keeps both after the merge, and so do generated
    transactions that carry one id between them.  And the order within a
    date is that of the host's comparison, which need not be the
    lexicographic one: on a host that puts letters in alphabetical order
    whatever their case, the id "a" comes before the id "B" of the same
    date, while "B" is the smaller text lexicographically. *)
Lemma duplicate_ids_survive_the_merge :
  map id (mergeNewTransactions codeUnitCompare
            [gymTx "r1-2024-01-02" (isoDay 2024 1 2)]
            [firstOccurrence; firstOccurrence])
  = ["r1-2024-01-01"; "r1-2024-01-01"; "r1-2024-01-02"]
  /\ map id (mergeNewTransactions codeUnitCompare
               [gymTx "r1-2024-01-02" (isoDay 2024 1 2);
                gymTx "r1-2024-01-02" (isoDay 2024 1 2)]
               [firstOccurrence])
     = ["r1-2024-01-01"; "r1-2024-01-02"; "r1-2024-01-02"]
  /\ map id (mergeNewTransactions alphabeticCompare
               [gymTx "B" (isoDay 2024 1 1)] [gymTx "a" (isoDay 2024 1 1)])
     = ["a"; "B"]
  /\ map id (mergeNewTransactions alphabeticCompare
               [gymTx "a" (isoDay 2024 1 1)] [gymTx "B" (isoDay 2024 1 1)])
     = ["a"; "B"]
  /\ String.compare "B" "a" = Lt.
Proof. repeat split; vm_compute; reflexivity. Qed.

(** ** Binary64 numbers *)

(** Rounding never turns a mantissa that is not zero into zero or into
    NaN when the exponent is in range: what is left after the shifts is
    at least one. *)
Section RoundingFacts.

Lemma pow2_step d : 1 <= d -> 2 ^ d = 2 * 2 ^ (d - 1).
Proof.
  intros H. rewrite <- Z.pow_succ_r by lia. f_equal. lia.
Qed.

Lemma digits2_pos_bounds p :
  2 ^ (Zpos (digits2_pos p) - 1) <= Zpos p < 2 ^ Zpos (digits2_pos p).
Proof.
  induction p as [p IH | p IH |]; cbn [digits2_pos].
  - rewrite Pos2Z.inj_succ.
    replace (Z.succ (Zpos (digits2_pos p)) - 1) with (Zpos (digits2_pos p))
      by lia.
    rewrite (pow2_step (Z.succ (Zpos (digits2_pos p)))) by lia.
    replace (Z.succ (Zpos (digits2_pos p)) - 1) with (Zpos (digits2_pos p))
      by lia.
    rewrite (pow2_step (Zpos (digits2_pos p))) in * by lia. lia.
  - rewrite Pos2Z.inj_succ.
    replace (Z.succ (Zpos (digits2_pos p)) - 1) with (Zpos (digits2_pos p))
      by lia.
    rewrite (pow2_step (Z.succ (Zpos (digits2_pos p)))) by lia.
    replace (Z.succ (Zpos (digits2_pos p)) - 1) with (Zpos (digits2_pos p))
      by lia.
    rewrite (pow2_step (Zpos (digits2_pos p))) in * by lia. lia.
  - cbn. lia.
Qed.

Lemma shr_1_m mrs : 0 <= shr_m mrs -> shr_m (shr_1 mrs) = Z.div2 (shr_m mrs).
Proof.
  destruct mrs as [m r s]. cbn [shr_m]. intros H.
  destruct m as [| [p | p |] | p]; try reflexivity; lia.
Qed.

Lemma iter_shr_1_m n : forall mrs,
  0 <= shr_m mrs ->
  shr_m (iter_pos shr_1 n mrs) = Z.shiftr (shr_m mrs) (Zpos n).
Proof.
  induction n as [n IH | n IH |]; intros mrs H; cbn [iter_pos].
  - assert (0 <= shr_m (shr_1 mrs)) as H1.
    { rewrite shr_1_m by exact H. rewrite Z.div2_nonneg. exact H. }
    assert (0 <= shr_m (iter_pos shr_1 n (shr_1 mrs))) as H2.
    { rewrite IH by exact H1. now apply Z.shiftr_nonneg. }
    rewrite IH by exact H2. rewrite IH by exact H1.
    rewrite shr_1_m by exact H. rewrite Z.div2_spec.
    rewrite !Z.shiftr_shiftr by lia. f_equal. lia.
  - assert (0 <= shr_m (iter_pos shr_1 n mrs)) as H2.
    { rewrite IH by exact H. now apply Z.shiftr_nonneg. }
    rewrite IH by exact H2. rewrite IH by exact H.
    rewrite !Z.shiftr_shiftr by lia. f_equal. lia.
  - rewrite shr_1_m by exact H. now rewrite Z.div2_spec.
Qed.


Variable prec emax : Z.
Hypothesis prec_pos : 0 < prec.

Lemma shr_record_of_loc_m m l : shr_m (shr_record_of_loc m l) = m.
Proof. destruct l as [| []]; reflexivity. Qed.

Lemma shr_fexp_pos p e l :
  SpecFloat.emin prec emax <= e ->
  0 < shr_m (fst (shr_fexp prec emax (Zpos p) e l))
  /\ SpecFloat.emin prec emax <= snd (shr_fexp prec emax (Zpos p) e l).
Proof.
  intros He. unfold shr_fexp, shr, fexp. cbn [Zdigits2].
  pose proof (digits2_pos_bounds p) as [B _].
  set (d := Zpos (digits2_pos p)) in *.
  destruct (Z.max (d + e - prec) (SpecFloat.emin prec emax) - e)
    as [| n | n] eqn:N;
    cbn [fst snd]; rewrite ?shr_record_of_loc_m; try (split; lia).
  rewrite iter_shr_1_m by (rewrite shr_record_of_loc_m; lia).
  rewrite shr_record_of_loc_m. split; [| lia].
  rewrite Z.shiftr_div_pow2 by lia.
  assert (2 ^ Zpos n <= 2 ^ (d - 1)) as P
    by (apply Z.pow_le_mono_r; lia).
  assert (0 < 2 ^ Zpos n) as Q by (apply Z.pow_pos_nonneg; lia).
  assert (1 <= Zpos p / 2 ^ Zpos n); [| lia].
  apply Z.div_le_lower_bound; lia.
Qed.

Lemma round_nearest_even_pos m l : 0 < m -> 0 < round_nearest_even m l.
Proof.
  intros H. unfold round_nearest_even.
  destruct l as [| []]; try lia. destruct (Z.even m); lia.
Qed.

Lemma binary_round_aux_pos sx p e l :
  SpecFloat.emin prec emax <= e ->
  keepsSign sx (binary_round_aux prec emax sx (Zpos p) e l).
Proof.
  intros He. unfold binary_round_aux.
  destruct (shr_fexp_pos p e l He) as [M1 E1].
  destruct (shr_fexp prec emax (Zpos p) e l) as [mrs' e'].
  cbn [fst snd] in M1, E1.
  pose proof (round_nearest_even_pos _ (loc_of_shr_record mrs') M1) as R.
  destruct (round_nearest_even (shr_m mrs') (loc_of_shr_record mrs'))
    as [| q | q]; try lia.
  destruct (shr_fexp_pos q e' loc_Exact E1) as [M2 E2].
  destruct (shr_fexp prec emax (Zpos q) e' loc_Exact) as [mrs'' e''].
  cbn [fst snd] in M2, E2.
  destruct (shr_m mrs'') as [| m | m]; try lia.
  destruct (e'' <=? emax - prec); [left; eauto | now right].
Qed.

Lemma binary_round_pos sx p e :
  SpecFloat.emin prec emax <= e -> keepsSign sx (binary_round prec emax sx p e).
Proof.
  intros He. unfold binary_round, shl_align, fexp.
  destruct (Z.max (Zpos (digits2_pos p) + e - prec)
                  (SpecFloat.emin prec emax) - e)
    eqn:N; apply binary_round_aux_pos; lia.
Qed.

Lemma bounded_emin m e :
  bounded prec emax m e = true -> SpecFloat.emin prec emax <= e.
Proof.
  unfold bounded, canonical_mantissa, fexp. intros H.
  apply andb_prop in H as [H _]. apply Z.eqb_eq in H. lia.
Qed.

(** The sum of two finite numbers of one sign, neither of them zero. *)
Lemma SFadd_same_sign sx mx ex my ey :
  bounded prec emax mx ex = true -> bounded prec emax my ey = true ->
  keepsSign sx (SFadd prec emax (S754_finite sx mx ex) (S754_finite sx my ey)).
Proof.
  intros Bx By. apply bounded_emin in Bx, By. cbn [SFadd].
  set (a := fst (shl_align mx ex (Z.min ex ey))).
  set (b := fst (shl_align my ey (Z.min ex ey))).
  destruct sx; cbn [cond_Zopp Z.add Z.opp binary_normalize];
    apply binary_round_pos; lia.
Qed.

End RoundingFacts.

Section NumFacts.
Local Open Scope float_scope.

Lemma SFeqb_refl_finite s m e :
  SFeqb (S754_finite s m e) (S754_finite s m e) = true.
Proof.
  unfold SFeqb, SFcompare.
  destruct s; rewrite Z.compare_refl, ?Pos.compare_cont_refl; reflexivity.
Qed.

Lemma numIsNaN_spec n : numIsNaN n = true <-> Prim2SF n = S754_nan.
Proof.
  unfold numIsNaN, PrimFloat.is_nan. rewrite FloatAxioms.eqb_spec.
  destruct (Prim2SF n) as [s | s | | s m e]; try destruct s;
    rewrite ?SFeqb_refl_finite; cbn; split; congruence.
Qed.

(** [0 < n] says that [n] is a number and not [n <= 0]: the test of the
    forms and of the converter, read the other way. *)
Lemma positive_spec n :
  numLtb 0 n = true <-> numIsNaN n = false /\ numLeb n 0 = false.
Proof.
  pose proof (numIsNaN_spec n) as N. revert N.
  unfold numLtb, numLeb. rewrite ltb_spec, leb_spec.
  replace (Prim2SF 0) with (S754_zero false) by reflexivity.
  destruct (numIsNaN n); destruct (Prim2SF n) as [s | s | | s m e];
    try destruct s; cbn; intuition congruence.
Qed.

Lemma positive_test n :
  numIsNaN n || numLeb n 0 = negb (numLtb 0 n).
Proof.
  pose proof (positive_spec n) as H.
  destruct (numLtb 0 n), (numIsNaN n), (numLeb n 0); cbn; try reflexivity;
    solve [ destruct H as [H _]; destruct (H eq_refl); discriminate
          | destruct H as [_ H]; discriminate (H (conj eq_refl eq_refl)) ].
Qed.

(** What is not [<= 0] is positive or NaN. *)
Lemma numLeb_false n :
  numLeb n 0 = false <-> numLtb 0 n = true \/ numIsNaN n = true.
Proof.
  pose proof (positive_spec n) as H.
  destruct (numLtb 0 n), (numIsNaN n) eqn:N, (numLeb n 0) eqn:L;
    try solve [intuition congruence].
  exfalso. apply numIsNaN_spec in N. revert L. unfold numLeb.
  rewrite leb_spec, N. discriminate.
Qed.

Lemma numLtb_irrefl_0 : numLtb 0 0 = false.
Proof. reflexivity. Qed.

Lemma numLtb_0_spec n : numLtb 0 n = true <-> isPositive n.
Proof.
  unfold numLtb, isPositive, keepsSign. rewrite ltb_spec.
  replace (Prim2SF 0) with (S754_zero false) by reflexivity.
  destruct (Prim2SF n) as [s | s | | s m e]; try destruct s; cbn;
    split; try discriminate; try reflexivity;
    try (intros [[m' [e' H]] | H]; discriminate); eauto.
Qed.

(** Adding a positive number to 0 or to a positive number gives a
    positive number: the sum does not vanish and is not NaN. *)
Lemma add_positive s a :
  s = 0 \/ numLtb 0 s = true -> numLtb 0 a = true ->
  numLtb 0 (s + a) = true.
Proof.
  intros Hs Ha. apply numLtb_0_spec. apply numLtb_0_spec in Ha.
  unfold isPositive, keepsSign in *. rewrite add_spec.
  pose proof (Prim2SF_valid s) as Vs. pose proof (Prim2SF_valid a) as Va.
  assert (Prim2SF s = S754_zero false
          \/ keepsSign false (Prim2SF s)) as Hs'.
  { destruct Hs as [-> | Hs]; [now left | right; now apply numLtb_0_spec]. }
  clear Hs.
  destruct Hs' as [Es | [[ms [es Es]] | Es]];
    destruct Ha as [[ma [ea Ea]] | Ea];
    rewrite Es, Ea in *; unfold SF64add; cbn [SFadd]; eauto.
  apply (SFadd_same_sign 53 1024 eq_refl false ms es ma ea Vs Va).
Qed.

Lemma positive_not_falsy n : numLtb 0 n = true -> numFalsy n = false.
Proof.
  intros H. pose proof (proj1 (positive_spec n) H) as [N _].
  apply numLtb_0_spec in H. unfold numFalsy. fold (numIsNaN n).
  rewrite N, orb_false_r, FloatAxioms.eqb_spec.
  replace (Prim2SF 0) with (S754_zero false) by reflexivity.
  destruct H as [[m [e ->]] | ->]; reflexivity.
Qed.

(** Adding a number to 0 gives the number, unless it is the negative
    zero. *)
Lemma add_0_l n : Prim2SF n <> S754_zero true -> 0 + n = n.
Proof.
  intros H. apply Prim2SF_inj. rewrite add_spec.
  replace (Prim2SF 0) with (S754_zero false) by reflexivity.
  destruct (Prim2SF n) as [s | s | | s m e]; try destruct s; cbn;
    try reflexivity.
  now destruct H.
Qed.

Lemma add_0_positive n : numLtb 0 n = true -> 0 + n = n.
Proof.
  intros H. apply add_0_l. apply numLtb_0_spec in H.
  destruct H as [[m [e ->]] | ->]; discriminate.
Qed.

Lemma numFalsy_0 : numFalsy 0 = true.
Proof. reflexivity. Qed.
End NumFacts.

(** ** The summary *)

Section SummaryFacts.
Local Open Scope float_scope.

Lemma orZero_Some v : orZero (Some v) = if numFalsy v then 0 else v.
Proof. reflexivity. Qed.

Lemma mapGet_mapSet m k v k' :
  mapGet (mapSet m k v) k'
  = if String.eqb k k' then Some v else mapGet m k'.
Proof.
  induction m as [| [k0 v0] m IH]; cbn [mapSet mapGet].
  - destruct (String.eqb_spec k k'); reflexivity.
  - destruct (String.eqb_spec k0 k) as [-> | Hk]; cbn [mapGet].
    + destruct (String.eqb_spec k k'); reflexivity.
    + destruct (String.eqb_spec k0 k') as [-> | Hk'].
      * destruct (String.eqb_spec k k'); [congruence | reflexivity].
      * exact IH.
Qed.

Lemma mapSet_keys m k v :
  map fst (mapSet m k v)
  = if existsb (String.eqb k) (map fst m) then map fst m
    else map fst m ++ [k].
Proof.
  induction m as [| [k0 v0] m IH]; cbn [mapSet map fst existsb app];
    [reflexivity |].
  rewrite (String.eqb_sym k k0).
  destruct (String.eqb_spec k0 k) as [-> | Hk]; cbn [map fst orb];
    [reflexivity |].
  rewrite IH. now destruct (existsb (String.eqb k) (map fst m)).
Qed.

Lemma mapSet_NoDup m k v :
  NoDup (map fst m) -> NoDup (map fst (mapSet m k v)).
Proof.
  intros H. rewrite mapSet_keys.
  destruct (existsb (String.eqb k) (map fst m)) eqn:E; [exact H |].
  apply NoDup_app; [exact H | repeat constructor; intros [] |].
  intros a Ha [-> | []].
  assert (existsb (String.eqb a) (map fst m) = true) as C
    by (apply existsb_exists; exists a; split;
        [exact Ha | apply String.eqb_refl]).
  congruence.
Qed.

Lemma mapGet_In m k v :
  NoDup (map fst m) -> (In (k, v) m <-> mapGet m k = Some v).
Proof.
  induction m as [| [k0 v0] m IH]; cbn [map fst mapGet In]; intros H.
  - split; [intros [] | discriminate].
  - apply NoDup_cons_iff in H as [Hk0 H].
    destruct (String.eqb_spec k0 k) as [-> | Hk].
    + split.
      * intros [[= ->] | Hin]; [reflexivity |].
        destruct Hk0. apply in_map_iff. now exists (k, v).
      * intros [= ->]. now left.
    + rewrite <- (IH H). split; [| now right].
      intros [[= E _] | Hin]; [now destruct Hk | exact Hin].
Qed.

(** A category occurs in a list when some transaction of the list has
    it. *)
Lemma existsb_filter {A : Type} (p : A -> bool) l :
  existsb p l = match filter p l with [] => false | _ :: _ => true end.
Proof.
  induction l as [| x l IH]; cbn [existsb filter]; [reflexivity |].
  destruct (p x); [reflexivity | exact IH].
Qed.

(** The entry of a category that is already in the map, after more of its
    transactions. *)
Lemma bucket_from_Some l :
  forall v,
    fold_left (fun cur (tx : Transaction) => Some (orZero cur + amount tx)) l
              (Some v)
    = Some (fold_left
              (fun s tx => (if numFalsy s then 0 else s) + amount tx) l v).
Proof.
  induction l as [| tx l IH]; intros v; cbn [fold_left]; [reflexivity |].
  now rewrite orZero_Some, IH.
Qed.

(** The entry of a category that is not in the map yet. *)
Lemma bucket_from_None l :
  fold_left (fun cur (tx : Transaction) => Some (orZero cur + amount tx)) l
            None
  = match l with [] => None | _ :: _ => Some (sumAmountsOrZero l) end.
Proof.
  destruct l as [| tx l]; [reflexivity |].
  cbn [fold_left orZero]. rewrite bucket_from_Some.
  unfold sumAmountsOrZero. cbn [fold_left]. now rewrite numFalsy_0.
Qed.

(** Among positive amounts no running total is 0 or NaN: the total with
    the restart is the plain one, and it is positive once an amount has
    been added. *)
Lemma running_total_positive l :
  forall s,
    (forall tx, In tx l -> numLtb 0 (amount tx) = true) ->
    s = 0 \/ numLtb 0 s = true ->
    fold_left (fun s tx => (if numFalsy s then 0 else s) + amount tx) l s
    = fold_left (fun s tx => s + amount tx) l s
    /\ (l <> [] ->
        numLtb 0 (fold_left (fun s tx => s + amount tx) l s) = true).
Proof.
  induction l as [| tx l IH]; intros s Hl Hs; cbn [fold_left].
  - split; [reflexivity | intros C; now destruct C].
  - assert ((if numFalsy s then 0 else s) = s) as ->.
    { destruct Hs as [-> | Hs]; [reflexivity |].
      now rewrite positive_not_falsy. }
    assert (numLtb 0 (s + amount tx) = true) as Hp
      by (apply add_positive; [exact Hs | apply Hl; now left]).
    destruct (IH (s + amount tx)) as [I1 I2];
      [intros u Hu; apply Hl; now right | now right |].
    split; [exact I1 |]. intros _.
    destruct l as [| u l]; [exact Hp | apply I2; discriminate].
Qed.

Lemma sumAmountsOrZero_positive l :
  (forall tx, In tx l -> numLtb 0 (amount tx) = true) ->
  sumAmountsOrZero l = sumAmounts l.
Proof.
  intros H. apply (running_total_positive l 0 H). now left.
Qed.

Lemma sumAmounts_positive l :
  (forall tx, In tx l -> numLtb 0 (amount tx) = true) -> l <> [] ->
  numLtb 0 (sumAmounts l) = true.
Proof.
  intros H. apply (running_total_positive l 0 H). now left.
Qed.

Lemma categoryTotal_positive txs code c :
  (forall tx, In tx txs -> numLtb 0 (amount tx) = true) ->
  categoryTotal code txs c
  = sumAmounts (filter (fun tx => String.eqb (category tx) c)
                       (matching code txs)).
Proof.
  intros H. apply sumAmountsOrZero_positive. intros tx Htx.
  apply filter_In in Htx as [Htx _]. apply filter_In in Htx as [Htx _].
  now apply H.
Qed.

(** What the loop has accumulated after a list of transactions: the two
    totals have grown by the amounts of their type, in the order of the
    list, and each entry of the map by the amounts of its category. *)
Lemma summary_fold l :
  forall acc,
    let res := fold_left summaryStep l acc in
    accIncome res
    = fold_left (fun s tx => s + amount tx) (filter isIncome l)
                (accIncome acc)
    /\ accExpense res
       = fold_left (fun s tx => s + amount tx)
                   (filter (fun tx => negb (isIncome tx)) l) (accExpense acc)
    /\ (NoDup (map fst (categoryMap acc)) ->
        NoDup (map fst (categoryMap res)))
    /\ forall c,
         mapGet (categoryMap res) c
         = fold_left (fun cur tx => Some (orZero cur + amount tx))
                     (filter (fun tx => String.eqb (category tx) c) l)
                     (mapGet (categoryMap acc) c).
Proof.
  induction l as [| tx l IH]; intros acc; cbn zeta.
  - cbn [fold_left filter]. auto.
  - cbn [fold_left]. destruct (IH (summaryStep acc tx)) as [I1 [I2 [I3 I4]]].
    cbn zeta in *. rewrite I1, I2.
    cbn [summaryStep accIncome accExpense categoryMap] in *.
    split; [| split; [| split]].
    + cbn [filter].
      change (isIncome tx)
        with (match type tx with income => true | expense => false end).
      destruct (type tx); reflexivity.
    + cbn [filter].
      change (isIncome tx)
        with (match type tx with income => true | expense => false end).
      destruct (type tx); reflexivity.
    + intros H. apply I3. now apply mapSet_NoDup.
    + intros c. rewrite I4, mapGet_mapSet. cbn [filter].
      destruct (String.eqb_spec (category tx) c) as [-> | Hc];
        reflexivity.
Qed.

(** The breakdown has one entry per category that occurs among the
    matching transactions, with the running total of all their amounts. *)
Lemma breakdown_entries txs code c a :
  In (Cat.mk c a) (categoryBreakdown (calculateSummary txs code))
  <-> hasCategory code txs c = true /\ a = categoryTotal code txs c.
Proof.
  unfold calculateSummary, hasCategory, categoryTotal. fold (matching code txs).
  cbn [categoryBreakdown].
  destruct (summary_fold (matching code txs)
              {| accIncome := 0; accExpense := 0; categoryMap := [] |})
    as [_ [_ [Hnd Hget]]]. cbn zeta in *. cbn [categoryMap] in *.
  specialize (Hnd (NoDup_nil _)). specialize (Hget c).
  set (m := categoryMap (fold_left summaryStep (matching code txs) _)) in *.
  assert (In (Cat.mk c a) (map (fun '(c0, a0) => Cat.mk c0 a0) m)
          <-> In (c, a) m) as ->.
  { rewrite in_map_iff. split.
    - intros [[c0 a0] [[= -> ->] H]]. exact H.
    - intros H. now exists (c, a). }
  rewrite (mapGet_In m c a Hnd), Hget. cbn [mapGet].
  rewrite bucket_from_None, existsb_filter.
  destruct (filter _ (matching code txs)).
  - split; [discriminate | intros [H _]; discriminate].
  - split.
    + intros [= <-]. now split.
    + intros [_ ->]. reflexivity.
Qed.

Lemma breakdown_NoDup txs code :
  NoDup (map Cat.category (categoryBreakdown (calculateSummary txs code))).
Proof.
  unfold calculateSummary. cbn [categoryBreakdown].
  destruct (summary_fold (matching code txs)
              {| accIncome := 0; accExpense := 0; categoryMap := [] |})
    as [_ [_ [Hnd _]]]. cbn zeta in *. cbn [categoryMap] in *.
  specialize (Hnd (NoDup_nil _)). fold (matching code txs).
  rewrite map_map.
  erewrite map_ext; [exact Hnd |]. now intros [c0 a0].
Qed.

End SummaryFacts.



(** ** The budget alerts *)

Section AlertFacts.
Local Open Scope float_scope.

Lemma getBudgetAlerts_flat_map threshold s budgets code :
  getBudgetAlerts threshold s budgets code
  = flat_map (fun b =>
                if numLtb 0 (Bud.amount b)
                   && numLeb threshold (percentage (alertFor s b))
                then [alertFor s b] else [])
             budgets.
Proof.
  unfold getBudgetAlerts.
  assert (forall acc,
             fold_left
               (fun alerts b =>
                  let spent := spentOn s (Bud.category b) in
                  let percentage := spent / Bud.amount b * 100 in
                  if numLtb 0 (Bud.amount b) && numLeb threshold percentage
                  then alerts ++ [ {| alertCategory := Bud.category b;
                                      spent := spent;
                                      budget := Bud.amount b;
                                      percentage := percentage |} ]
                  else alerts)
               budgets acc
             = acc ++ flat_map (fun b =>
                  if numLtb 0 (Bud.amount b)
                     && numLeb threshold (percentage (alertFor s b))
                  then [alertFor s b] else [])
                budgets) as H.
  { induction budgets as [| b budgets IH]; intros acc; cbn [fold_left flat_map].
    - now rewrite app_nil_r.
    - rewrite IH. cbn zeta. unfold alertFor at 1 2. cbn [percentage].
      destruct (numLtb 0 (Bud.amount b) && numLeb threshold _).
      + now rewrite <- app_assoc.
      + reflexivity. }
  apply (H []).
Qed.

Lemma filter_absent c bd :
  ~ In c (map Cat.category bd) ->
  filter (fun cb => String.eqb (Cat.category cb) c) bd = [].
Proof.
  induction bd as [| e bd IH]; cbn [map filter In]; intros H; [reflexivity |].
  destruct (String.eqb_spec (Cat.category e) c) as [E | E]; [tauto |].
  apply IH. tauto.
Qed.

(** With one entry per category, the amount found for a category is the
    amount of its entry, added to the 0 the reduction starts from. *)
Lemma spentOn_entry s c a :
  NoDup (map Cat.category (categoryBreakdown s)) ->
  In (Cat.mk c a) (categoryBreakdown s) -> spentOn s c = 0 + a.
Proof.
  unfold spentOn. induction (categoryBreakdown s) as [| e bd IH];
    cbn [map filter In]; intros Hnd Hin; [destruct Hin |].
  apply NoDup_cons_iff in Hnd as [Hc Hnd].
  destruct (String.eqb_spec (Cat.category e) c) as [E | E].
  - rewrite filter_absent by now rewrite <- E.
    destruct Hin as [-> | Hin].
    + reflexivity.
    + destruct Hc. rewrite E. apply in_map_iff. now exists (Cat.mk c a).
  - destruct Hin as [-> | Hin]; [now destruct E |]. now apply IH.
Qed.

Lemma spentOn_absent s c :
  ~ In c (map Cat.category (categoryBreakdown s)) -> spentOn s c = 0.
Proof. intros H. unfold spentOn. now rewrite filter_absent. Qed.

Lemma spentOn_summary txs code c :
  spentOn (calculateSummary txs code) c
  = if hasCategory code txs c then 0 + categoryTotal code txs c else 0.
Proof.
  destruct (hasCategory code txs c) eqn:E.
  - apply spentOn_entry; [apply breakdown_NoDup |].
    apply breakdown_entries. auto.
  - apply spentOn_absent. intros Hin.
    apply in_map_iff in Hin as [[c0 a] [Hc Hin]]. cbn in Hc. subst c0.
    apply breakdown_entries in Hin as [Hin _]. congruence.
Qed.

(** Among positive amounts, what is found for a category is the sum of
    the amounts of its transactions, which is 0 when it has none. *)
Lemma spentOn_summary_positive txs code c :
  (forall tx, In tx txs -> numLtb 0 (amount tx) = true) ->
  spentOn (calculateSummary txs code) c
  = sumAmounts (filter (fun tx => String.eqb (category tx) c)
                       (matching code txs)).
Proof.
  intros H. rewrite spentOn_summary, (categoryTotal_positive txs code c H).
  unfold hasCategory. rewrite existsb_filter.
  destruct (filter (fun tx => String.eqb (category tx) c)
                   (matching code txs)) as [| tx l] eqn:F; [reflexivity |].
  apply add_0_positive. apply sumAmounts_positive; [| discriminate].
  intros u Hu. rewrite <- F in Hu.
  apply filter_In in Hu as [Hu _]. apply filter_In in Hu as [Hu _].
  now apply H.
Qed.

(** C5.  An alert is raised for a budget exactly when its amount is
    positive and spent / amount * 100, computed in binary64 as the code
    computes it, reaches the threshold, where spent is what the breakdown
    holds for the budget's category: 0 when the category does not occur
    and, for the breakdown of a summary, the category total of the summary
    added to 0, which among positive amounts is the binary64 sum of the
    amounts of the category.  With threshold 75 and budget 100, a spend of
    80 raises
    the alert with percentage 80 and a spend of 74 raises none; a budget
    of 0 raises none whatever the spend and the threshold. *)
Theorem budget_alerts :
  (forall threshold s budgets code alert,
      In alert (getBudgetAlerts threshold s budgets code)
      <-> exists b,
            In b budgets /\ numLtb 0 (Bud.amount b) = true
            /\ numLeb threshold
                 (spentOn s (Bud.category b) / Bud.amount b * 100) = true
            /\ alert = alertFor s b)
  /\ (forall s c,
         ~ In c (map Cat.category (categoryBreakdown s)) -> spentOn s c = 0)
  /\ (forall txs code c,
         spentOn (calculateSummary txs code) c
         = if hasCategory code txs c then 0 + categoryTotal code txs c
           else 0)
  /\ (forall txs code c,
         (forall tx, In tx txs -> numLtb 0 (amount tx) = true) ->
         spentOn (calculateSummary txs code) c
         = sumAmounts (filter (fun tx => String.eqb (category tx) c)
                              (matching code txs)))
  /\ getBudgetAlerts 75 (foodSummary 80) [foodBudget 100] "USD"
     = [ {| alertCategory := "Food"; spent := 80; budget := 100;
            percentage := 80 |} ]
  /\ getBudgetAlerts 75 (foodSummary 74) [foodBudget 100] "USD" = []
  /\ (forall threshold s code c,
         getBudgetAlerts threshold s [Bud.mk c 0] code = []
         /\ getBudgetAlerts threshold s [Bud.mk c (-0)] code = []).
Proof.
  split; [| split; [| split; [| split; [| split; [| split]]]]].
  - intros threshold s budgets code alert.
    rewrite getBudgetAlerts_flat_map, in_flat_map. split.
    + intros [b [Hb Hin]]. exists b.
      destruct (numLtb 0 (Bud.amount b)) eqn:E1; [| destruct Hin].
      destruct (numLeb threshold (percentage (alertFor s b))) eqn:E2;
        [| destruct Hin].
      destruct Hin as [<- | []]. auto.
    + intros [b [Hb [H1 [H2 ->]]]]. exists b. split; [exact Hb |].
      cbn [alertFor percentage]. rewrite H1, H2. now left.
  - apply spentOn_absent.
  - apply spentOn_summary.
  - apply spentOn_summary_positive.
  - vm_compute. reflexivity.
  - vm_compute. reflexivity.
  - intros threshold s code c. rewrite !getBudgetAlerts_flat_map.
    cbn [flat_map Bud.amount].
    change (numLtb 0 0) with false. change (numLtb 0 (-0)) with false.
    split; reflexivity.
Qed.
End AlertFacts.

Lemma budget_alerts_witness :
  In (foodBudget 100) [foodBudget 100]
  /\ numLtb 0 (Bud.amount (foodBudget 100)) = true
  /\ numLeb 75 (spentOn (foodSummary 80) (Bud.category (foodBudget 100))
                / Bud.amount (foodBudget 100) * 100) = true
  /\ In (alertFor (foodSummary 80) (foodBudget 100))
        (getBudgetAlerts 75 (foodSummary 80) [foodBudget 100] "USD").
Proof.
  assert (In (foodBudget 100) [foodBudget 100]) as H1 by now left.
  assert (numLtb 0 (Bud.amount (foodBudget 100)) = true) as H2
    by reflexivity.
  assert (numLeb 75
            (spentOn (foodSummary 80) (Bud.category (foodBudget 100))
             / Bud.amount (foodBudget 100) * 100) = true) as H3
    by reflexivity.
  split; [exact H1 |]. split; [exact H2 |]. split; [exact H3 |].
  apply (proj1 budget_alerts). exists (foodBudget 100). auto.
Defined.

(** The percentage is the rounded one.  A spend of 57 on a budget of 100
    gives 56.99999999999999 and no alert at threshold 57, and a spend of
    0.15 on a budget of 0.20 gives 74.99999999999999 and no alert at
    threshold 75. *)
Example percentage_is_rounded :
  (57 / 100 * 100 = 0x1.c7fffffffffffp+5)%float
  /\ getBudgetAlerts 57 (foodSummary 57) [foodBudget 100] "USD" = []
  /\ (15 / 100 / (20 / 100) * 100 = 0x1.2bfffffffffffp+6)%float
  /\ getBudgetAlerts 75 (foodSummary (15 / 100)) [foodBudget (20 / 100)] "USD"
     = [].
Proof. repeat split; vm_compute; reflexivity. Qed.

(** ** The period filter *)

Section PeriodFacts.
Variable tz : Z.
Import JSDate.

Lemma localDay_within L r :
  0 <= r < msPerDay -> localDay tz (UTC tz (MakeDate L r)) = L.
Proof.
  intros H. unfold localDay, UTC, MakeDate, LocalTime, Day.
  replace (L * msPerDay + r - tz + tz) with (r + L * msPerDay) by lia.
  rewrite Z.div_add by discriminate. rewrite Z.div_small by exact H. lia.
Qed.

Lemma startOfWeek_day now :
  setHours0 tz (setDate tz now (getDate tz now - getDay tz now))
  = localMidnight tz (sundayOnOrBefore (localDay tz now)).
Proof.
  rewrite setHours0_localMidnight. f_equal.
  unfold setDate, getDate, getDay, YearFromTime, MonthFromTime, DateFromTime,
    WeekDay, sundayOnOrBefore.
  fold (localDay tz now).
  pose proof (JSDateFacts.MakeDay_civil (localDay tz now)
                (- ((localDay tz now + 4) mod 7))) as M.
  destruct (civil_from_days (localDay tz now)) as [[y m] d]. cbn [fst snd].
  rewrite localDay_within by (apply Z.mod_pos_bound; reflexivity).
  unfold LocalTime in *. fold (localDay tz now).
  replace (d - (localDay tz now + 4) mod 7)
    with (d + - ((localDay tz now + 4) mod 7)) by lia.
  rewrite M. lia.
Qed.

Lemma startOfMonth_day now :
  setHours0 tz (ofLocalYMD tz (getFullYear tz now) (getMonth tz now) 1)
  = localMidnight tz (firstOfMonth (localDay tz now)).
Proof.
  rewrite setHours0_localMidnight. f_equal.
  unfold ofLocalYMD, getFullYear, getMonth, YearFromTime, MonthFromTime,
    firstOfMonth.
  fold (localDay tz now).
  pose proof (JSDateFacts.civil_ranges (localDay tz now)) as R.
  destruct (civil_from_days (localDay tz now)) as [[y m] d]. cbn [fst snd].
  rewrite localDay_within by (split; [lia | reflexivity]).
  unfold MakeDay.
  replace ((m - 1) / 12) with 0 by JSDateFacts.zdiv.
  replace ((m - 1) mod 12 + 1) with m by JSDateFacts.zdiv.
  replace (y + 0) with y by lia. lia.
Qed.

(** In every zone: the daily filter compares the date with the UTC day of
    the clock, the two others compare the local day on which the date's
    UTC midnight falls with the local Sunday and the local first of the
    month. *)
Lemma getPeriodTransactions_days now txs :
  getPeriodTransactions tz now txs "daily"
  = filter (fun tx => date tx =? Day now) txs
  /\ getPeriodTransactions tz now txs "weekly"
     = filter (fun tx => sundayOnOrBefore (localDay tz now)
                         <=? localDay tz (parse (date tx))) txs
  /\ getPeriodTransactions tz now txs "monthly"
     = filter (fun tx => firstOfMonth (localDay tz now)
                         <=? localDay tz (parse (date tx))) txs.
Proof.
  unfold getPeriodTransactions. cbn [String.eqb Ascii.eqb Bool.eqb].
  rewrite startOfWeek_day, startOfMonth_day.
  repeat split; apply filter_ext; intros tx;
    now rewrite ?setHours0_localMidnight, ?localMidnight_leb.
Qed.
End PeriodFacts.

Lemma localDay_parse_utc d : localDay utc (JSDate.parse d) = d.
Proof.
  unfold localDay, JSDate.LocalTime, JSDate.parse, JSDate.Day, utc.
  rewrite Z.add_0_r. apply Z.div_mul. discriminate.
Qed.

(** West of UTC a date-only string is read as the day before. *)
Lemma localDay_parse_west tz d :
  - JSDate.msPerDay <= tz < 0 -> localDay tz (JSDate.parse d) = d - 1.
Proof.
  unfold localDay, JSDate.LocalTime, JSDate.parse, JSDate.Day, JSDate.msPerDay.
  intros H. JSDateFacts.zdiv.
Qed.

Lemma sundayOnOrBefore_spec L :
  JSDate.WeekDay (sundayOnOrBefore L * JSDate.msPerDay) = 0
  /\ sundayOnOrBefore L <= L < sundayOnOrBefore L + 7.
Proof.
  unfold JSDate.WeekDay, JSDate.Day, sundayOnOrBefore.
  rewrite Z.div_mul by discriminate. JSDateFacts.zdiv.
Qed.

Lemma firstOfMonth_spec L :
  firstOfMonth L = L - (JSDate.DateFromTime (L * JSDate.msPerDay) - 1).
Proof.
  unfold firstOfMonth, JSDate.DateFromTime, JSDate.Day.
  rewrite Z.div_mul by discriminate.
  pose proof (JSDateFacts.civil_roundtrip L) as R.
  destruct (JSDate.civil_from_days L) as [[y m] d]. cbn [snd].
  rewrite JSDateFacts.days_from_civil_day in R. lia.
Qed.

Lemma matching_In code txs tx :
  In tx (matching code txs) <-> In tx txs /\ currencyCode tx = code.
Proof. unfold matching. rewrite filter_In, String.eqb_eq. tauto. Qed.

Lemma matching_idem code txs :
  matching code (matching code txs) = matching code txs.
Proof.
  unfold matching. induction txs as [| tx txs IH]; cbn [filter];
    [reflexivity |].
  destruct (String.eqb (currencyCode tx) code) eqn:E; [| exact IH].
  cbn [filter]. now rewrite E, IH.
Qed.

(** The period filter on a host whose local time is UTC: the daily filter
    keeps the transactions dated today, the weekly one those dated on or
    after the most recent Sunday, the monthly one those dated on or after
    the first of the current month; the summary then reads the
    transactions whose currency code is the requested one, and only
    those. *)
Lemma period_filter_utc now txs tx :
  let today := JSDate.Day now in
  (In tx (getPeriodTransactions utc now txs "daily")
   <-> In tx txs /\ date tx = today)
  /\ (In tx (getPeriodTransactions utc now txs "weekly")
      <-> In tx txs /\ sundayOnOrBefore today <= date tx)
  /\ (In tx (getPeriodTransactions utc now txs "monthly")
      <-> In tx txs /\ firstOfMonth today <= date tx)
  /\ forall code,
       (In tx (matching code txs) <-> In tx txs /\ currencyCode tx = code)
       /\ calculateSummary txs code = calculateSummary (matching code txs) code.
Proof.
  intros today.
  destruct (getPeriodTransactions_days utc now txs) as [-> [-> ->]].
  rewrite localDay_utc. fold today.
  rewrite !filter_In, localDay_parse_utc, Z.eqb_eq, !Z.leb_le.
  split; [tauto |]. split; [tauto |]. split; [tauto |].
  intros code. split; [apply matching_In |].
  unfold calculateSummary. fold (matching code txs).
  fold (matching code (matching code txs)). now rewrite matching_idem.
Qed.

(** C6 on a host at UTC-07:00.  With the clock at noon of 2024-03-15 the
    monthly filter drops a transaction dated 2024-03-01; with the clock at
    noon of Wednesday 2024-03-13 the weekly filter drops a transaction
    dated Sunday 2024-03-10. *)
Theorem first_day_dropped_west_of_utc :
  firstOfMonth (isoDay 2024 3 15) = isoDay 2024 3 1
  /\ getPeriodTransactions utcMinus7 (localNoon utcMinus7 2024 3 15)
       [ gymTx "t1" (isoDay 2024 3 1) ] "monthly" = []
  /\ sundayOnOrBefore (isoDay 2024 3 13) = isoDay 2024 3 10
  /\ getPeriodTransactions utcMinus7 (localNoon utcMinus7 2024 3 13)
       [ gymTx "t1" (isoDay 2024 3 10) ] "weekly" = [].
Proof. repeat split; vm_compute; reflexivity. Qed.

(** ** The currency converter *)

Section ConverterFacts.
Local Open Scope float_scope.


End ConverterFacts.



(** ** The model-service wrappers *)

Section ServiceFacts.
Variable host : Host.

Lemma tryCatch_returns {A : Type} (body : Outcome A) (fallback : A) :
  exists v, tryCatch body (fun _ => Returns fallback) = Returns v.
Proof. destruct body; cbn; eauto. Qed.

Lemma tryCatch_throws {A : Type} (body : Outcome A) (fallback : A) e :
  body = Throws e -> tryCatch body (fun _ => Returns fallback) = Returns fallback.
Proof. now intros ->. Qed.

(** C9.  Both wrappers return in every case.  [categorizeTransaction]
    returns 'Others' when the key is missing, when the model call throws,
    when the answer has no text or does not parse, and when the parsed
    answer has no category (or a falsy one); [getSpendingInsights] returns
    the fixed message when the key is missing or the model call throws. *)
Theorem wrappers_degrade_gracefully :
  (forall description,
      exists v, categorizeTransaction host description = Returns v)
  /\ (forall description,
         getGeminiClient host = Throws
           "API_KEY is not defined in environment variables." ->
         categorizeTransaction host description = Returns (JString "Others"))
  /\ (forall description e,
         generateContent host (GEMINI_MODEL_TEXT host)
                         (categorizePrompt host description) = Throws e ->
         categorizeTransaction host description = Returns (JString "Others"))
  /\ (forall description response,
         generateContent host (GEMINI_MODEL_TEXT host)
                         (categorizePrompt host description)
         = Returns response ->
         (text response = None
          \/ (exists t e, text response = Some t
                          /\ JSON_parse host (trim host t) = Throws e)
          \/ (exists t result,
                 text response = Some t
                 /\ JSON_parse host (trim host t) = Returns result
                 /\ (getCategory result = Throws
                       "TypeError: Cannot read properties of null"
                     \/ exists c, getCategory result = Returns c
                                  /\ truthy c = false))) ->
         categorizeTransaction host description = Returns (JString "Others"))
  /\ (forall summary budgets code,
         exists v, getSpendingInsights host summary budgets code = Returns v)
  /\ (forall summary budgets code,
         getGeminiClient host = Throws
           "API_KEY is not defined in environment variables." ->
         getSpendingInsights host summary budgets code
         = Returns (Some insightsFallback))
  /\ (forall summary budgets code e,
         generateContent host (GEMINI_MODEL_TEXT host)
                         (insightsPrompt host summary budgets code)
         = Throws e ->
         getSpendingInsights host summary budgets code
         = Returns (Some insightsFallback)).
Proof.
  split; [| split; [| split; [| split; [| split; [| split]]]]].
  - intros description. apply tryCatch_returns.
  - intros description H. unfold categorizeTransaction. now rewrite H.
  - intros description e H. unfold categorizeTransaction.
    destruct (getGeminiClient host); cbn [bind tryCatch]; [| reflexivity].
    now rewrite H.
  - intros description response H Hcases. unfold categorizeTransaction.
    destruct (getGeminiClient host); cbn [bind tryCatch]; [| reflexivity].
    rewrite H. cbn [bind].
    destruct Hcases as [-> | [[t [e [-> Hp]]] | [t [result [-> [Hp Hc]]]]]];
      cbn [bind tryCatch]; [reflexivity | now rewrite Hp |].
    rewrite Hp. cbn [bind].
    destruct Hc as [-> | [c [-> Hc]]]; cbn [bind tryCatch];
      [reflexivity | now rewrite Hc].
  - intros summary budgets code. apply tryCatch_returns.
  - intros summary budgets code H. unfold getSpendingInsights. now rewrite H.
  - intros summary budgets code e H. unfold getSpendingInsights.
    destruct (getGeminiClient host); cbn [bind tryCatch]; [| reflexivity].
    now rewrite H.
Qed.
End ServiceFacts.

Lemma wrappers_degrade_gracefully_witness :
  generateContent failingHost (GEMINI_MODEL_TEXT failingHost)
                  (categorizePrompt failingHost "coffee")
  = Throws "503 Service Unavailable"
  /\ categorizeTransaction failingHost "coffee" = Returns (JString "Others").
Proof.
  split; [reflexivity |].
  destruct (wrappers_degrade_gracefully failingHost) as [_ [_ [H _]]].
  apply (H "coffee" "503 Service Unavailable"). reflexivity.
Defined.

(** The wrappers on two concrete hosts: a model call that always fails, and
    a model that answers with an object without a category. *)
Example categorize_failing_host :
  categorizeTransaction failingHost "coffee" = Returns (JString "Others").
Proof. reflexivity. Qed.

Example categorize_empty_answer :
  categorizeTransaction emptyAnswerHost "coffee" = Returns (JString "Others").
Proof. reflexivity. Qed.

Example insights_failing_host :
  getSpendingInsights failingHost (foodSummary 80) [foodBudget 100] "USD"
  = Returns (Some insightsFallback).
Proof. reflexivity. Qed.

(** * Further properties *)

(** ** Sets of ids *)

Section SetFacts.

Lemma setHas_In s x : setHas s x = true <-> In x s.
Proof.
  unfold setHas. rewrite existsb_exists. split.
  - intros [y [Hy E]]. apply String.eqb_eq in E. now subst.
  - intros H. exists x. split; [exact H | apply String.eqb_refl].
Qed.

Lemma setHas_false s x : setHas s x = false <-> ~ In x s.
Proof.
  rewrite <- setHas_In. destruct (setHas s x); split; intros H;
    try discriminate; try reflexivity; try easy.
Qed.

Lemma setAdd_In s x y : In y (setAdd s x) <-> In y s \/ y = x.
Proof.
  unfold setAdd. destruct (setHas s x) eqn:E.
  - apply setHas_In in E. split; [now left |].
    intros [H | ->]; assumption.
  - rewrite in_app_iff. cbn. intuition.
Qed.

Lemma setAdd_NoDup s x : NoDup s -> NoDup (setAdd s x).
Proof.
  intros H. unfold setAdd. destruct (setHas s x) eqn:E; [exact H |].
  apply setHas_false in E.
  apply NoDup_app; [exact H | repeat constructor; intros [] |].
  intros a Ha [<- | []]. contradiction.
Qed.

Lemma fold_setAdd l : forall s,
  NoDup s ->
  NoDup (fold_left setAdd l s)
  /\ forall y, In y (fold_left setAdd l s) <-> In y s \/ In y l.
Proof.
  induction l as [| x l IH]; intros s Hs; cbn [fold_left].
  - split; [exact Hs |]. intros y. cbn. intuition.
  - destruct (IH (setAdd s x) (setAdd_NoDup s x Hs)) as [H1 H2].
    split; [exact H1 |]. intros y. rewrite H2, setAdd_In. cbn. intuition.
Qed.

Lemma setOfList_NoDup l : NoDup (setOfList l).
Proof. apply fold_setAdd. constructor. Qed.

Lemma setOfList_In l y : In y (setOfList l) <-> In y l.
Proof.
  unfold setOfList.
  destruct (fold_setAdd l [] (NoDup_nil _)) as [_ H].
  rewrite H. cbn. intuition.
Qed.

Lemma setHas_setOfList l x : setHas (setOfList l) x = true <-> In x l.
Proof. now rewrite setHas_In, setOfList_In. Qed.

(** Copying a set gives the set: the elements in their order. *)
Lemma fold_setAdd_fresh l : forall s,
  NoDup (s ++ l) -> fold_left setAdd l s = s ++ l.
Proof.
  induction l as [| x l IH]; intros s H; cbn [fold_left].
  - now rewrite app_nil_r.
  - assert (setAdd s x = s ++ [x]) as ->.
    { unfold setAdd. apply NoDup_remove_2 in H.
      destruct (setHas s x) eqn:E; [| reflexivity].
      apply setHas_In in E. destruct H. apply in_app_iff. now left. }
    rewrite IH; rewrite <- app_assoc; [reflexivity | exact H].
Qed.

Lemma setOfList_NoDup_id l : NoDup l -> setOfList l = l.
Proof. intros H. unfold setOfList. now rewrite fold_setAdd_fresh. Qed.

Lemma setDelete_In s x y : In y (setDelete s x) <-> In y s /\ y <> x.
Proof.
  unfold setDelete. rewrite filter_In, negb_true_iff, String.eqb_neq.
  intuition.
Qed.

End SetFacts.

(** ** Deleting transactions (App) *)

Lemma handleDeleteTransaction_filter x txs :
  handleDeleteTransaction x txs
  = filter (fun tx => negb (existsb (String.eqb (id tx)) (idsOf x))) txs.
Proof.
  unfold handleDeleteTransaction. apply filter_ext. intros tx. f_equal.
  assert (forall l, setHas (setOfList l) (id tx)
                    = existsb (String.eqb (id tx)) l) as H.
  { intros l. destruct (existsb (String.eqb (id tx)) l) eqn:E.
    - apply setHas_setOfList. apply existsb_exists in E as [y [Hy E]].
      apply String.eqb_eq in E. now subst.
    - apply setHas_false. rewrite setOfList_In. intros Hin.
      assert (existsb (String.eqb (id tx)) l = true) as C
        by (apply existsb_exists; exists (id tx); split;
            [exact Hin | apply String.eqb_refl]).
      congruence. }
  destruct x; apply H.
Qed.

Lemma existsb_eqb_In (i : string) l :
  existsb (String.eqb i) l = true <-> In i l.
Proof.
  rewrite existsb_exists. split.
  - intros [y [Hy E]]. apply String.eqb_eq in E. now subst.
  - intros H. exists i. split; [exact H | apply String.eqb_refl].
Qed.

Lemma filter_filter {A : Type} (p q : A -> bool) l :
  filter p (filter q l) = filter (fun a => q a && p a) l.
Proof.
  induction l as [| a l IH]; cbn; [reflexivity |].
  destruct (q a); cbn; [destruct (p a) |]; now rewrite IH.
Qed.

(** X1.  [handleDeleteTransaction] keeps exactly the transactions whose id
    is not among the ids given, in the order and as often as they were in
    the list, whether the ids come as one string or as an array, with or
    without repetitions: its result is the list filtered by that test.
    Deleting in two calls is deleting the ids of both at once, so the
    order of two deletions does not matter and a repeated deletion changes
    nothing; and the ids that remain are distinct when they were. *)
Theorem delete_transactions x txs :
  handleDeleteTransaction x txs
  = filter (fun tx => negb (existsb (String.eqb (id tx)) (idsOf x))) txs
  /\ (forall tx, In tx (handleDeleteTransaction x txs)
                 <-> In tx txs /\ ~ In (id tx) (idsOf x))
  /\ (forall y, handleDeleteTransaction y (handleDeleteTransaction x txs)
                = handleDeleteTransaction (ManyIds (idsOf x ++ idsOf y)) txs)
  /\ (forall y, handleDeleteTransaction y (handleDeleteTransaction x txs)
                = handleDeleteTransaction x (handleDeleteTransaction y txs))
  /\ handleDeleteTransaction x (handleDeleteTransaction x txs)
     = handleDeleteTransaction x txs
  /\ (forall i, handleDeleteTransaction (OneId i) txs
                = handleDeleteTransaction (ManyIds [i; i]) txs)
  /\ (NoDup (map id txs) -> NoDup (map id (handleDeleteTransaction x txs))).
Proof.
  assert (forall a b l,
             handleDeleteTransaction b (handleDeleteTransaction a l)
             = handleDeleteTransaction (ManyIds (idsOf a ++ idsOf b)) l) as C.
  { intros a b l. rewrite !handleDeleteTransaction_filter, filter_filter.
    apply filter_ext. intros tx. cbn [idsOf].
    rewrite existsb_app. now destruct (existsb _ (idsOf a)). }
  assert (forall a b l,
             handleDeleteTransaction (ManyIds (a ++ b)) l
             = handleDeleteTransaction (ManyIds (b ++ a)) l) as S.
  { intros a b l. rewrite !handleDeleteTransaction_filter.
    apply filter_ext. intros tx. cbn [idsOf]. rewrite !existsb_app.
    now rewrite orb_comm. }
  split; [apply handleDeleteTransaction_filter |].
  split; [| split; [| split; [| split; [| split]]]].
  - intros tx. rewrite handleDeleteTransaction_filter, filter_In.
    rewrite negb_true_iff. rewrite <- existsb_eqb_In.
    now destruct (existsb _ (idsOf x)).
  - intros y. apply C.
  - intros y. now rewrite !C, S.
  - rewrite C, !handleDeleteTransaction_filter. apply filter_ext.
    intros tx. cbn [idsOf]. rewrite existsb_app.
    now destruct (existsb _ (idsOf x)).
  - intros i. rewrite !handleDeleteTransaction_filter. apply filter_ext.
    intros tx. cbn. now destruct (String.eqb (id tx) i).
  - intros H. rewrite handleDeleteTransaction_filter.
    now apply NoDup_map_filter.
Qed.

(** ** Saving a transaction (App) *)

Lemma map_replace_ids (tx : Transaction) prev :
  map id (map (fun t => if String.eqb (id t) (id tx) then tx else t) prev)
  = map id prev.
Proof.
  rewrite map_map. apply map_ext. intros t.
  destruct (String.eqb_spec (id t) (id tx)) as [E | E]; congruence.
Qed.

Lemma map_replace_absent (tx : Transaction) prev :
  ~ In (id tx) (map id prev) ->
  map (fun t => if String.eqb (id t) (id tx) then tx else t) prev = prev.
Proof.
  induction prev as [| t prev IH]; cbn; [reflexivity |].
  intros H. destruct (String.eqb_spec (id t) (id tx)) as [E | E].
  - destruct H. now left.
  - f_equal. apply IH. intros Hin. apply H. now right.
Qed.

Lemma map_replace_at (tx : Transaction) before old after :
  id old = id tx ->
  NoDup (map id (before ++ old :: after)) ->
  map (fun t => if String.eqb (id t) (id tx) then tx else t)
      (before ++ old :: after)
  = before ++ tx :: after.
Proof.
  intros E H. rewrite map_app. cbn [map].
  rewrite map_app in H. cbn [map] in H.
  pose proof (NoDup_remove_2 _ _ _ H) as Hnot.
  rewrite E in Hnot. rewrite E, String.eqb_refl.
  rewrite !map_replace_absent; [reflexivity | |];
    intros Hin; apply Hnot, in_app_iff; auto.
Qed.

(** X2.  Saving while a transaction is being edited replaces the stored
    transactions that carry the id of the one saved and nothing else: the
    ids and their order stay as they were, a list of distinct ids has
    exactly the edited entry replaced in its place, and when no stored
    transaction has that id the list is unchanged, the edit being dropped
    without a trace.  Saving while nothing is edited appends. *)
Theorem save_replaces_by_id e tx prev :
  map id (saveTransactionList (Some e) tx prev) = map id prev
  /\ (forall t, In t (saveTransactionList (Some e) tx prev)
                <-> (In t prev /\ id t <> id tx)
                    \/ (t = tx /\ In (id tx) (map id prev)))
  /\ (~ In (id tx) (map id prev)
      -> saveTransactionList (Some e) tx prev = prev)
  /\ (forall before old after,
         prev = before ++ old :: after -> id old = id tx ->
         NoDup (map id prev) ->
         saveTransactionList (Some e) tx prev = before ++ tx :: after)
  /\ saveTransactionList None tx prev = prev ++ [tx].
Proof.
  cbn [saveTransactionList].
  split; [apply map_replace_ids |].
  split; [| split; [apply map_replace_absent | split; [| reflexivity]]].
  - intros t. rewrite in_map_iff. split.
    + intros [u [E Hu]].
      destruct (String.eqb_spec (id u) (id tx)) as [I | I].
      * right. split; [now subst |]. apply in_map_iff. now exists u.
      * left. subst. auto.
    + intros [[Ht I] | [-> Hin]].
      * exists t. split; [| exact Ht]. apply String.eqb_neq in I.
        now rewrite I.
      * apply in_map_iff in Hin as [u [E Hu]]. exists u.
        split; [| exact Hu]. now rewrite E, String.eqb_refl.
  - intros before old after -> E H. now apply map_replace_at.
Qed.

(** ** Remembered categories (App, the two forms) *)

Section OverrideFacts.
Variable toLowerCase : string -> string.

Lemma upsertOverride_split d c l :
  (exists before old after,
      l = before ++ old :: after
      /\ sameDescription toLowerCase d old = true
      /\ (forall o, In o before -> sameDescription toLowerCase d o = false)
      /\ upsertOverride toLowerCase d c l = before ++ Ovr.mk d c :: after)
  \/ ((forall o, In o l -> sameDescription toLowerCase d o = false)
      /\ upsertOverride toLowerCase d c l = l ++ [Ovr.mk d c]).
Proof.
  unfold upsertOverride. fold (sameDescription toLowerCase d).
  induction l as [| o l IH]; cbn [findIndex].
  - right. split; [intros o [] | reflexivity].
  - destruct (sameDescription toLowerCase d o) eqn:E.
    + left. exists [], o, l. cbn. repeat split; auto. intros ? [].
    + destruct IH as [[before [old [after [-> [H1 [H2 H3]]]]]] | [H1 H2]].
      * left. exists (o :: before), old, after.
        split; [reflexivity |]. split; [exact H1 |].
        split; [intros u [<- | Hu]; auto |].
        destruct (findIndex _ (before ++ old :: after));
          cbn [option_map setAt app]; f_equal; exact H3.
      * right. split; [intros u [<- | Hu]; auto |].
        destruct (findIndex _ l);
          cbn [option_map setAt app]; f_equal; exact H2.
Qed.

Lemma find_app_none {A : Type} (p : A -> bool) l l' :
  (forall a, In a l -> p a = false) -> find p (l ++ l') = find p l'.
Proof.
  induction l as [| a l IH]; cbn; [reflexivity |]. intros H.
  rewrite (H a) by now left. apply IH. intros b Hb. apply H. now right.
Qed.

Lemma findOverride_upsert_same d c l d' :
  toLowerCase d' = toLowerCase d ->
  findOverride toLowerCase (upsertOverride toLowerCase d c l) d'
  = Some (Ovr.mk d c).
Proof.
  intros E. unfold findOverride.
  assert (forall o, sameDescription toLowerCase d o
                    = String.eqb (toLowerCase (Ovr.description o))
                                 (toLowerCase d')) as U
    by (intros o; unfold sameDescription; now rewrite E).
  destruct (upsertOverride_split d c l)
    as [[before [old [after [-> [_ [H2 ->]]]]]] | [H1 ->]];
    (rewrite find_app_none;
     [cbn; now rewrite E, String.eqb_refl |]).
  - intros o Ho. rewrite <- U. now apply H2.
  - intros o Ho. rewrite <- U. now apply H1.
Qed.

(** X3.  The category remembered for a description is the one found for
    it afterwards: after [upsertOverride] the lookup of the forms, for any
    description that lower-cases to the same text, returns the pair just
    written; the lookup of every other description returns what it returned
    before; the list grows by one entry when the description was not
    remembered and keeps its length when it was. *)
Theorem override_round_trip d c l :
  (forall d', toLowerCase d' = toLowerCase d ->
              findOverride toLowerCase (upsertOverride toLowerCase d c l) d'
              = Some (Ovr.mk d c))
  /\ (forall d', toLowerCase d' <> toLowerCase d ->
                 findOverride toLowerCase (upsertOverride toLowerCase d c l) d'
                 = findOverride toLowerCase l d')
  /\ List.length (upsertOverride toLowerCase d c l)
     = match findOverride toLowerCase l d with
       | Some _ => List.length l
       | None => S (List.length l)
       end.
Proof.
  split; [intros d'; apply findOverride_upsert_same |].
  unfold findOverride.
  assert (forall d' o, sameDescription toLowerCase d' o
                       = String.eqb (toLowerCase (Ovr.description o))
                                    (toLowerCase d')) as U by reflexivity.
  destruct (upsertOverride_split d c l)
    as [[before [old [after [-> [H1 [H2 ->]]]]]] | [H1 ->]].
  - split.
    + intros d' E.
      assert (forall o, sameDescription toLowerCase d o = true ->
                        sameDescription toLowerCase d' o = false) as N.
      { intros o Ho. unfold sameDescription in *.
        apply String.eqb_eq in Ho. rewrite Ho. apply String.eqb_neq.
        congruence. }
      induction before as [| b before IH]; cbn.
      * rewrite <- !U. rewrite (N old H1).
        unfold sameDescription. cbn.
        apply String.eqb_neq in E. rewrite String.eqb_sym in E.
        now rewrite E.
      * rewrite IH; [reflexivity |]. intros o Ho. apply H2. now right.
    + rewrite find_app_none by (intros o Ho; rewrite <- U; now apply H2).
      cbn. rewrite <- U, H1. now rewrite !length_app.
  - split.
    + intros d' E. induction l as [| o l IH]; cbn.
      * apply String.eqb_neq in E. rewrite String.eqb_sym in E.
        now rewrite E.
      * destruct (String.eqb _ (toLowerCase d')); [reflexivity |].
        apply IH. intros u Hu. apply H1. now right.
    + replace (find _ l) with (@None CategoryOverride).
      * rewrite length_app. cbn. lia.
      * symmetry. rewrite <- (app_nil_r l). rewrite find_app_none.
        -- reflexivity.
        -- intros o Ho. rewrite <- U. now apply H1.
Qed.
End OverrideFacts.

(** ** The two forms *)

Section FormFacts.
Variable host : Host.
Variable toLowerCase : string -> string.
Variable nowString : string.
Variable codeUnits : string -> nat.

(** X4.  [handleSubmit] calls [onSave] exactly for a valid form, and what
    it hands over is what the form holds, validated: the description
    trimmed and not empty, the amount the one entered and positive, the
    date the one entered, the notes the trimmed notes of the form, absent
    when these are empty, the type, the category and the currency those
    selected, the id that of the transaction edited when it has one and
    the clock's otherwise.  An invalid form is rejected with the message
    of the first failing check, description before amount before date. *)
Theorem submit_validates initialData f :
  match handleSubmit host nowString initialData f with
  | Saved tx ai oc =>
      validForm host f
      /\ description tx = trim host (Form.description f)
      /\ description tx <> ""
      /\ Form.amount f = Entered (amount tx) /\ numLtb 0 (amount tx) = true
      /\ Form.date f = Some (date tx)
      /\ notes tx = (if String.eqb (trim host (Form.notes f)) "" then None
                     else Some (trim host (Form.notes f)))
      /\ notes tx <> Some ""
      /\ type tx = Form.type f
      /\ category tx = Form.category f
      /\ currencyCode tx = Form.currencyCode f
      /\ id tx = match initialData with
                 | Some t => if String.eqb (id t) "" then nowString else id t
                 | None => nowString
                 end
      /\ ai = Form.aiSuggestedCategory f
  | Rejected message =>
      ~ validForm host f
      /\ message
         = if String.eqb (trim host (Form.description f)) ""
           then "Description is required."
           else match Form.amount f with
                | Blank => "Amount must be a positive number."
                | Entered n =>
                    if numLtb 0 n
                    then "Date is required."
                    else "Amount must be a positive number."
                end
  end.
Proof.
  unfold handleSubmit, validForm.
  destruct (String.eqb_spec (trim host (Form.description f)) "") as [D | D].
  { split; [| reflexivity]. intros [H _]. contradiction. }
  destruct (Form.amount f) as [| n] eqn:A.
  { split; [| reflexivity]. intros [_ [[n [H _]] _]]. discriminate. }
  rewrite positive_test.
  destruct (numLtb 0 n) eqn:L; cbn [negb].
  2:{ split; [| reflexivity]. intros [_ [[m [[= <-] H]] _]]. congruence. }
  destruct (Form.date f) as [d |] eqn:Dt.
  - cbn [id description amount date notes type category currencyCode].
    split; [split; [exact D | split; [now exists n | discriminate]] |].
    split; [reflexivity |]. split; [exact D |].
    split; [reflexivity |]. split; [exact L |].
    split; [reflexivity |].
    split; [reflexivity |].
    split.
    + unfold trimmedNotes.
      destruct (String.eqb_spec (trim host (Form.notes f)) "") as [N | N];
        congruence.
    + do 3 (split; [reflexivity |]).
      split; [| reflexivity]. now destruct initialData.
  - split; [| reflexivity]. intros [_ [_ H]]. now apply H.
Qed.

Lemma handleSubmit_saved initialData f tx ai oc :
  handleSubmit host nowString initialData f = Saved tx ai oc ->
  id tx = match initialData with
          | Some t => orString (id t) nowString
          | None => nowString
          end
  /\ description tx = trim host (Form.description f)
  /\ category tx = Form.category f
  /\ ai = Form.aiSuggestedCategory f
  /\ oc = shouldRecordOverride f.
Proof.
  unfold handleSubmit.
  destruct (String.eqb _ ""); [discriminate |].
  destruct (Form.amount f) as [| n]; [discriminate |].
  destruct (numIsNaN n || numLeb n 0); [discriminate |].
  destruct (Form.date f); [| discriminate].
  intros [= <- <- <-]. cbn. auto.
Qed.

(** X5.  An edit made in the form lands on the transaction edited: when
    the form edits a stored transaction whose id is not empty and the
    stored ids are distinct, what a successful submission stores through
    [handleSaveTransaction] is the list with that one transaction replaced,
    in its place and under its id, by the one the form built. *)
Theorem edit_lands_in_place t f tx ai oc st before after :
  handleSubmit host nowString (Some t) f = Saved tx ai oc ->
  id t <> "" ->
  storedTransactions st = before ++ t :: after ->
  NoDup (map id (storedTransactions st)) ->
  storedTransactions (handleSaveTransaction toLowerCase (Some t) tx ai oc st)
  = before ++ tx :: after
  /\ id tx = id t.
Proof.
  intros H Hid Hst Hnd. apply handleSubmit_saved in H as [Hi _].
  assert (id tx = id t) as E.
  { rewrite Hi. unfold orString. apply String.eqb_neq in Hid.
    now rewrite Hid. }
  split; [| exact E].
  cbn [handleSaveTransaction storedTransactions saveTransactionList].
  rewrite Hst in *. apply map_replace_at; [now symmetry | exact Hnd].
Qed.

(** X6.  A category is remembered exactly when the user confirmed it:
    after a successful submission [handleSaveTransaction] writes the pair
    of the trimmed description and the chosen category into the overrides
    if the confirmation flag is set, a suggestion exists and the chosen
    category differs from it, and leaves the overrides alone otherwise. *)
Theorem override_recorded_iff_confirmed initialData e f tx ai oc st :
  handleSubmit host nowString initialData f = Saved tx ai oc ->
  storedOverrides (handleSaveTransaction toLowerCase e tx ai oc st)
  = if Form.isCategoryOverrideConfirmed f
       && nonEmpty (Form.aiSuggestedCategory f)
       && negb (match Form.aiSuggestedCategory f with
                | Some a => String.eqb (Form.category f) a
                | None => false
                end)
    then upsertOverride toLowerCase (trim host (Form.description f))
                        (Form.category f) (storedOverrides st)
    else storedOverrides st.
Proof.
  intros H. apply handleSubmit_saved in H as [_ [Hd [Hc [-> ->]]]].
  cbn [handleSaveTransaction storedOverrides].
  unfold recordsOverride, shouldRecordOverride. rewrite Hc, Hd.
  destruct (Form.isCategoryOverrideConfirmed f),
    (nonEmpty (Form.aiSuggestedCategory f)),
    (Form.aiSuggestedCategory f) as [a |];
    cbn; try reflexivity;
    destruct (String.eqb (Form.category f) a); reflexivity.
Qed.

Lemma categorizeTransaction_returns description :
  exists v, categorizeTransaction host description = Returns v.
Proof.
  unfold categorizeTransaction, tryCatch.
  match goal with |- context [match ?b with _ => _ end] => destruct b end;
    eauto.
Qed.

(** X7.  [handleDescriptionChange] never throws, whatever the model call
    does; it leaves the category alone when the form edits an existing
    entry; a description whose trimmed text has a length of at most three,
    as the host counts it in UTF-16 code units, resets the category to
    Others and forgets the suggestion; and a longer description that was
    remembered gets its remembered category without the model being
    asked. *)
Theorem description_change (A : Type) (initialData : option A)
        overrides newDescription :
  (exists u, handleDescriptionChange host toLowerCase codeUnits initialData
                                     overrides newDescription = Returns u)
  /\ (initialData <> None ->
      handleDescriptionChange host toLowerCase codeUnits initialData
                              overrides newDescription = Returns Untouched)
  /\ (initialData = None ->
      (codeUnits (trim host newDescription) <= 3)%nat ->
      handleDescriptionChange host toLowerCase codeUnits initialData
                              overrides newDescription
      = Returns (SetBoth (JString "Others") JUndefined))
  /\ (forall d c l,
         initialData = None ->
         (3 < codeUnits (trim host newDescription))%nat ->
         toLowerCase newDescription = toLowerCase d ->
         overrides = upsertOverride toLowerCase d c l ->
         handleDescriptionChange host toLowerCase codeUnits initialData
                                 overrides newDescription
         = Returns (SetBoth (JString c) (JString c))).
Proof.
  unfold handleDescriptionChange.
  split; [| split; [| split]].
  - destruct initialData; [eauto |].
    destruct (Nat.ltb 3 _); [| eauto].
    destruct (findOverride _ _ _); [eauto |].
    destruct (categorizeTransaction_returns newDescription) as [v ->].
    cbn. eauto.
  - destruct initialData; [reflexivity | congruence].
  - intros -> H. apply Nat.ltb_ge in H. now rewrite H.
  - intros d c l -> H E ->. apply Nat.ltb_lt in H. rewrite H.
    now rewrite (findOverride_upsert_same toLowerCase d c l newDescription E).
Qed.

(** X8.  The recurring form never moves the next occurrence of a rule it
    edits: a successful submission keeps the next-occurrence date of the
    rule edited, whatever start date was entered, and keeps its id when
    that is not empty; for a new rule the next occurrence is the start
    date entered.  The rule saved has a positive amount and a description
    that is not empty. *)
Theorem recurring_submit_next_occurrence initialData f rt ai oc :
  handleSubmitRecurring host nowString initialData f = Saved rt ai oc ->
  Form.date f = Some (Rule.startDate rt)
  /\ Rule.nextOccurrenceDate rt
     = match initialData with
       | Some r => Rule.nextOccurrenceDate r
       | None => Rule.startDate rt
       end
  /\ Rule.id rt
     = match initialData with
       | Some r => if String.eqb (Rule.id r) "" then nowString else Rule.id r
       | None => nowString
       end
  /\ numLtb 0 (Rule.amount rt) = true
  /\ Rule.description rt <> "".
Proof.
  unfold handleSubmitRecurring.
  destruct (String.eqb_spec (trim host (Form.description f)) "") as [D | D];
    [discriminate |].
  destruct (Form.amount f) as [| n]; [discriminate |].
  rewrite positive_test.
  destruct (numLtb 0 n) eqn:L; [| discriminate]. cbn [negb].
  destruct (Form.date f); [| discriminate].
  intros [= <- _ _]. cbn.
  repeat split; try assumption; now destruct initialData.
Qed.
End FormFacts.

(** ** Budgets (App, BudgetManager) *)

Lemma budget_replace_absent (b : Budget) prev :
  (forall b', In b' prev ->
              String.eqb (Bud.category b') (Bud.category b) = false) ->
  map (fun b' => if String.eqb (Bud.category b') (Bud.category b) then b
                 else b') prev = prev.
Proof.
  induction prev as [| a prev IH]; cbn; [reflexivity |]. intros H.
  rewrite (H a) by now left. f_equal. apply IH. intros b' Hb. apply H.
  now right.
Qed.

Lemma find_none_iff {A : Type} (p : A -> bool) l :
  find p l = None <-> forall a, In a l -> p a = false.
Proof.
  split; [apply find_none |].
  induction l as [| a l IH]; cbn; [reflexivity |]. intros H.
  rewrite (H a) by now left. apply IH. intros b Hb. apply H. now right.
Qed.

Lemma handleSaveBudget_categories b prev :
  map Bud.category (handleSaveBudget b prev)
  = match budgetOf prev (Bud.category b) with
    | Some _ => map Bud.category prev
    | None => map Bud.category prev ++ [Bud.category b]
    end.
Proof.
  unfold handleSaveBudget, budgetOf.
  destruct (find _ prev); [| now rewrite map_app].
  rewrite map_map. apply map_ext. intros a.
  destruct (String.eqb_spec (Bud.category a) (Bud.category b)); congruence.
Qed.

Lemma budgetOf_save_same b prev :
  budgetOf (handleSaveBudget b prev) (Bud.category b) = Some b.
Proof.
  unfold handleSaveBudget, budgetOf.
  destruct (find _ prev) as [a |] eqn:F.
  - induction prev as [| a' prev IH]; [discriminate |]. cbn in *.
    destruct (String.eqb (Bud.category a') (Bud.category b)) eqn:E.
    + now rewrite String.eqb_refl.
    + rewrite E. now apply IH.
  - rewrite find_app_none by now apply find_none_iff.
    cbn. now rewrite String.eqb_refl.
Qed.

Lemma budgetOf_save_other b prev c :
  c <> Bud.category b ->
  budgetOf (handleSaveBudget b prev) c = budgetOf prev c.
Proof.
  intros N. apply String.eqb_neq in N. rewrite String.eqb_sym in N.
  unfold handleSaveBudget, budgetOf.
  destruct (find _ prev) as [a |] eqn:F; clear F.
  - induction prev as [| a' prev IH]; [reflexivity |]. cbn.
    destruct (String.eqb_spec (Bud.category a') (Bud.category b)) as [E | E].
    + rewrite E, N. exact IH.
    + destruct (String.eqb (Bud.category a') c); [reflexivity | exact IH].
  - induction prev as [| a' prev IH]; cbn; [now rewrite N |].
    destruct (String.eqb (Bud.category a') c); [reflexivity | exact IH].
Qed.

(** X9.  [handleSaveBudget] sets the budget of one category: afterwards
    the lookup of the saved category returns the saved budget and the
    lookup of every other category returns what it returned before; the
    categories keep their order, with the saved one added at the end if it
    had no budget, so that they stay distinct when they were; and saving a
    second budget for the same category leaves only the second. *)
Theorem save_budget_sets_one_category b prev :
  budgetOf (handleSaveBudget b prev) (Bud.category b) = Some b
  /\ (forall c, c <> Bud.category b ->
                budgetOf (handleSaveBudget b prev) c = budgetOf prev c)
  /\ map Bud.category (handleSaveBudget b prev)
     = match budgetOf prev (Bud.category b) with
       | Some _ => map Bud.category prev
       | None => map Bud.category prev ++ [Bud.category b]
       end
  /\ (NoDup (map Bud.category prev) ->
      NoDup (map Bud.category (handleSaveBudget b prev)))
  /\ (forall b', Bud.category b' = Bud.category b ->
                 handleSaveBudget b' (handleSaveBudget b prev)
                 = handleSaveBudget b' prev).
Proof.
  split; [apply budgetOf_save_same |].
  split; [intros c; apply budgetOf_save_other |].
  split; [apply handleSaveBudget_categories |].
  split.
  - intros H. rewrite handleSaveBudget_categories.
    destruct (budgetOf prev (Bud.category b)) eqn:F; [exact H |].
    apply NoDup_app; [exact H | repeat constructor; intros [] |].
    intros c Hc [<- | []].
    apply in_map_iff in Hc as [a [E Ha]].
    unfold budgetOf in F. apply find_none with (x := a) in F; [| exact Ha].
    apply String.eqb_neq in F. congruence.
  - intros b' E. unfold handleSaveBudget at 1 3.
    fold (budgetOf (handleSaveBudget b prev) (Bud.category b')).
    fold (budgetOf prev (Bud.category b')).
    rewrite E, budgetOf_save_same.
    unfold handleSaveBudget, budgetOf.
    destruct (find _ prev) as [a |] eqn:F.
    + rewrite map_map. apply map_ext. intros x.
      destruct (String.eqb_spec (Bud.category x) (Bud.category b)) as [X | X].
      * now rewrite String.eqb_refl.
      * apply String.eqb_neq in X. now rewrite X.
    + rewrite map_app. cbn. rewrite String.eqb_refl. rewrite <- E in *.
      rewrite budget_replace_absent; [reflexivity |].
      now apply find_none_iff.
Qed.

(** X10.  [handleDeleteBudget] removes the budget of one category and no
    other: afterwards the category has no budget, every other category has
    the budget it had, and deleting a category whose budget was just saved
    gives the list that deleting it before the save gives. *)
Theorem delete_budget_removes_one_category c prev :
  budgetOf (handleDeleteBudget c prev) c = None
  /\ (forall c', c' <> c ->
                 budgetOf (handleDeleteBudget c prev) c' = budgetOf prev c')
  /\ (forall b, Bud.category b = c ->
                handleDeleteBudget c (handleSaveBudget b prev)
                = handleDeleteBudget c prev)
  /\ (budgetOf prev c = None -> handleDeleteBudget c prev = prev).
Proof.
  unfold handleDeleteBudget, budgetOf.
  split; [| split; [| split]].
  - apply find_none_iff. intros a Ha. apply filter_In in Ha as [_ Ha].
    now apply negb_true_iff.
  - intros c' N. induction prev as [| a prev IH]; [reflexivity |]. cbn.
    destruct (String.eqb_spec (Bud.category a) c) as [E | E]; cbn.
    + apply String.eqb_neq in N. rewrite String.eqb_sym in N.
      rewrite E, N. exact IH.
    + destruct (String.eqb (Bud.category a) c'); [reflexivity | exact IH].
  - intros b <-. unfold handleSaveBudget.
    destruct (find _ prev) as [a |] eqn:F; clear F.
    + induction prev as [| a' prev IH]; [reflexivity |]. cbn.
      destruct (String.eqb_spec (Bud.category a') (Bud.category b))
        as [E | E]; cbn.
      * rewrite String.eqb_refl. cbn. exact IH.
      * apply String.eqb_neq in E. rewrite E. cbn. now rewrite IH.
    + rewrite filter_app. cbn. rewrite String.eqb_refl. cbn.
      apply app_nil_r.
  - intros F. induction prev as [| a prev IH]; [reflexivity |].
    cbn in *. destruct (String.eqb (Bud.category a) c); [discriminate |].
    cbn. f_equal. now apply IH.
Qed.

Section BudgetManagerFacts.
Variable firstCategory : string.
Variable otherCategories : list string.

(** X11.  The budget form leaves the budgets alone when no amount is
    entered or the amount is 0 or less, and saves every other amount: the
    positive ones, and NaN, which its test lets through.  After a save it
    selects the first default category again, also when that category has
    a budget and is therefore not among the options the select offers.  A
    further positive amount entered and saved without choosing a category
    then lands on the first default category, replacing the budget it had,
    and the number of budgets does not grow. *)
Theorem budget_form_saves s budgets :
  match BM.amount s with
  | Entered n =>
      if numLeb n 0 then snd (handleSave firstCategory s budgets) = budgets
      else
        let s' := fst (handleSave firstCategory s budgets) in
        let budgets' := snd (handleSave firstCategory s budgets) in
        (numLtb 0 n = true \/ numIsNaN n = true)
        /\ budgetOf budgets' (BM.selectedCategory s)
           = Some (Bud.mk (BM.selectedCategory s) n)
        /\ BM.selectedCategory s' = firstCategory
        /\ (budgetOf budgets' firstCategory <> None ->
            ~ In (BM.selectedCategory s')
                 (availableCategories firstCategory otherCategories
                                      s' budgets'))
        /\ forall m, numLtb 0 m = true ->
             let budgets'' :=
               snd (handleSave firstCategory (enterAmount (Entered m) s')
                               budgets') in
             budgetOf budgets'' firstCategory = Some (Bud.mk firstCategory m)
             /\ (budgetOf budgets' firstCategory <> None ->
                 List.length budgets'' = List.length budgets')
  | Blank => snd (handleSave firstCategory s budgets) = budgets
  end.
Proof.
  unfold handleSave.
  destruct (BM.amount s) as [| n]; [reflexivity |].
  destruct (numLeb n 0) eqn:L; [reflexivity |].
  apply numLeb_false in L. cbn [fst snd BM.selectedCategory].
  split; [exact L |].
  split; [apply (budgetOf_save_same (Bud.mk (BM.selectedCategory s) n)) |].
  split; [reflexivity |].
  split.
  - intros H Hin. unfold availableCategories in Hin.
    apply filter_In in Hin as [_ Hin]. cbn [BM.editingBudget] in Hin.
    rewrite orb_false_r in Hin. apply negb_true_iff in Hin.
    apply H. apply find_none_iff. intros a Ha.
    destruct (String.eqb (Bud.category a) firstCategory) eqn:E;
      [| reflexivity].
    assert (existsb (fun b => String.eqb (Bud.category b) firstCategory)
                    (handleSaveBudget (Bud.mk (BM.selectedCategory s) n)
                                      budgets) = true) as C
      by (apply existsb_exists; now exists a).
    congruence.
  - intros m Hm. cbn [enterAmount BM.amount BM.selectedCategory].
    apply positive_spec in Hm as [_ Hm]. rewrite Hm. cbn [snd].
    split; [apply (budgetOf_save_same (Bud.mk firstCategory m)) |].
    intros H. rewrite <- (length_map Bud.category).
    rewrite handleSaveBudget_categories. cbn [Bud.category].
    destruct (budgetOf _ firstCategory); [apply length_map | now destruct H].
Qed.
End BudgetManagerFacts.

(** ** The transaction list *)

Section ListFilterFacts.
Variable tz : Z.
Hypothesis tz_range : - JSDate.msPerDay < tz < JSDate.msPerDay.

Lemma start_of_day_cut s d :
  (JSDate.getTime (JSDate.parse d) <? setHours tz (JSDate.parse s) 0 0 0 0)
  = (d <? s).
Proof.
  unfold setHours, MakeTime, JSDate.getTime, JSDate.parse, JSDate.UTC,
    JSDate.MakeDate, JSDate.Day, JSDate.LocalTime, JSDate.msPerDay in *.
  JSDateFacts.zbool; try reflexivity; exfalso; JSDateFacts.zdiv.
Qed.

Lemma end_of_day_cut e d :
  (setHours tz (JSDate.parse e) 23 59 59 999 <? JSDate.getTime (JSDate.parse d))
  = (e <? d).
Proof.
  unfold setHours, MakeTime, JSDate.getTime, JSDate.parse, JSDate.UTC,
    JSDate.MakeDate, JSDate.Day, JSDate.LocalTime, JSDate.msPerDay in *.
  JSDateFacts.zbool; try reflexivity; exfalso; JSDateFacts.zdiv.
Qed.

Lemma typeEqb_eq a b : typeEqb a b = true <-> a = b.
Proof. destruct a, b; cbn; split; congruence. Qed.

(** X12.  In every zone whose offset from UTC is less than a day the
    filters of the list select by calendar day: a transaction is listed
    exactly when it is of the type asked for, in the currency asked for,
    dated on or after the start date and on or before the end date, each
    condition only if its filter is set.  The two bounds are inclusive, and
    the zone of the host has no influence on them. *)
Theorem list_filters_by_day f t :
  matchesFilters tz f t = true <-> withinFilters f t.
Proof.
  unfold matchesFilters, withinFilters.
  assert ((match TL.filterType f with
           | Some ty => typeEqb (type t) ty
           | None => true
           end = true)
          <-> forall ty, TL.filterType f = Some ty -> type t = ty) as HT.
  { destruct (TL.filterType f) as [ty |].
    - rewrite typeEqb_eq. split; [now intros -> ? [= <-] | auto].
    - split; [discriminate | reflexivity]. }
  assert (((if String.eqb (TL.filterCurrency f) "ALL" then true
            else String.eqb (currencyCode t) (TL.filterCurrency f)) = true)
          <-> (TL.filterCurrency f <> "ALL" ->
               currencyCode t = TL.filterCurrency f)) as HC.
  { destruct (String.eqb_spec (TL.filterCurrency f) "ALL") as [E | E].
    - split; [contradiction | reflexivity].
    - rewrite String.eqb_eq. split; auto. }
  assert ((match TL.endDate f with
           | Some endDate =>
               if setHours tz (JSDate.parse endDate) 23 59 59 999
                  <? JSDate.getTime (JSDate.parse (date t))
               then false
               else match TL.startDate f with
                    | Some startDate =>
                        if JSDate.getTime (JSDate.parse (date t))
                           <? setHours tz (JSDate.parse startDate) 0 0 0 0
                        then false else true
                    | None => true
                    end
           | None => match TL.startDate f with
                     | Some startDate =>
                         if JSDate.getTime (JSDate.parse (date t))
                            <? setHours tz (JSDate.parse startDate) 0 0 0 0
                         then false else true
                     | None => true
                     end
           end = true)
          <-> (forall s, TL.startDate f = Some s -> s <= date t)
              /\ (forall e, TL.endDate f = Some e -> date t <= e)) as HD.
  { destruct (TL.startDate f) as [s |], (TL.endDate f) as [e |];
      rewrite ?start_of_day_cut, ?end_of_day_cut.
    - destruct (Z.ltb_spec e (date t)) as [E | E];
        [| destruct (Z.ltb_spec (date t) s) as [S | S]]; split.
      + discriminate.
      + intros [_ H]. specialize (H e eq_refl). lia.
      + discriminate.
      + intros [H _]. specialize (H s eq_refl). lia.
      + intros _. split; intros ? [= <-]; lia.
      + reflexivity.
    - destruct (Z.ltb_spec (date t) s) as [S | S]; split.
      + discriminate.
      + intros [H _]. specialize (H s eq_refl). lia.
      + intros _. split; [intros ? [= <-]; lia | discriminate].
      + reflexivity.
    - destruct (Z.ltb_spec e (date t)) as [E | E]; split.
      + discriminate.
      + intros [_ H]. specialize (H e eq_refl). lia.
      + intros _. split; [discriminate | intros ? [= <-]; lia].
      + reflexivity.
    - split; [| reflexivity]. intros _. split; discriminate. }
  cbv zeta. rewrite !andb_true_iff, HT, HC, HD. tauto.
Qed.
End ListFilterFacts.

Section ListSortFacts.
Variable localeCompare : string -> string -> Z.
Hypothesis localeCompare_total :
  forall a b, 0 < localeCompare a b -> localeCompare b a <= 0.

Lemma compareListed_total o a b :
  0 < compareListed localeCompare o a b ->
  compareListed localeCompare o b a <= 0.
Proof.
  unfold compareListed, JSDate.getTime, JSDate.parse, JSDate.msPerDay.
  destruct (Z.eqb_spec (date a * 86400000) (date b * 86400000)) as [E | E];
    destruct (Z.eqb_spec (date b * 86400000) (date a * 86400000)) as [F | F];
    try lia; [apply localeCompare_total | destruct o; lia].
Qed.

Lemma compareListed_order o a b :
  compareListed localeCompare o a b <= 0 <-> listedOrder localeCompare o a b.
Proof.
  unfold compareListed, listedOrder, JSDate.getTime, JSDate.parse,
    JSDate.msPerDay.
  destruct (Z.eqb_spec (date a * 86400000) (date b * 86400000)) as [E | E].
  - split; intros H.
    + right. split; [lia | exact H].
    + destruct H as [H | [_ H]]; [destruct o; lia | exact H].
  - split; intros H.
    + left. destruct o; lia.
    + destruct H as [H | [H _]]; destruct o; lia.
Qed.

(** X13.  The list shows the filtered transactions, each as often as it
    occurs, ordered by date in the direction chosen; transactions of one
    date follow each other by the host's comparison of their ids, ascending
    in both directions, so that the descending list is not the ascending
    one reversed. *)
Theorem listed_in_order o filtered :
  Permutation (sortedTransactions localeCompare o filtered) filtered
  /\ Sorted (listedOrder localeCompare o)
            (sortedTransactions localeCompare o filtered)
  /\ StronglySorted (fun a b => match o with
                                | asc => date a <= date b
                                | desc => date b <= date a
                                end)
                    (sortedTransactions localeCompare o filtered).
Proof.
  assert (Sorted (listedOrder localeCompare o)
                 (sortedTransactions localeCompare o filtered)) as S.
  { apply Sorted_impl with (R := fun a b =>
                                   compareListed localeCompare o a b <= 0).
    - intros a b. apply compareListed_order.
    - apply sortBy_sorted. intros a b. apply compareListed_total. }
  split; [apply sortBy_perm | split; [exact S |]].
  apply Sorted_StronglySorted.
  - intros a b c. destruct o; lia.
  - revert S. apply Sorted_impl. intros a b [H | [H _]]; destruct o; lia.
Qed.
End ListSortFacts.

Section SelectionFacts.

Lemma setOfList_length l :
  (List.length (setOfList l) <= List.length l)%nat
  /\ (List.length (setOfList l) = List.length l <-> NoDup l).
Proof.
  assert (incl (setOfList l) l) as I by (intros x; apply setOfList_In).
  split; [apply NoDup_incl_length; [apply setOfList_NoDup | exact I] |].
  split.
  - intros E. apply NoDup_incl_NoDup with (l := setOfList l).
    + apply setOfList_NoDup.
    + lia.
    + exact I.
  - intros H. now rewrite setOfList_NoDup_id.
Qed.

Lemma same_length_incl (l l' : list string) :
  NoDup l -> NoDup l' -> incl l l' ->
  (List.length l = List.length l' <-> incl l' l).
Proof.
  intros Hl Hl' I. split.
  - intros E. apply NoDup_length_incl; [exact Hl | lia | exact I].
  - intros I'. apply Nat.le_antisymm; now apply NoDup_incl_length.
Qed.

(** X14.  The selection of the list is a set of ids that follows the
    check boxes: checking an id adds it and unchecking removes it, leaving
    the other ids as they are; the effect that follows a change of the list
    keeps exactly the selected ids that are still listed.  With distinct
    listed ids and a selection among them, the header box shows all
    selected exactly when the list is not empty and every listed
    transaction is selected, and shows the mixed state exactly when some
    but not all are.  After select-all it shows all selected exactly when
    the list is not empty and no two listed transactions share an id. *)
Theorem selection_follows_the_boxes shown selected :
  NoDup selected ->
  (forall i j,
      NoDup (handleSelectTransaction i true selected)
      /\ NoDup (handleSelectTransaction i false selected)
      /\ (In j (handleSelectTransaction i true selected)
          <-> In j selected \/ j = i)
      /\ (In j (handleSelectTransaction i false selected)
          <-> In j selected /\ j <> i))
  /\ NoDup (pruneSelection shown selected)
  /\ (forall j, In j (pruneSelection shown selected)
                <-> In j selected /\ In j (map id shown))
  /\ (isAllSelected shown (handleSelectAllTransactions shown true) = true
      <-> shown <> [] /\ NoDup (map id shown))
  /\ (NoDup (map id shown) -> incl selected (map id shown) ->
      (isAllSelected shown selected = true
       <-> shown <> [] /\ forall t, In t shown -> In (id t) selected)
      /\ (isIndeterminate shown selected = true
          <-> selected <> []
              /\ exists t, In t shown /\ ~ In (id t) selected)).
Proof.
  intros Hsel.
  assert (forall l : list Transaction,
             Nat.ltb 0 (List.length l) = true <-> l <> []) as NE.
  { intros l. rewrite Nat.ltb_lt. destruct l; cbn; split; intros H;
      try lia; try congruence. }
  assert (forall l : list string,
             Nat.ltb 0 (List.length l) = true <-> l <> []) as NE'.
  { intros l. rewrite Nat.ltb_lt. destruct l; cbn; split; intros H;
      try lia; try congruence. }
  split; [| split; [| split; [| split]]].
  - intros i j. unfold handleSelectTransaction.
    rewrite (setOfList_NoDup_id selected Hsel).
    split; [now apply setAdd_NoDup |].
    split; [now apply NoDup_filter |].
    split; [apply setAdd_In | apply setDelete_In].
  - apply setOfList_NoDup.
  - intros j. unfold pruneSelection. rewrite setOfList_In, filter_In.
    rewrite existsb_exists, in_map_iff.
    split; intros [H [t Ht]]; (split; [exact H |]); exists t.
    + destruct Ht as [Ht E]. apply String.eqb_eq in E. auto.
    + destruct Ht as [E Ht]. split; [exact Ht | now apply String.eqb_eq].
  - unfold isAllSelected, handleSelectAllTransactions.
    rewrite andb_true_iff, NE, Nat.eqb_eq.
    rewrite <- (length_map id shown) at 1.
    now rewrite (proj2 (setOfList_length (map id shown))).
  - intros Hnd Hincl. split.
    + unfold isAllSelected. rewrite andb_true_iff, NE, Nat.eqb_eq.
      rewrite <- (length_map id shown).
      rewrite (same_length_incl selected (map id shown) Hsel Hnd Hincl).
      split; intros [H1 H2]; (split; [exact H1 |]).
      * intros t Ht. apply H2, in_map, Ht.
      * intros i Hi. apply in_map_iff in Hi as [t [<- Ht]]. now apply H2.
    + unfold isIndeterminate. rewrite andb_true_iff, NE', Nat.ltb_lt.
      rewrite <- (length_map id shown).
      pose proof (NoDup_incl_length Hsel Hincl) as Hle.
      pose proof (same_length_incl selected (map id shown) Hsel Hnd Hincl)
        as Heq.
      split; intros [H1 H2]; (split; [exact H1 |]).
      * destruct (existsb (fun t => negb (setHas selected (id t))) shown)
          eqn:X.
        -- apply existsb_exists in X as [t [Ht X]]. exists t.
           split; [exact Ht |]. apply negb_true_iff in X.
           now apply setHas_false.
        -- exfalso. assert (incl (map id shown) selected) as I.
           { intros i Hi. apply in_map_iff in Hi as [t [<- Ht]].
             apply setHas_In.
             destruct (setHas selected (id t)) eqn:Y; [reflexivity |].
             assert (existsb (fun t => negb (setHas selected (id t))) shown
                     = true) as C
               by (apply existsb_exists; exists t; now rewrite Y).
             congruence. }
           apply Heq in I. lia.
      * destruct H2 as [t [Ht Hn]].
        assert (List.length selected <> List.length (map id shown)) as N.
        { intros E. apply Heq in E. apply Hn, E, in_map, Ht. }
        lia.
Qed.
End SelectionFacts.

Section BulkDeleteFacts.
Variable tz : Z.
Variable localeCompare : string -> string -> Z.

(** X15.  Select-all followed by a confirmed bulk delete removes what the
    list shows and nothing else: when the stored ids are distinct, the ids
    handed to [handleDeleteTransaction] are those of the listed
    transactions, and the stored transactions that remain are exactly
    those the filters hide, in their order.  Without a selection, or
    without the confirmation, nothing is handed over and the selection
    stays. *)
Theorem bulk_delete_removes_the_listed f o txs :
  NoDup (map id txs) ->
  filteredTransactions tz f txs <> [] ->
  let shown :=
    sortedTransactions localeCompare o (filteredTransactions tz f txs) in
  (exists ids,
      handleBulkDelete true (handleSelectAllTransactions shown true)
      = (Some (ManyIds ids), [])
      /\ (forall i, In i ids <-> In i (map id shown))
      /\ handleDeleteTransaction (ManyIds ids) txs
         = filter (fun t => negb (matchesFilters tz f t)) txs)
  /\ handleBulkDelete true [] = (None, [])
  /\ (forall selected, handleBulkDelete false selected = (None, selected)).
Proof.
  intros Hnd Hne shown.
  assert (Permutation shown (filteredTransactions tz f txs)) as P
    by apply sortBy_perm.
  split; [| split; [reflexivity |]].
  - exists (setOfList (map id shown)). split; [| split].
    + unfold handleBulkDelete, handleSelectAllTransactions.
      destruct (setOfList (map id shown)) as [| i ids] eqn:E;
        [| reflexivity].
      exfalso. destruct shown as [| t shown'] eqn:S.
      * apply Permutation_nil in P. now apply Hne.
      * assert (In (id t) (setOfList (map id (t :: shown')))) as C
          by (apply setOfList_In; now left).
        rewrite E in C. destruct C.
    + intros i. apply setOfList_In.
    + rewrite handleDeleteTransaction_filter. cbn [idsOf].
      apply filter_ext_in. intros t Ht. f_equal.
      destruct (matchesFilters tz f t) eqn:M.
      * apply existsb_eqb_In, setOfList_In, in_map.
        apply (Permutation_in _ (Permutation_sym P)).
        apply filter_In. auto.
      * destruct (existsb _ (setOfList (map id shown))) eqn:X;
          [| reflexivity].
        apply existsb_eqb_In, setOfList_In, in_map_iff in X
          as [u [E Hu]].
        apply (Permutation_in _ P), filter_In in Hu as [Hu Mu].
        assert (u = t) as ->; [| congruence].
        clear - Hnd Hu Ht E. induction txs as [| a l IH]; [destruct Hu |].
        cbn in Hnd. apply NoDup_cons_iff in Hnd as [Ha Hl].
        destruct Hu as [-> | Hu], Ht as [<- | Ht]; try reflexivity.
        -- destruct Ha. rewrite E. now apply in_map.
        -- destruct Ha. rewrite <- E. now apply in_map.
        -- now apply IH.
  - intros selected. unfold handleBulkDelete.
    now destruct (Nat.eqb (List.length selected) 0).
Qed.
End BulkDeleteFacts.

(** ** The CSV export *)

Section CsvFacts.

Lemma readQuotedBody_quoted s rest :
  match rest with
  | String c _ => c <> quoteChar
  | EmptyString => True
  end ->
  readQuotedBody (replaceQuotes s ++ String quoteChar rest) = Some (s, rest).
Proof.
  intros Hrest. induction s as [| c s IH].
  - cbn [replaceQuotes String.append readQuotedBody].
    rewrite Ascii.eqb_refl. destruct rest as [| c' rest']; [reflexivity |].
    apply Ascii.eqb_neq in Hrest. now rewrite Hrest.
  - cbn [replaceQuotes]. destruct (Ascii.eqb_spec c quoteChar) as [-> | N].
    + cbn [String.append readQuotedBody]. rewrite Ascii.eqb_refl.
      now rewrite IH.
    + cbn [String.append readQuotedBody]. apply Ascii.eqb_neq in N.
      now rewrite N, IH.
Qed.

Lemma string_append_assoc (a b c : string) :
  ((a ++ b) ++ c = a ++ (b ++ c))%string.
Proof. induction a as [| x a IH]; cbn; [reflexivity | now rewrite IH]. Qed.

Lemma readField_quoted s rest :
  match rest with
  | String c _ => c <> quoteChar
  | EmptyString => True
  end ->
  readField (quoted s ++ rest) = Some (s, rest).
Proof.
  intros Hr. unfold quoted. cbn [String.append readField].
  rewrite Ascii.eqb_refl, string_append_assoc. cbn [String.append].
  now apply readQuotedBody_quoted.
Qed.

(** X16.  A field that [exportToCsv] quotes is read back as it was: for
    every text, quotes, commas and line breaks included, a reader of
    comma-separated values that meets the quoted field, followed by
    anything that does not start with a quote, returns the text and what
    follows.  Two different texts therefore never give the same field. *)
Theorem quoted_field_reads_back s rest :
  match rest with
  | String c _ => c <> quoteChar
  | EmptyString => True
  end ->
  readField (quoted s ++ rest) = Some (s, rest)
  /\ forall s', quoted s' = quoted s -> s' = s.
Proof.
  intros Hrest. split; [now apply readField_quoted |].
  intros s' E.
  pose proof (readField_quoted s' "" I) as H1.
  pose proof (readField_quoted s "" I) as H2.
  rewrite E in H1. congruence.
Qed.

Lemma readPlain_plain s rest :
  noComma s = true ->
  match rest with
  | String c _ => c = commaChar
  | EmptyString => True
  end ->
  readPlain (s ++ rest) = (s, rest).
Proof.
  intros Hs Hrest. induction s as [| c s IH].
  - cbn. destruct rest as [| c' rest']; [reflexivity |]. subst c'.
    cbn [readPlain]. now rewrite Ascii.eqb_refl.
  - cbn in Hs. apply andb_true_iff in Hs as [Hc Hs].
    cbn [String.append readPlain]. apply negb_true_iff in Hc.
    now rewrite Hc, (IH Hs).
Qed.

Lemma readField_plain s rest :
  plainField s = true ->
  match rest with
  | String c _ => c = commaChar
  | EmptyString => True
  end ->
  readField (s ++ rest) = Some (s, rest).
Proof.
  unfold plainField. intros H Hrest. apply andb_true_iff in H as [H1 H2].
  destruct s as [| c s].
  - cbn [String.append]. destruct rest as [| c' rest']; [reflexivity |].
    subst c'. reflexivity.
  - cbn [String.append readField]. apply negb_true_iff in H2. rewrite H2.
    change (String c (s ++ rest))%string with (String c s ++ rest)%string.
    now rewrite readPlain_plain.
Qed.

Lemma safeText_plain s : safeText s = true -> plainField s = true.
Proof.
  unfold plainField. intros H. apply andb_true_iff. split.
  - induction s as [| c s IH]; [reflexivity |]. cbn in *.
    apply andb_true_iff in H as [H1 H2]. apply andb_true_iff in H1 as [H1 _].
    now rewrite H1, IH.
  - destruct s as [| c s]; [reflexivity |]. cbn in H.
    apply andb_true_iff in H as [H1 _]. now apply andb_true_iff in H1 as [_ H1].
Qed.

Lemma safeText_append a b :
  safeText (a ++ b) = safeText a && safeText b.
Proof.
  induction a as [| c a IH]; cbn; [reflexivity |].
  rewrite IH. now rewrite andb_assoc.
Qed.

Lemma safeText_digits w : forall n acc,
  safeText (JSDate.digits w n acc) = safeText acc.
Proof.
  induction w as [| w IH]; intros n acc; cbn [JSDate.digits]; [reflexivity |].
  rewrite IH. cbn [safeText].
  assert (0 <= n mod 10 < 10) as R by (apply Z.mod_pos_bound; lia).
  assert (n mod 10 = 0 \/ n mod 10 = 1 \/ n mod 10 = 2 \/ n mod 10 = 3
          \/ n mod 10 = 4 \/ n mod 10 = 5 \/ n mod 10 = 6 \/ n mod 10 = 7
          \/ n mod 10 = 8 \/ n mod 10 = 9) as C by lia.
  destruct C as [-> | [-> | [-> | [-> | [-> | [-> | [-> | [-> | [-> | ->]]]]]]]]];
    reflexivity.
Qed.

Lemma safeText_isoString d : safeText (JSDate.isoString d) = true.
Proof.
  unfold JSDate.isoString. destruct (JSDate.civil_from_days d) as [[y m] dd].
  rewrite !safeText_append, !safeText_digits. unfold JSDate.yearString.
  destruct ((0 <=? y) && (y <=? 9999)).
  - now rewrite safeText_digits.
  - unfold String.append at 1. destruct (y <? 0); cbn [String.append safeText];
      now rewrite safeText_digits.
Qed.

Lemma readField_plain_comma s r :
  plainField s = true ->
  readField (s ++ String commaChar r) = Some (s, String commaChar r).
Proof. intros H. now apply readField_plain. Qed.

Lemma readField_quoted_comma s r :
  readField (quoted s ++ String commaChar r) = Some (s, String commaChar r).
Proof. apply readField_quoted. discriminate. Qed.

Lemma readRecord_more n s field rest :
  readField s = Some (field, String commaChar rest) ->
  readRecord (S (S n)) s
  = match readRecord (S n) rest with
    | Some fields => Some (field :: fields)
    | None => None
    end.
Proof.
  intros H. cbn [readRecord]. rewrite H. now rewrite Ascii.eqb_refl.
Qed.

Lemma readRecord_last s field :
  readField s = Some (field, EmptyString) -> readRecord 1 s = Some [field].
Proof. intros H. cbn [readRecord]. now rewrite H. Qed.

(** X17.  A line of the export is read back as the transaction it was
    written from: when the id, the currency code and the text of the amount
    hold no comma and start with no quote, a reader of comma-separated
    values finds in the line exactly eight fields, which are the id, the
    date, the description, the category, the type, the amount with a minus
    sign for an expense, the currency and the notes, the empty text standing
    for absent notes.  Description, category and notes may hold any
    character. *)
Theorem exported_line_reads_back host t :
  plainField (id t) = true ->
  plainField (currencyCode t) = true ->
  plainField (toFixed2 host (amount t)) = true ->
  readRecord 8 (join "," (csvRow host t)) = Some (csvValues host t).
Proof.
  intros Hid Hcur Hamt.
  assert (plainField (typeName (type t)) = true) as Hty
    by (destruct (type t); reflexivity).
  assert (plainField (match type t with
                      | expense => ("-" ++ toFixed2 host (amount t))%string
                      | income => toFixed2 host (amount t)
                      end) = true) as Hsigned.
  { destruct (type t); [exact Hamt |].
    unfold plainField in *. apply andb_true_iff in Hamt as [H _].
    cbn. now rewrite H. }
  unfold join, csvRow, csvValues. cbn [String.concat].
  cbn [String.append] in *. fold commaChar.
  rewrite (readRecord_more _ _ _ _ (readField_plain_comma _ _ Hid)).
  rewrite (readRecord_more _ _ _ _
             (readField_plain_comma _ _
                (safeText_plain _ (safeText_isoString _)))).
  rewrite (readRecord_more _ _ _ _ (readField_quoted_comma _ _)).
  rewrite (readRecord_more _ _ _ _ (readField_quoted_comma _ _)).
  rewrite (readRecord_more _ _ _ _ (readField_plain_comma _ _ Hty)).
  rewrite (readRecord_more _ _ _ _ (readField_plain_comma _ _ Hsigned)).
  rewrite (readRecord_more _ _ _ _ (readField_plain_comma _ _ Hcur)).
  assert (forall u, readField (quoted u) = Some (u, EmptyString)) as Hlast.
  { intros u. pose proof (readField_quoted u "" I) as H.
    replace (quoted u ++ "")%string with (quoted u) in H; [exact H |].
    clear. induction (quoted u) as [| c v IH]; cbn; [reflexivity | congruence]. }
  now rewrite (readRecord_last _ _ (Hlast _)).
Qed.
End CsvFacts.

(** ** The expense chart *)

Section ChartFacts.
Local Open Scope float_scope.

Lemma totalSpentInCategory_expenseTotal txs code c :
  totalSpentInCategory txs code c = expenseTotal code txs c.
Proof.
  unfold totalSpentInCategory, expenseTotal, sumAmounts, matching.
  rewrite !filter_filter. f_equal.
  apply filter_ext. intros tx. unfold isIncome.
  destruct (String.eqb (category tx) c), (type tx),
    (String.eqb (currencyCode tx) code); reflexivity.
Qed.

Lemma filter_map_filter {A B : Type} (p : B -> bool) (q : A -> bool)
      (f : A -> B) l :
  (forall a, p (f a) = q a) ->
  filter p (map f (filter q l)) = map f (filter q l).
Proof.
  intros H. induction l as [| a l IH]; cbn; [reflexivity |].
  destruct (q a) eqn:E; [| exact IH]. cbn. now rewrite H, E, IH.
Qed.

Lemma expensesBreakdown_as_map txs code :
  expensesBreakdown (calculateSummary txs code) txs code
  = map (fun c => Cat.mk c (expenseTotal code txs c))
        (filter (fun c => numLtb 0 (expenseTotal code txs c))
                (map Cat.category
                     (categoryBreakdown (calculateSummary txs code)))).
Proof.
  unfold expensesBreakdown.
  rewrite filter_map_filter
    by (intros cb; cbn [Cat.amount Cat.category]; reflexivity).
  induction (categoryBreakdown (calculateSummary txs code)) as [| cb bd IH];
    cbn [filter map]; [reflexivity |].
  rewrite totalSpentInCategory_expenseTotal.
  destruct (numLtb 0 (expenseTotal code txs (Cat.category cb)));
    cbn [map]; rewrite ?totalSpentInCategory_expenseTotal; now rewrite IH.
Qed.

Lemma expense_category_listed txs code tx :
  In tx (matching code txs) ->
  In (category tx)
     (map Cat.category (categoryBreakdown (calculateSummary txs code))).
Proof.
  intros H. apply in_map_iff.
  exists (Cat.mk (category tx) (categoryTotal code txs (category tx))).
  split; [reflexivity |]. apply breakdown_entries. split; [| reflexivity].
  unfold hasCategory. apply existsb_exists. exists tx.
  split; [exact H | apply String.eqb_refl].
Qed.

(** X18.  The expense chart has one slice for each category in which the
    transactions of the period, in the selected currency, have expenses of
    a positive total, and the slice is that total, the binary64 sum of the
    expenses of the category in the order of the list: income of the
    category is left out of it, unlike in the breakdown of the summary.
    No category has two slices. *)
Theorem expense_chart_slices txs code :
  let slices := expensesBreakdown (calculateSummary txs code) txs code in
  NoDup (map Cat.category slices)
  /\ (forall c a, In (Cat.mk c a) slices
                  <-> a = expenseTotal code txs c /\ numLtb 0 a = true).
Proof.
  intros slices. subst slices. rewrite expensesBreakdown_as_map.
  set (cats := map Cat.category
                   (categoryBreakdown (calculateSummary txs code))).
  assert (NoDup cats) as Hnd by apply breakdown_NoDup.
  split.
  - rewrite map_map. cbn [Cat.category]. rewrite map_id.
    now apply NoDup_filter.
  - intros c a. rewrite in_map_iff. split.
    + intros [k [[= -> <-] Hk]]. apply filter_In in Hk as [_ Hk].
      now split.
    + intros [-> Ha]. exists c. split; [reflexivity |].
      apply filter_In. split; [| exact Ha].
      unfold expenseTotal in Ha.
      destruct (filter (fun tx => String.eqb (category tx) c)
                       (filter (fun tx => negb (isIncome tx))
                               (matching code txs))) as [| tx l] eqn:F.
      * cbv in Ha. discriminate Ha.
      * assert (In tx (tx :: l)) as Hin by now left.
        rewrite <- F in Hin. apply filter_In in Hin as [Hin E].
        apply filter_In in Hin as [Hin _]. apply String.eqb_eq in E.
        subst c. now apply expense_category_listed.
Qed.
End ChartFacts.

(** ** The materializer at every offset *)

Lemma emittedFor_not_due tz T txs rt :
  isDue tz T rt = false -> emittedFor tz T txs rt = [].
Proof.
  unfold isDue, emittedFor. intros H. apply Z.leb_gt in H.
  now destruct (occurrenceDays_not_due (Rule.frequency rt) T _ H) as [-> _].
Qed.

(** X19.  In every fixed-offset zone, that is on every host whose local
    time is UTC plus a constant, the materializer returns the rules in
    their order, each changed in its next-occurrence date and in nothing
    else;
    every transaction it generates copies the description, amount, type,
    category, notes and currency of one of the rules and carries the id
    made of that rule's id and of the transaction's own date; no existing
    transaction has that id; and when it reports that no rule was due it
    has generated nothing. *)
Theorem materialized_at_every_offset tz now rules txs :
  exists res,
    processRecurringTransactions tz now rules txs = Some res
    /\ Forall2 (fun rt rt' =>
                  rt' = withNextOccurrence rt (Rule.nextOccurrenceDate rt'))
               rules (updatedRecurringTxs res)
    /\ (forall tx, In tx (newTransactions res) ->
          (exists rt,
              In rt rules
              /\ id tx = (Rule.id rt ++ "-"
                          ++ JSDate.isoString (date tx))%string
              /\ description tx = Rule.description rt
              /\ amount tx = Rule.amount rt
              /\ type tx = Rule.type rt
              /\ category tx = Rule.category rt
              /\ notes tx = Rule.notes rt
              /\ currencyCode tx = Rule.currencyCode rt)
          /\ forall e, In e txs -> id e <> id tx)
    /\ (anyRecurringNextOccurrenceChanged res = false ->
        newTransactions res = []).
Proof.
  eexists. split; [apply processRecurringTransactions_run |].
  cbn [newTransactions updatedRecurringTxs anyRecurringNextOccurrenceChanged].
  set (T := localDay tz now). split; [| split].
  - induction rules as [| rt rules IH]; cbn [map]; constructor;
      [reflexivity | exact IH].
  - intros tx Htx. apply in_flat_map in Htx as [rt [Hrt Htx]]. split.
    + exists rt. split; [exact Hrt |].
      apply emittedFor_In in Htx as [L [_ [_ ->]]].
      cbn. repeat split; reflexivity.
    + intros e He. now apply (emittedFor_new tz T txs rt).
  - intros H. induction rules as [| rt rules IH]; [reflexivity |].
    cbn [existsb flat_map] in *. apply orb_false_iff in H as [H1 H2].
    now rewrite (emittedFor_not_due _ _ _ _ H1), IH.
Qed.

Lemma emitted_date_bounds tz now txs rt tx :
  In tx (emittedFor tz (localDay tz now) txs rt) ->
  date tx <= JSDate.toISODay now
  /\ (- JSDate.msPerDay < tz < JSDate.msPerDay ->
      date tx <= localDay tz now
      /\ Rule.nextOccurrenceDate rt - 1 <= date tx).
Proof.
  intros H. apply emittedFor_In in H as [L [HL [_ ->]]].
  apply occurrenceDays_bounds in HL. cbn [occurrenceTx date].
  revert HL.
  unfold ruleDay, localDay, localMidnight, JSDate.toISODay, JSDate.Day,
    JSDate.LocalTime, JSDate.parse, JSDate.msPerDay.
  intros HL. split; [| intros Htz; split]; JSDateFacts.zdiv.
Qed.

(** X20.  No generated transaction is dated ahead of the clock: in every
    fixed-offset zone, whatever the offset, every transaction the
    materializer generates is dated on or before the UTC date of the
    instant of the call; and in a fixed-offset zone whose offset is less
    than a day it is dated on or before the local date too, and not more
    than one day before the next-occurrence date of a rule. *)
Theorem no_transaction_dated_ahead tz now rules txs :
  exists res,
    processRecurringTransactions tz now rules txs = Some res
    /\ forall tx, In tx (newTransactions res) ->
         date tx <= JSDate.toISODay now
         /\ (- JSDate.msPerDay < tz < JSDate.msPerDay ->
             date tx <= localDay tz now
             /\ exists rt, In rt rules
                           /\ Rule.nextOccurrenceDate rt - 1 <= date tx).
Proof.
  eexists. split; [apply processRecurringTransactions_run |].
  cbn [newTransactions]. intros tx Htx.
  apply in_flat_map in Htx as [rt [Hrt Htx]].
  apply emitted_date_bounds in Htx as [H1 H2].
  split; [exact H1 |]. intros Htz. destruct (H2 Htz) as [H3 H4].
  split; [exact H3 |]. now exists rt.
Qed.

(** X21.  On a host whose local time is UTC an occurrence is generated
    once: after a run at some instant, a further run on the rules it
    returned, at any instant and against any list of transactions, also
    one from which generated transactions were deleted, generates only
    transactions dated after the day of the first run, while the first run
    generated only transactions dated on or before that day. *)
Theorem occurrences_are_generated_once now now' rules txs txs' :
  exists res res',
    processRecurringTransactions utc now rules txs = Some res
    /\ processRecurringTransactions utc now' (updatedRecurringTxs res) txs'
       = Some res'
    /\ (forall tx, In tx (newTransactions res) -> date tx <= JSDate.Day now)
    /\ (forall tx, In tx (newTransactions res') ->
                   JSDate.Day now < date tx <= JSDate.Day now').
Proof.
  do 2 eexists.
  split; [apply processRecurringTransactions_run |].
  split; [apply processRecurringTransactions_run |].
  cbn [newTransactions updatedRecurringTxs]. rewrite !localDay_utc.
  split.
  - intros tx Htx. apply in_flat_map in Htx as [rt [_ Htx]].
    rewrite <- localDay_utc in Htx.
    apply emitted_date_bounds in Htx as [H _]. exact H.
  - intros tx Htx. apply in_flat_map in Htx as [rt' [Hrt Htx]].
    apply in_map_iff in Hrt as [rt [<- _]].
    apply emittedFor_In in Htx as [L [HL [_ ->]]].
    rewrite ruleDay_utc, advanced_utc in HL.
    cbn [withNextOccurrence Rule.nextOccurrenceDate Rule.frequency] in HL.
    apply occurrenceDays_bounds in HL.
    cbn [occurrenceTx date]. rewrite toISODay_utc.
    pose proof (nextAfter_gt (Rule.frequency rt) (JSDate.Day now)
                             (Rule.nextOccurrenceDate rt)).
    lia.
Qed.

Lemma emittedFor_withStartDate tz T txs s rt :
  emittedFor tz T txs (withStartDate s rt) = emittedFor tz T txs rt.
Proof. reflexivity. Qed.

(** X22.  The start date of a rule is never read: with the start dates
    of the rules replaced by any date, the materializer generates the same
    transactions, reports the same flag and returns the same rules, which
    carry the replaced start date.  What is generated for a rule depends on
    its next-occurrence date alone. *)
Theorem start_date_is_not_read tz now rules txs s :
  exists res,
    processRecurringTransactions tz now rules txs = Some res
    /\ processRecurringTransactions tz now (map (withStartDate s) rules) txs
       = Some {| newTransactions := newTransactions res;
                 updatedRecurringTxs :=
                   map (withStartDate s) (updatedRecurringTxs res);
                 anyRecurringNextOccurrenceChanged :=
                   anyRecurringNextOccurrenceChanged res |}.
Proof.
  eexists. split; [apply processRecurringTransactions_run |].
  rewrite processRecurringTransactions_run.
  cbn [newTransactions updatedRecurringTxs anyRecurringNextOccurrenceChanged].
  f_equal. f_equal.
  - rewrite flat_map_concat_map, map_map, <- flat_map_concat_map.
    reflexivity.
  - rewrite !map_map. reflexivity.
  - induction rules as [| rt rules IH]; [reflexivity |]. cbn [map existsb].
    now rewrite IH.
Qed.

(** X26.  The effect that stores the generated transactions loses none
    and adds exactly what was generated, in every fixed-offset zone: it
    always
    completes; without rules it leaves the state as it is; with rules, the
    transactions it stores are the previous ones and all the transactions
    the materializer generated, each once, the filter against the previous
    ids never removing one; and the rules it stores are as many as before. *)
Theorem effect_adds_what_was_generated localeCompare tz now st :
  exists res st',
    processRecurringTransactions tz now (recurringTransactions st)
                                 (transactions st) = Some res
    /\ materializeEffect localeCompare tz now st = Some st'
    /\ (recurringTransactions st = [] -> st' = st)
    /\ (recurringTransactions st <> [] ->
        Permutation (transactions st')
                    (transactions st ++ newTransactions res))
    /\ List.length (recurringTransactions st')
       = List.length (recurringTransactions st).
Proof.
  set (T := localDay tz now).
  set (generated := flat_map (emittedFor tz T (transactions st))
                             (recurringTransactions st)).
  exists {| newTransactions := generated;
            updatedRecurringTxs :=
              map (advanced tz T) (recurringTransactions st);
            anyRecurringNextOccurrenceChanged :=
              existsb (isDue tz T) (recurringTransactions st) |}.
  unfold materializeEffect.
  rewrite processRecurringTransactions_run.
  cbn [newTransactions updatedRecurringTxs anyRecurringNextOccurrenceChanged].
  fold T. fold generated.
  destruct (recurringTransactions st) as [| rt rules] eqn:R.
  - eexists. cbn [List.length Z.of_nat Z.ltb Z.compare].
    split; [reflexivity |]. split; [reflexivity |].
    split; [reflexivity |]. split; [congruence |]. now rewrite R.
  - eexists. split; [reflexivity |]. split; [reflexivity |].
    split; [discriminate |]. cbn [transactions recurringTransactions].
    split.
    + intros _. destruct (0 <? Z.of_nat (List.length generated)) eqn:G.
      * unfold mergeNewTransactions. rewrite sortBy_perm.
        apply Permutation_app_head.
        replace (filter _ generated) with generated; [reflexivity |].
        symmetry. apply forallb_filter_id. apply forallb_forall.
        intros tx Htx. apply negb_true_iff.
        change (hasId (transactions st) (id tx) = false).
        apply hasId_false. intros e He.
        subst generated. apply in_flat_map in Htx as [r [_ Htx]].
        now apply (emittedFor_new tz T (transactions st) r).
      * destruct generated; [now rewrite app_nil_r | discriminate].
    + destruct (existsb _ _); [apply length_map | reflexivity].
Qed.

(** ** Currencies *)

Section CurrencyFacts.
Variable CURRENCY_OPTIONS : list CurrencyOption.
Variable DEFAULT_CURRENCY_CODE : string.
Variable toLowerCase : string -> string.

Lemma hasCode_In options c :
  hasCode options c = true <-> exists o, In o options /\ Cur.code o = c.
Proof.
  unfold hasCode. rewrite existsb_exists.
  split; intros [o [H E]]; exists o; (split; [exact H |]);
    now apply String.eqb_eq.
Qed.

Lemma filteredCurrencyOptions_incl term o :
  In o (filteredCurrencyOptions CURRENCY_OPTIONS toLowerCase term) ->
  In o CURRENCY_OPTIONS.
Proof.
  unfold filteredCurrencyOptions.
  destruct (String.eqb (toLowerCase term) ""); [auto |].
  intros H. now apply filter_In in H.
Qed.

Lemma currencySearchEffect_fixed s :
  (currencySearchTerm s = ""
   \/ selectedCurrency s = ""
   \/ hasCode (filteredCurrencyOptions CURRENCY_OPTIONS toLowerCase
                 (currencySearchTerm s))
              (selectedCurrency s) = true) ->
  (currencySearchTerm s = "" -> selectedCurrency s = "" ->
   DEFAULT_CURRENCY_CODE = "") ->
  currencySearchEffect CURRENCY_OPTIONS DEFAULT_CURRENCY_CODE toLowerCase s
  = s.
Proof.
  intros P Q. unfold currencySearchEffect.
  assert (negb (String.eqb (currencySearchTerm s) "")
          && negb (String.eqb (selectedCurrency s) "")
          && negb (hasCode (filteredCurrencyOptions CURRENCY_OPTIONS
                              toLowerCase (currencySearchTerm s))
                           (selectedCurrency s)) = false) as ->.
  { destruct P as [P | [P | P]]; rewrite P; cbn;
      rewrite ?andb_false_r; reflexivity. }
  destruct (String.eqb_spec (currencySearchTerm s) "") as [T | T];
    [| reflexivity].
  destruct (String.eqb_spec (selectedCurrency s) "") as [S | S];
    [| reflexivity].
  cbn [andb]. rewrite (Q T S). destruct s; cbn in *; congruence.
Qed.

Lemma currencySearchEffect_post s :
  let s' := currencySearchEffect CURRENCY_OPTIONS DEFAULT_CURRENCY_CODE
                                 toLowerCase s in
  (currencySearchTerm s' = ""
   \/ selectedCurrency s' = ""
   \/ hasCode (filteredCurrencyOptions CURRENCY_OPTIONS toLowerCase
                 (currencySearchTerm s'))
              (selectedCurrency s') = true)
  /\ (currencySearchTerm s' = "" -> selectedCurrency s' = "" ->
      DEFAULT_CURRENCY_CODE = "").
Proof.
  cbv zeta. unfold currencySearchEffect.
  destruct (String.eqb_spec (currencySearchTerm s) "") as [T | T];
    cbn [negb andb].
  - destruct (String.eqb_spec (selectedCurrency s) "") as [S | S]; cbn.
    + split; [now left | auto].
    + split; [now left | intros _ C; contradiction].
  - destruct (String.eqb_spec (selectedCurrency s) "") as [S | S];
      cbn [negb andb].
    + split; [auto | intros C; contradiction].
    + destruct (hasCode _ (selectedCurrency s)) eqn:H; cbn [negb].
      * split; [auto | intros C; contradiction].
      * destruct (filteredCurrencyOptions _ _ _) as [| first rest] eqn:F;
          cbn.
        -- split; [now left | auto].
        -- split; [| intros C; contradiction].
           right. right. rewrite F. cbn. now rewrite String.eqb_refl.
Qed.

(** X23.  The effect on the currency search settles in one run: applied
    to its own result it changes nothing.  After it, whenever a search term
    and a selected currency are both present, the selected currency is one
    of the options the search shows; and a currency it selects is the
    default code or the code of an option.  The currency loaded at start is
    the stored one only if it is the code of an option, and the default
    otherwise. *)
Theorem currency_search_settles s :
  let effect :=
    currencySearchEffect CURRENCY_OPTIONS DEFAULT_CURRENCY_CODE toLowerCase in
  effect (effect s) = effect s
  /\ (currencySearchTerm (effect s) = ""
      \/ selectedCurrency (effect s) = ""
      \/ hasCode (filteredCurrencyOptions CURRENCY_OPTIONS toLowerCase
                    (currencySearchTerm (effect s)))
                 (selectedCurrency (effect s)) = true)
  /\ (selectedCurrency (effect s) = selectedCurrency s
      \/ selectedCurrency (effect s) = DEFAULT_CURRENCY_CODE
      \/ hasCode CURRENCY_OPTIONS (selectedCurrency (effect s)) = true)
  /\ forall stored,
       let loaded :=
         loadSelectedCurrency CURRENCY_OPTIONS DEFAULT_CURRENCY_CODE stored in
       loaded = DEFAULT_CURRENCY_CODE
       \/ (stored = Some loaded /\ hasCode CURRENCY_OPTIONS loaded = true).
Proof.
  intros effect. subst effect.
  destruct (currencySearchEffect_post s) as [P Q].
  split; [now apply currencySearchEffect_fixed |].
  split; [exact P |]. split.
  - clear P Q. unfold currencySearchEffect.
    destruct (negb _ && negb _ && negb _).
    + destruct (filteredCurrencyOptions _ _ _) as [| first rest] eqn:F;
        cbn [selectedCurrency]; [right; left; reflexivity |].
      right. right. apply hasCode_In. exists first. split; [| reflexivity].
      apply (filteredCurrencyOptions_incl (currencySearchTerm s)).
      rewrite F. now left.
    + destruct (String.eqb _ "" && String.eqb _ ""); cbn [selectedCurrency];
        [right; left; reflexivity | left; reflexivity].
  - intros stored loaded. subst loaded. unfold loadSelectedCurrency.
    destruct stored as [c |]; [| now left].
    destruct (negb (String.eqb c "")); cbn [andb]; [| now left].
    destruct (hasCode CURRENCY_OPTIONS c) eqn:H; [right; auto | now left].
Qed.

(** The first element for which a test holds, and what lies before it. *)
Lemma find_first {A : Type} (p : A -> bool) l :
  match find p l with
  | Some x =>
      exists before after,
        l = before ++ x :: after /\ p x = true
        /\ forall y, In y before -> p y = false
  | None => forall y, In y l -> p y = false
  end.
Proof.
  induction l as [| a l IH]; cbn [find]; [intros y [] |].
  destruct (p a) eqn:E.
  - exists [], l. repeat split; [exact E | intros y []].
  - destruct (find p l) as [x |].
    + destruct IH as [before [after [-> [Hx Hb]]]].
      exists (a :: before), after. repeat split; [exact Hx |].
      intros y [<- | Hy]; [exact E | now apply Hb].
    + intros y [<- | Hy]; [exact E | now apply IH].
Qed.

(** X24.  The converter starts from the selected currency and, when it
    can, converts into another one: after the effect on its defaults the
    source currency is the selected one; a target currency that differed
    from it is kept; one that did not is replaced by the code of the first
    option, in the order of the options, whose code is another one, and by
    the default code when no option has another code.  The target
    therefore differs from the source whenever it differed before, or some
    option has another code, or the default code is another one. *)
Theorem converter_defaults_differ selected toCurrency :
  let '(from, to) :=
    converterDefaults CURRENCY_OPTIONS DEFAULT_CURRENCY_CODE selected
                      toCurrency in
  from = selected
  /\ (toCurrency <> selected -> to = toCurrency)
  /\ (toCurrency = selected ->
      (exists before o after,
          CURRENCY_OPTIONS = before ++ o :: after
          /\ (forall o', In o' before -> Cur.code o' = selected)
          /\ Cur.code o <> selected
          /\ to = Cur.code o)
      \/ ((forall o, In o CURRENCY_OPTIONS -> Cur.code o = selected)
          /\ to = DEFAULT_CURRENCY_CODE))
  /\ (toCurrency <> selected
      \/ (exists o, In o CURRENCY_OPTIONS /\ Cur.code o <> selected)
      \/ DEFAULT_CURRENCY_CODE <> selected ->
      to <> from).
Proof.
  unfold converterDefaults. split; [reflexivity |].
  pose proof (find_first (fun c => negb (String.eqb (Cur.code c) selected))
                         CURRENCY_OPTIONS) as FF.
  destruct (String.eqb_spec toCurrency selected) as [E | E].
  - split; [contradiction |].
    destruct (find _ CURRENCY_OPTIONS) as [o |] eqn:F.
    + destruct FF as [before [after [Hl [Ho Hb]]]].
      apply negb_true_iff, String.eqb_neq in Ho.
      split; [| intros _; exact Ho].
      intros _. left. exists before, o, after.
      split; [exact Hl |]. split; [| split; [exact Ho | reflexivity]].
      intros o' Ho'. apply Hb in Ho'.
      now apply negb_false_iff, String.eqb_eq in Ho'.
    + assert (forall o, In o CURRENCY_OPTIONS -> Cur.code o = selected) as N.
      { intros o Ho. apply FF in Ho.
        now apply negb_false_iff, String.eqb_eq in Ho. }
      split; [intros _; right; split; [exact N | reflexivity] |].
      intros [H | [[o [Ho H]] | H]]; [contradiction | | exact H].
      destruct H. now apply N.
  - split; [reflexivity |]. split; [contradiction |]. intros _. exact E.
Qed.
End CurrencyFacts.

(** X25.  [handleConvert] ends with a converted amount or with an error
    message and never with both or neither.  It converts exactly when the
    amount entered is positive and either the two currencies are the same
    or the table has a rate for each; a blank amount, an amount that is
    NaN, 0 or negative, and a missing rate each give an error and no
    amount. *)
Theorem convert_or_error rates fromAmount from to :
  let r := handleConvert rates fromAmount from to in
  (error r = None <-> convertedAmount r <> None)
  /\ (convertedAmount r <> None
      <-> exists n, fromAmount = Entered n /\ numLtb 0 n = true
                    /\ (from = to
                        \/ (rates from <> None /\ rates to <> None))).
Proof.
  intros r. subst r. unfold handleConvert.
  destruct fromAmount as [| n].
  { cbn. split; split; try congruence; try discriminate.
    intros [n [H _]]. discriminate. }
  rewrite positive_test.
  destruct (numLtb 0 n) eqn:L; cbn [negb].
  2:{ cbn. split; split; try congruence; try discriminate.
      intros [m [[= <-] [H _]]]. unfold numLtb in *. congruence. }
  destruct (String.eqb_spec from to) as [E | E].
  { cbn. split; split; try congruence; try discriminate.
    intros _. exists n. auto. }
  destruct (rates from) as [fr |] eqn:F, (rates to) as [tr |] eqn:T; cbn;
    split; split; try congruence; try discriminate;
    try (intros _; exists n; split; [reflexivity |]; split; [exact L |];
         right; split; discriminate);
    intros [m [_ [_ [H | [H1 H2]]]]]; congruence.
Qed.

(** ** The properties at concrete inputs *)

Lemma edit_lands_in_place_witness :
  storedTransactions
    (handleSaveTransaction (fun s => s) (Some januaryTx) (gymFormTx "t1")
                           (Some "Others") (Some true) gymStore)
  = [decemberTx] ++ gymFormTx "t1" :: []
  /\ id (gymFormTx "t1") = id januaryTx.
Proof.
  apply (edit_lands_in_place failingHost (fun s => s) "1704412800000"
           januaryTx gymForm (gymFormTx "t1") (Some "Others") (Some true)
           gymStore [decemberTx] []).
  - reflexivity.
  - discriminate.
  - reflexivity.
  - cbn. repeat constructor; cbn; [| tauto].
    intros [E | []]. discriminate E.
Defined.

Lemma override_recorded_iff_confirmed_witness :
  storedOverrides
    (handleSaveTransaction (fun s => s) (Some januaryTx) (gymFormTx "t1")
                           (Some "Others") (Some true) gymStore)
  = [Ovr.mk "Gym" "Health"].
Proof.
  rewrite (override_recorded_iff_confirmed failingHost (fun s => s)
             "1704412800000" (Some januaryTx) (Some januaryTx) gymForm
             (gymFormTx "t1") (Some "Others") (Some true) gymStore eq_refl).
  reflexivity.
Defined.

Lemma recurring_submit_next_occurrence_witness :
  Form.date gymForm = Some (Rule.startDate gymFormRule)
  /\ Rule.nextOccurrenceDate gymFormRule
     = Rule.nextOccurrenceDate monthlyRule
  /\ Rule.startDate gymFormRule <> Rule.startDate monthlyRule.
Proof.
  destruct (recurring_submit_next_occurrence failingHost "1704412800000"
              (Some monthlyRule) gymForm gymFormRule (Some "Others")
              (Some true) eq_refl) as [H1 [H2 _]].
  split; [exact H1 |]. split; [exact H2 |]. discriminate.
Defined.

Lemma list_filters_by_day_witness :
  - JSDate.msPerDay < utcMinus7 < JSDate.msPerDay
  /\ matchesFilters utcMinus7 januaryExpenses januaryTx = true.
Proof.
  assert (- JSDate.msPerDay < utcMinus7 < JSDate.msPerDay) as H
    by (unfold utcMinus7, JSDate.msPerDay; lia).
  split; [exact H |].
  apply (proj2 (list_filters_by_day utcMinus7 H januaryExpenses januaryTx)).
  unfold withinFilters, januaryExpenses, januaryTx, gymTx.
  cbn [TL.filterType TL.filterCurrency TL.startDate TL.endDate type
       currencyCode date].
  split; [now intros ty [= <-] |]. split; [congruence |].
  split; intros d [= <-]; vm_compute; discriminate.
Defined.

Lemma listed_in_order_witness :
  Sorted (listedOrder codeUnitCompare desc)
         (sortedTransactions codeUnitCompare desc [decemberTx; januaryTx]).
Proof.
  exact (proj1 (proj2 (listed_in_order codeUnitCompare codeUnitCompare_total
                         desc [decemberTx; januaryTx]))).
Defined.

Lemma selection_follows_the_boxes_witness :
  NoDup ["t0"]
  /\ NoDup (pruneSelection [decemberTx; januaryTx] ["t0"]).
Proof.
  assert (NoDup ["t0"]) as H by (repeat constructor; intros []).
  split; [exact H |].
  exact (proj1 (proj2 (selection_follows_the_boxes
                         [decemberTx; januaryTx] ["t0"] H))).
Defined.

Lemma bulk_delete_removes_the_listed_witness :
  exists ids,
    handleBulkDelete true
      (handleSelectAllTransactions
         (sortedTransactions codeUnitCompare desc
            (filteredTransactions utc januaryExpenses
                                  [decemberTx; januaryTx]))
         true)
    = (Some (ManyIds ids), [])
    /\ (forall i,
           In i ids
           <-> In i (map id (sortedTransactions codeUnitCompare desc
                               (filteredTransactions
                                  utc januaryExpenses
                                  [decemberTx; januaryTx]))))
    /\ handleDeleteTransaction (ManyIds ids) [decemberTx; januaryTx]
       = filter (fun t => negb (matchesFilters utc januaryExpenses t))
                [decemberTx; januaryTx].
Proof.
  apply (bulk_delete_removes_the_listed utc codeUnitCompare januaryExpenses
           desc [decemberTx; januaryTx]).
  - cbn. repeat constructor; cbn; [| tauto].
    intros [E | []]. discriminate E.
  - vm_compute. discriminate.
Defined.

Lemma quoted_field_reads_back_witness :
  readField (quoted quotedGym ++ ",USD") = Some (quotedGym, ",USD").
Proof.
  apply (quoted_field_reads_back quotedGym ",USD"). discriminate.
Defined.

Lemma exported_line_reads_back_witness :
  readRecord 8 (join "," (csvRow failingHost januaryTx))
  = Some (csvValues failingHost januaryTx).
Proof.
  apply (exported_line_reads_back failingHost januaryTx); reflexivity.
Defined.
